(** * A two-pass assembler with a macro pre-processor: model and properties

    The development follows the C sources file by file:
    [general.c] (tokenizer, keyword tables, hashing), [front_end.c] (the line
    parser), [pre_assembler.c] (macro expansion), [first_pass.c],
    [second_pass.c] and [back_end.c].

    Conventions of the embedding.
    - A C string is a [string]; a [char] is an [ascii].  Buffers are not
      bounded: a name is kept as the string that [strcpy] is given.  In the
      code the names of symbols, operands and externals go to arrays of
      [MAX_LABEL_LEN] characters, which hold a name and its NUL when the name
      has fewer than [MAX_LABEL_LEN] characters ([fits_label]); the theorems
      that read a stored name back assume that it fits.
      [MAX_PROGRAM_LENGTH] is not modelled either (the driver states that
      inputs are assumed to fit).
    - [int] values are [Z]; the images are arrays of [short], so every store
      goes through [to_short].
    - [char] is signed; [x << k] is [x * 2 ^ k] also for a negative [x], and
      [x >> k] is the arithmetic shift.
    - [malloc] and [fopen] always succeed.  A buffer that [malloc] returns is
      zeroed (this matters for the copy that [is_label] makes with [strncpy]
      and does not terminate; [is_label_in] is [is_label] with what the buffer
      holds as an argument).
    - A linked chain whose nodes are shared by pointer (symbols, macros) is a
      list of addresses into a heap of nodes, the address of a node being its
      allocation index.
    - [printf] appends one string to a log of diagnostics. *)

From Stdlib Require Import ZArith Bool List String Ascii Lia DecimalString.
Import ListNotations.

Local Open Scope string_scope.
Local Open Scope Z_scope.

(** ** C library pieces *)

Module CLib.

Definition code (c : ascii) : Z := Z.of_N (N_of_ascii c).

Definition NUL : ascii := "000"%char.
Definition newline : ascii := "010"%char.
Definition tab : ascii := "009"%char.
Definition dquote : ascii := "034"%char.

Definition nl : string := String newline EmptyString.

(** [<ctype.h>] in the C locale. *)
Definition isspace (c : ascii) : bool :=
  (code c =? 32) || ((9 <=? code c) && (code c <=? 13)).

Definition isdigit (c : ascii) : bool := (48 <=? code c) && (code c <=? 57).

Definition isalpha (c : ascii) : bool :=
  ((65 <=? code c) && (code c <=? 90)) || ((97 <=? code c) && (code c <=? 122)).

Definition isprint (c : ascii) : bool := (32 <=? code c) && (code c <=? 126).

(** The contents of a buffer seen as a C string: everything before the first
    NUL byte. *)
Fixpoint c_str (buf : string) : string :=
  match buf with
  | EmptyString => EmptyString
  | String c r => if Ascii.eqb c NUL then EmptyString else String c (c_str r)
  end.

Definition strlen (s : string) : Z := Z.of_nat (String.length s).

(** [strchr s c <> NULL]. *)
Fixpoint strchr (s : string) (c : ascii) : bool :=
  match s with
  | EmptyString => false
  | String d r => Ascii.eqb d c || strchr r c
  end.

(** [s[i]], the terminating NUL included. *)
Definition char_at (s : string) (i : Z) : ascii :=
  if i <? 0 then NUL
  else match String.get (Z.to_nat i) s with Some c => c | None => NUL end.

Definition first_char (s : string) : ascii := char_at s 0.

(** [word + 1] *)
Definition tail (s : string) : string :=
  match s with EmptyString => EmptyString | String _ r => r end.

(** [strncpy(dst, s, n)] into a zeroed buffer of [n + 1] bytes. *)
Definition strncpy (s : string) (n : Z) : string :=
  String.substring 0 (Z.to_nat n) s.

(** [printf("%d")] *)
Definition fmt_d (z : Z) : string := NilZero.string_of_int (Z.to_int z).

(** Conversion of an [int] to [short] (16 bits, two's complement). *)
Definition to_short (z : Z) : Z := (z + 32768) mod 65536 - 32768.

(** [fgets(line, n, file)]: at most [n - 1] characters, up to and including
    the first newline.  [None] at end of file.  The file is what is left to
    read. *)
Fixpoint fgets_chars (k : nat) (file : string) : string * string :=
  match k, file with
  | O, _ => (EmptyString, file)
  | _, EmptyString => (EmptyString, EmptyString)
  | S k', String c r =>
      if Ascii.eqb c newline then (String c EmptyString, r)
      else let (l, rest) := fgets_chars k' r in (String c l, rest)
  end.

Definition fgets (n : Z) (file : string) : option (string * string) :=
  match file with
  | EmptyString => None
  | _ => let (l, rest) := fgets_chars (Z.to_nat (n - 1)) file in
         Some (c_str l, rest)
  end.

(** The successive results of [fgets] until it returns NULL.  Every call
    consumes a character, so the length of the file bounds the number of
    calls. *)
Fixpoint fgets_all (fuel : nat) (n : Z) (file : string) : list string :=
  match fuel with
  | O => []
  | S fuel' =>
      match fgets n file with
      | None => []
      | Some (l, rest) => l :: fgets_all fuel' n rest
      end
  end.

Definition read_lines (n : Z) (file : string) : list string :=
  fgets_all (String.length file) n file.

End CLib.
Import CLib.

(** ** general.h / general.c *)

Definition STANDARD_WORD_SIZE : Z := 5.
Definition MAX_LINE_LEN : Z := 82.
Definition MAX_LABEL_LEN : Z := 32.
Definition HASH_TABLE_SIZE : Z := 19.
Definition MAX_PROGRAM_LENGTH : Z := 3996.
Definition DESTINATION_OPERAND : Z := 1.
Definition SOURCE_OPERAND : Z := 0.
Definition MEMORY_ALLOCATION_ERROR : Z := -2.
Definition NO_ERRORS : Z := 1.
Definition SYNTAX_OR_LOGIC_ERROR : Z := 0.

(** djb2 on [unsigned int] (32 bits); [char] is signed. *)
Definition char_value (c : ascii) : Z :=
  if code c <? 128 then code c else code c - 256.

Fixpoint hash_loop (hash_value : Z) (name : string) : Z :=
  match name with
  | EmptyString => hash_value
  | String c r =>
      hash_loop ((Z.shiftl hash_value 5 + hash_value + char_value c) mod 2 ^ 32) r
  end.

Definition hash (name : string) : Z := hash_loop 5381 name mod HASH_TABLE_SIZE.

(** [get_word]: the word (NULL when the line is exhausted) and the advanced
    line pointer. *)
Definition is_sep (c : ascii) : bool := isspace c || Ascii.eqb c ",".

Fixpoint skip_seps (line : string) : string :=
  match line with
  | EmptyString => EmptyString
  | String c r => if is_sep c then skip_seps r else line
  end.

Fixpoint take_word (line : string) : string * string :=
  match line with
  | EmptyString => (EmptyString, EmptyString)
  | String c r =>
      if is_sep c then (EmptyString, line)
      else let (w, rest) := take_word r in (String c w, rest)
  end.

Definition get_word (line : string) : option string * string :=
  let line1 := skip_seps line in
  match line1 with
  | EmptyString => (None, line1)
  | _ => let (w, rest) := take_word line1 in (Some w, rest)
  end.

(** Index of [word] in a table of names, or -1. *)
Fixpoint index_of (word : string) (table : list string) (i : Z) : Z :=
  match table with
  | [] => -1
  | t :: ts => if String.eqb word t then i else index_of word ts (i + 1)
  end.

Definition directives : list string := [".data"; ".string"; ".entry"; ".extern"].

Definition operations : list string :=
  ["mov"; "cmp"; "add"; "sub"; "not"; "clr"; "lea"; "inc"; "dec"; "jmp"; "bne";
   "red"; "prn"; "jsr"; "rts"; "hlt"].

Definition is_directive (word : string) : Z := index_of word directives 0.
Definition is_operation (word : string) : Z := index_of word operations 0.

(** ** front_end.h: the line-level abstract syntax tree *)

Definition MAX_INST_OPERANDS : Z := 2.
Definition NON_VALID_NUM : Z := 3000.
Definition MIN_12_BIT_VALUE : Z := -2048.
Definition MAX_12_BIT_VALUE : Z := 2047.

Inductive operand_type : Set :=
  none | number | constant | reg | label | label_with_index.

Record INST_OPERAND : Set := mkOperand {
  op_type : operand_type;
  op_num : Z;
  op_label : string;
  op_constant_name : string }.

Inductive data_kind : Set := data_int | data_constant.

(** [struct DATA]; the two members of the union [data_value] are kept apart,
    [data_type] tells which one was written. *)
Record DATA : Set := mkData {
  data_type : data_kind;
  data_num : Z;
  data_constant_name : string }.

Inductive directive_type : Set := data | string_dir | entry | ext.

(** The members of [union operands] are kept apart; [str] holds character
    codes and is read up to its first zero. *)
Record DIRECTIVE : Set := mkDirective {
  dir_type : directive_type;
  operand_counter : Z;
  dir_data : list DATA;
  dir_str : list Z;
  label_operand : string }.

(** Opcodes are the indices of [operations]. *)
Definition mov : Z := 0.
Definition cmp : Z := 1.
Definition add : Z := 2.
Definition sub : Z := 3.
Definition not_op : Z := 4.
Definition clr : Z := 5.
Definition lea : Z := 6.
Definition inc : Z := 7.
Definition dec : Z := 8.
Definition jmp : Z := 9.
Definition bne : Z := 10.
Definition red : Z := 11.
Definition prn : Z := 12.
Definition jsr : Z := 13.
Definition rts : Z := 14.
Definition hlt : Z := 15.

Record INSTRUCTION : Set := mkInstruction {
  inst_type : Z;
  operand0 : INST_OPERAND;      (* operands[SOURCE_OPERAND] *)
  operand1 : INST_OPERAND }.    (* operands[DESTINATION_OPERAND] *)

Record CONSTANT_DEFINITION : Set := mkConstant {
  constant_name : string;
  constant_num : Z }.

Inductive line_type : Set := error | empty | note | dir | inst | constant_def.

Definition line_type_code (t : line_type) : Z :=
  match t with
  | error => 0 | empty => 1 | note => 2 | dir => 3 | inst => 4 | constant_def => 5
  end.

(** [struct LINE_AST]; the members of [union operand] are kept apart (the
    code reads only the member that belongs to the type of the line). *)
Record LINE_AST : Set := mkAst {
  error_detail : string;
  ast_label : string;
  ast_type : line_type;
  u_directive : DIRECTIVE;
  u_instruction : INSTRUCTION;
  u_constant : CONSTANT_DEFINITION }.

Definition zero_operand : INST_OPERAND := mkOperand none 0 "" "".

(** [LINE_AST ast = {0}] *)
Definition zero_ast : LINE_AST :=
  mkAst "" "" error
        (mkDirective data 0 [] [] "")
        (mkInstruction 0 zero_operand zero_operand)
        (mkConstant "" 0).

Definition operand_at (ins : INSTRUCTION) (i : Z) : INST_OPERAND :=
  if i =? SOURCE_OPERAND then operand0 ins else operand1 ins.

Definition set_operand_at (ins : INSTRUCTION) (i : Z) (o : INST_OPERAND) : INSTRUCTION :=
  if i =? SOURCE_OPERAND then mkInstruction (inst_type ins) o (operand1 ins)
  else mkInstruction (inst_type ins) (operand0 ins) o.

Definition with_error_detail (ast : LINE_AST) (msg : string) : LINE_AST :=
  mkAst msg (ast_label ast) (ast_type ast) (u_directive ast) (u_instruction ast)
        (u_constant ast).

Definition with_label (ast : LINE_AST) (l : string) : LINE_AST :=
  mkAst (error_detail ast) l (ast_type ast) (u_directive ast) (u_instruction ast)
        (u_constant ast).

Definition with_type (ast : LINE_AST) (t : line_type) : LINE_AST :=
  mkAst (error_detail ast) (ast_label ast) t (u_directive ast) (u_instruction ast)
        (u_constant ast).

Definition with_directive (ast : LINE_AST) (d : DIRECTIVE) : LINE_AST :=
  mkAst (error_detail ast) (ast_label ast) (ast_type ast) d (u_instruction ast)
        (u_constant ast).

Definition with_instruction (ast : LINE_AST) (i : INSTRUCTION) : LINE_AST :=
  mkAst (error_detail ast) (ast_label ast) (ast_type ast) (u_directive ast) i
        (u_constant ast).

Definition with_constant (ast : LINE_AST) (c : CONSTANT_DEFINITION) : LINE_AST :=
  mkAst (error_detail ast) (ast_label ast) (ast_type ast) (u_directive ast)
        (u_instruction ast) c.

Definition with_operand (ast : LINE_AST) (i : Z) (o : INST_OPERAND) : LINE_AST :=
  with_instruction ast (set_operand_at (u_instruction ast) i o).

Definition directive_of_index (i : Z) : directive_type :=
  if i =? 0 then data else if i =? 1 then string_dir
  else if i =? 2 then entry else ext.

(** ** front_end.c *)

Inductive label_position : Set := pre_line_label | operand_label.

Definition registers : list string :=
  ["r0"; "r1"; "r2"; "r3"; "r4"; "r5"; "r6"; "r7"; "PSW"; "PC"].

Definition is_register (word : string) : Z := index_of word registers 0.

(** [strtol(word, &end_ptr, 10)]: the value and what [end_ptr] points to.
    The callers pass at most five characters, so the conversion never
    overflows. *)
Fixpoint skip_spaces (s : string) : string :=
  match s with
  | EmptyString => EmptyString
  | String c r => if isspace c then skip_spaces r else s
  end.

Fixpoint read_digits (acc : Z) (s : string) : Z * string :=
  match s with
  | EmptyString => (acc, EmptyString)
  | String c r =>
      if isdigit c then read_digits (acc * 10 + (code c - 48)) r else (acc, s)
  end.

Definition strtol (word : string) : Z * string :=
  let s1 := skip_spaces word in
  let '(neg, s2) :=
    match s1 with
    | String c r =>
        if Ascii.eqb c "-" then (true, r)
        else if Ascii.eqb c "+" then (false, r) else (false, s1)
    | EmptyString => (false, s1)
    end in
  if isdigit (first_char s2) then
    let (v, rest) := read_digits 0 s2 in ((if neg then - v else v), rest)
  else (0, word).

Definition is_valid_num (word : string) : Z :=
  if strlen word >? 5 then NON_VALID_NUM
  else
    let (converted_num, end_ptr) := strtol word in
    if negb (Ascii.eqb (first_char end_ptr) NUL) then NON_VALID_NUM
    else if (converted_num >=? MIN_12_BIT_VALUE) && (converted_num <=? MAX_12_BIT_VALUE)
         then converted_num
         else NON_VALID_NUM.

(** The first [n] characters are letters or digits. *)
Fixpoint alnum_prefix (n : nat) (word : string) : bool :=
  match n, word with
  | O, _ => true
  | S _, EmptyString => false
  | S n', String c r => (isalpha c || isdigit c) && alnum_prefix n' r
  end.

(** [is_label] in a block of zeros: the copy of a label met at the start of
    a line ends where [strncpy] stops.  [is_label_in], below, takes what the
    block holds as an argument. *)
Definition is_label (word : string) (position : label_position) : Z :=
  let word_length_without_suffix :=
    match position with
    | pre_line_label => strlen word - 1
    | operand_label => strlen word
    end in
  if (word_length_without_suffix >? MAX_LABEL_LEN)
     || negb (isalpha (first_char word))
     || (negb (Ascii.eqb (char_at word word_length_without_suffix) ":")
         && match position with pre_line_label => true | operand_label => false end)
  then SYNTAX_OR_LOGIC_ERROR
  else if negb (alnum_prefix (Z.to_nat word_length_without_suffix) word)
  then SYNTAX_OR_LOGIC_ERROR
  else
    let word_without_suffix :=
      match position with
      | pre_line_label => strncpy word word_length_without_suffix
      | operand_label => word
      end in
    if negb (is_register word_without_suffix =? -1)
       || negb (is_directive word_without_suffix =? -1)
       || negb (is_operation word_without_suffix =? -1)
    then SYNTAX_OR_LOGIC_ERROR
    else NO_ERRORS.

(** [is_label] with the memory that it reads.  For a label at the start of a
    line the word without its colon is copied by [strncpy] into a block that
    [malloc] returns, and no NUL is stored after the copy: the comparisons
    with the reserved words read the characters copied and then [memory],
    the bytes that the block and what follows it hold, up to the first NUL.
    An operand is copied by [strcpy], with its NUL. *)
Definition is_label_in (memory : string) (word : string) (position : label_position)
  : Z :=
  let word_length_without_suffix :=
    match position with
    | pre_line_label => strlen word - 1
    | operand_label => strlen word
    end in
  if (word_length_without_suffix >? MAX_LABEL_LEN)
     || negb (isalpha (first_char word))
     || (negb (Ascii.eqb (char_at word word_length_without_suffix) ":")
         && match position with pre_line_label => true | operand_label => false end)
  then SYNTAX_OR_LOGIC_ERROR
  else if negb (alnum_prefix (Z.to_nat word_length_without_suffix) word)
  then SYNTAX_OR_LOGIC_ERROR
  else
    let word_without_suffix :=
      match position with
      | pre_line_label =>
          c_str (String.substring 0 (Z.to_nat word_length_without_suffix) word ++ memory)
      | operand_label => word
      end in
    if negb (is_register word_without_suffix =? -1)
       || negb (is_directive word_without_suffix =? -1)
       || negb (is_operation word_without_suffix =? -1)
    then SYNTAX_OR_LOGIC_ERROR
    else NO_ERRORS.

(** The name, with the NUL that ends it, fits an array of [MAX_LABEL_LEN]
    characters. *)
Definition fits_label (name : string) : bool := strlen name <? MAX_LABEL_LEN.

(** [strchr] with the position: the text before the first [c] and the text
    after it. *)
Fixpoint split_at (c : ascii) (s : string) : option (string * string) :=
  match s with
  | EmptyString => None
  | String d r =>
      if Ascii.eqb d c then Some (EmptyString, r)
      else match split_at c r with
           | Some (before, after) => Some (String d before, after)
           | None => None
           end
  end.

Definition with_op_type (o : INST_OPERAND) (t : operand_type) : INST_OPERAND :=
  mkOperand t (op_num o) (op_label o) (op_constant_name o).
Definition with_op_num (o : INST_OPERAND) (n : Z) : INST_OPERAND :=
  mkOperand (op_type o) n (op_label o) (op_constant_name o).
Definition with_op_label (o : INST_OPERAND) (l : string) : INST_OPERAND :=
  mkOperand (op_type o) (op_num o) l (op_constant_name o).
Definition with_op_constant_name (o : INST_OPERAND) (c : string) : INST_OPERAND :=
  mkOperand (op_type o) (op_num o) (op_label o) c.

(** The label and the name of the constant are copied into the arrays
    [label] and [constant_name] of the operand, of [MAX_LABEL_LEN] characters
    each: they are read back as stored here when they fit ([fits_label]). *)
Definition is_label_with_index (word : string) (operand : INST_OPERAND)
  : Z * INST_OPERAND :=
  match split_at "[" word with
  | None => (SYNTAX_OR_LOGIC_ERROR, operand)
  | Some (EmptyString, _) => (SYNTAX_OR_LOGIC_ERROR, operand)
  | Some (label_part, index_char) =>
      if is_label label_part operand_label =? SYNTAX_OR_LOGIC_ERROR
      then (SYNTAX_OR_LOGIC_ERROR, operand)
      else
        let operand := with_op_label operand label_part in
        match split_at "]" index_char with
        | None => (SYNTAX_OR_LOGIC_ERROR, operand)
        | Some (index_part, after_bracket) =>
            if negb (Ascii.eqb (first_char after_bracket) NUL)
            then (SYNTAX_OR_LOGIC_ERROR, operand)
            else
              let index_result := is_valid_num index_part in
              if negb (index_result =? NON_VALID_NUM)
              then (NO_ERRORS, with_op_num operand index_result)
              else if is_label index_part operand_label =? NO_ERRORS
              then (NO_ERRORS, with_op_constant_name operand index_part)
              else (SYNTAX_OR_LOGIC_ERROR, operand)
        end
  end.

Definition with_dir_type (d : DIRECTIVE) (t : directive_type) : DIRECTIVE :=
  mkDirective t (operand_counter d) (dir_data d) (dir_str d) (label_operand d).
Definition with_label_operand (d : DIRECTIVE) (l : string) : DIRECTIVE :=
  mkDirective (dir_type d) (operand_counter d) (dir_data d) (dir_str d) l.
Definition with_dir_str (d : DIRECTIVE) (s : list Z) : DIRECTIVE :=
  mkDirective (dir_type d) (operand_counter d) (dir_data d) s (label_operand d).
(** [data[op_cnt - 1] = item; operand_counter = op_cnt].  The name of a
    constant goes to an array of [MAX_LABEL_LEN] characters of the item: it
    is read back as stored here when it fits ([fits_label]). *)
Definition push_data (d : DIRECTIVE) (item : DATA) (op_cnt : Z) : DIRECTIVE :=
  mkDirective (dir_type d) op_cnt (dir_data d ++ [item]) (dir_str d) (label_operand d).
Definition with_inst_type (i : INSTRUCTION) (t : Z) : INSTRUCTION :=
  mkInstruction t (operand0 i) (operand1 i).

(** The body of the loop of [check_line_type] for a word on which it returns:
    every case but a label met as the first word. *)
Definition line_type_of_word (word_cnt : Z) (word : string) (ast : LINE_AST)
  : line_type * LINE_AST :=
  if is_label word pre_line_label =? NO_ERRORS then
    (error, with_error_detail ast "a label is in an invalid place")
  else if negb (is_directive word =? -1) then
    (dir, with_directive ast
            (with_dir_type (u_directive ast) (directive_of_index (is_directive word))))
  else if negb (is_operation word =? -1) then
    (inst, with_instruction ast (with_inst_type (u_instruction ast) (is_operation word)))
  else if String.eqb ".define" word then
    if word_cnt =? 1 then (constant_def, ast)
    else (error, with_error_detail ast
                   "a label must not be defined in a constant definition line")
  else if word_cnt =? 1 then
    (error, with_error_detail ast
       "the first word must be an instruction or directive or .define or label name")
  else
    (error, with_error_detail ast
       "after defining a label there must be an instruction  or directive").

(** What follows the loop, [get_word] having returned NULL at the end of the
    line. *)
Definition line_type_at_end (word_cnt : Z) (ast : LINE_AST) : line_type * LINE_AST :=
  if word_cnt =? 0 then (empty, ast)
  else (error, with_error_detail ast "the line contains only label name").

(** [check_line_type].  The loop goes round again only after a label met as
    the first word, and the second word makes it return, so it is written out
    for its two possible rounds. *)
Definition check_line_type (line : string) (ast : LINE_AST)
  : line_type * string * LINE_AST :=
  if Ascii.eqb (first_char line) ";" then (note, line, ast)
  else
    match get_word line with
    | (None, line1) => let (t, a) := line_type_at_end 0 ast in (t, line1, a)
    | (Some word1, line1) =>
        if is_label word1 pre_line_label =? NO_ERRORS then
          let ast1 := with_label ast (strncpy word1 (strlen word1 - 1)) in
          match get_word line1 with
          | (None, line2) => let (t, a) := line_type_at_end 1 ast1 in (t, line2, a)
          | (Some word2, line2) =>
              let (t, a) := line_type_of_word 2 word2 ast1 in (t, line2, a)
          end
        else let (t, a) := line_type_of_word 1 word1 ast in (t, line1, a)
    end.

(** The copy loop of the [.string] operand: the codes of the first [n]
    characters, as long as they are printable. *)
Fixpoint copy_printable (n : nat) (word : string) : bool * list Z :=
  match n, word with
  | O, _ => (true, [])
  | S _, EmptyString => (true, [])
  | S n', String c r =>
      if isprint c then
        let (ok, l) := copy_printable n' r in (ok, code c :: l)
      else (false, [])
  end.

Definition EOF_char : ascii := "255"%char.   (* (char) EOF *)

(** The loop of [check_dir_operand] over the operands of [.data].  Each round
    consumes a character of the line, whose length therefore bounds the number
    of rounds. *)
Fixpoint data_operands_loop (fuel : nat) (line : string) (comma_cnt op_cnt : Z)
         (ast : LINE_AST) : Z * string * LINE_AST :=
  let at_exit :=
    if negb (comma_cnt =? 0)
    then (line_type_code error, line,
          with_error_detail ast "there is a comma after the last number")
    else (NO_ERRORS, line, ast) in
  match fuel with
  | O => at_exit
  | S fuel' =>
      match line with
      | EmptyString => at_exit
      | String c r =>
          if Ascii.eqb c EOF_char then at_exit
          else if isspace c then data_operands_loop fuel' r comma_cnt op_cnt ast
          else if Ascii.eqb c "," then
            if comma_cnt >? 0
            then (line_type_code error, line,
                  with_error_detail ast
                    "there are 2 commas between a number and another number")
            else data_operands_loop fuel' r (comma_cnt + 1) op_cnt ast
          else
            match get_word line with
            | (None, line') =>
                (line_type_code error, line',
                 with_error_detail ast "memory allocation failed")
            | (Some word, line') =>
                let curr_num := is_valid_num word in
                if negb (curr_num =? NON_VALID_NUM) then
                  data_operands_loop fuel' line' 0 (op_cnt + 1)
                    (with_directive ast
                       (push_data (u_directive ast) (mkData data_int curr_num "")
                                  (op_cnt + 1)))
                else if is_label word operand_label =? NO_ERRORS then
                  data_operands_loop fuel' line' 0 (op_cnt + 1)
                    (with_directive ast
                       (push_data (u_directive ast) (mkData data_constant 0 word)
                                  (op_cnt + 1)))
                else
                  (line_type_code error, line',
                   with_error_detail ast
                     "for the data directive, you can only enter integers that can be represented in 12 bits by the 2's complement method or or words that meet the syntax requirements of a label")
            end
      end
  end.

Definition check_dir_operand (line : string) (ast : LINE_AST) : Z * string * LINE_AST :=
  if Ascii.eqb (first_char line) NUL then
    (line_type_code error, line,
     with_error_detail ast "a directive word must be followed by an operand")
  else
    match dir_type (u_directive ast) with
    | entry | ext =>
        match get_word line with
        | (None, line') =>
            (line_type_code error, line', with_error_detail ast "memory allocation failed")
        | (Some word, line') =>
            if is_label word operand_label =? SYNTAX_OR_LOGIC_ERROR then
              (line_type_code error, line',
               with_error_detail ast
                 "an operand of entry and extern must be a proper name of a label")
            else
              (NO_ERRORS, line',
               with_directive ast (with_label_operand (u_directive ast) word))
        end
    | string_dir =>
        if negb (Ascii.eqb (first_char line) dquote) then
          (line_type_code error, line,
           with_error_detail ast
             ("after the string directive the operand must start with the character "
                ++ String dquote " "))
        else
          match get_word (tail line) with
          | (None, line') =>
              (line_type_code error, line',
               with_error_detail ast
                 (if Ascii.eqb (first_char line') NUL
                  then "a string directive must have at least one character after the quotation marks "
                  else "memory allocation failed"))
          | (Some word, line') =>
              let word_len := strlen word in
              if negb (Ascii.eqb (char_at word (word_len - 1)) dquote) then
                (line_type_code error, line',
                 with_error_detail ast
                   "in the operand of the directive string there is no closing hyphen")
              else
                let (ok, codes) := copy_printable (Z.to_nat (word_len - 1)) word in
                let ast' := with_directive ast (with_dir_str (u_directive ast) codes) in
                if ok then (NO_ERRORS, line', ast')
                else
                  (line_type_code error, line',
                   with_error_detail ast'
                     "the operand of the string directive must include only alphabetic letters between the 2 hyphenes")
          end
    | data => data_operands_loop (String.length line) line 0 0 ast
    end.

Definition inappropriate_operand : string :=
  "the operation type received an operand of an inappropriate type".

(** The loop of [check_inst_operand] that runs over the separators after the
    source operand; [None] when a second comma is met. *)
Fixpoint skip_to_operand (comma_flag : Z) (line : string) : option string :=
  match line with
  | EmptyString => Some EmptyString
  | String c r =>
      if isspace c || Ascii.eqb c "," then
        if Ascii.eqb c "," then
          if comma_flag >? 0 then None else skip_to_operand (comma_flag + 1) r
        else skip_to_operand comma_flag r
      else Some line
  end.

(** The if-chain of [check_inst_operand] that classifies the operand [word]
    and stores it in [operands[operand_cnt]]: [inl] for a return with an
    error, [inr] when the round goes on. *)
Definition classify_operand (operand_cnt : Z) (word : string) (ast : LINE_AST)
  : LINE_AST + LINE_AST :=
  let ty := inst_type (u_instruction ast) in
  let slot := operand_at (u_instruction ast) operand_cnt in
  if Ascii.eqb (first_char word) "#" then
    if ((operand_cnt =? DESTINATION_OPERAND) && negb (ty =? cmp) && negb (ty =? prn))
       || ((operand_cnt =? SOURCE_OPERAND) && (ty =? lea))
    then inl (with_error_detail ast inappropriate_operand)
    else if strlen word =? 1
    then inl (with_error_detail ast "# must be followed by a number or constant")
    else if negb (is_valid_num (tail word) =? NON_VALID_NUM)
    then inr (with_operand ast operand_cnt
                (with_op_num (with_op_type slot number) (is_valid_num (tail word))))
    else if negb (is_label (tail word) operand_label =? SYNTAX_OR_LOGIC_ERROR)
    then inr (with_operand ast operand_cnt
                (with_op_constant_name (with_op_type slot constant) (tail word)))
    else inl (with_error_detail ast "# must be followed by a constant or a number")
  else if negb (is_label word operand_label =? SYNTAX_OR_LOGIC_ERROR)
  then inr (with_operand ast operand_cnt (with_op_label (with_op_type slot label) word))
  else
    let (res_label_w_index, slot') := is_label_with_index word slot in
    let ast := with_operand ast operand_cnt slot' in
    if negb (res_label_w_index =? SYNTAX_OR_LOGIC_ERROR) then
      if (operand_cnt =? DESTINATION_OPERAND)
         && ((ty =? jmp) || (ty =? bne) || (ty =? jsr))
      then inl (with_error_detail ast inappropriate_operand)
      else inr (with_operand ast operand_cnt (with_op_type slot' label_with_index))
    else if negb (is_register word =? -1) then
      if (operand_cnt =? SOURCE_OPERAND) && (ty =? lea)
      then inl (with_error_detail ast inappropriate_operand)
      else inr (with_operand ast operand_cnt
                  (with_op_num (with_op_type slot' reg) (is_register word)))
    else inl (with_error_detail ast inappropriate_operand).

(** One round of the loop of [check_inst_operand]. *)
Definition inst_operand_round (operand_cnt : Z) (line : string) (ast : LINE_AST)
  : (Z * string * LINE_AST) + (string * LINE_AST) :=
  match get_word line with
  | (None, line') =>
      inl (line_type_code error, line',
           with_error_detail ast
             (if Ascii.eqb (first_char line') NUL then "missing operand"
              else "memory allocation failed"))
  | (Some word, line') =>
      match classify_operand operand_cnt word ast with
      | inl ast' => inl (line_type_code error, line', ast')
      | inr ast' =>
          if operand_cnt =? SOURCE_OPERAND then
            match skip_to_operand 0 line' with
            | None =>
                inl (line_type_code error, line',
                     with_error_detail ast' "multiple commas between 2 operands")
            | Some line'' =>
                if Ascii.eqb (first_char line'') NUL
                then inl (line_type_code error, line'',
                          with_error_detail ast' "missing operand")
                else inr (line'', ast')
            end
          else inr (line', ast')
      end
  end.

Fixpoint inst_operand_loop (rounds : nat) (operand_cnt : Z) (line : string)
         (ast : LINE_AST) : Z * string * LINE_AST :=
  match rounds with
  | O => (NO_ERRORS, line, ast)
  | S rounds' =>
      match inst_operand_round operand_cnt line ast with
      | inl r => r
      | inr (line', ast') => inst_operand_loop rounds' (operand_cnt + 1) line' ast'
      end
  end.

(** The operation takes exactly one operand. *)
Definition one_operand_op (ty : Z) : bool :=
  (ty >? sub) && (ty <? rts) && negb (ty =? lea).

Definition check_inst_operand (line : string) (ast : LINE_AST) : Z * string * LINE_AST :=
  let ty := inst_type (u_instruction ast) in
  let operand_cnt :=
    if ty >=? rts then MAX_INST_OPERANDS
    else if one_operand_op ty then DESTINATION_OPERAND else SOURCE_OPERAND in
  inst_operand_loop (Z.to_nat (MAX_INST_OPERANDS - operand_cnt)) operand_cnt line ast.

Definition check_constant_def_operand (line : string) (ast : LINE_AST)
  : Z * string * LINE_AST :=
  if Ascii.eqb (first_char line) NUL then
    (line_type_code error, line,
     with_error_detail ast "a constant definition is missing after the word define")
  else
    match get_word line with
    | (None, line1) =>
        (line_type_code error, line1, with_error_detail ast "memory allocation failed")
    | (Some word, line1) =>
        if is_label word operand_label =? SYNTAX_OR_LOGIC_ERROR then
          (line_type_code error, line1,
           with_error_detail ast
             "the first word after .define does not follow the syntax rules for a label")
        else
          let ast := with_constant ast (mkConstant word (constant_num (u_constant ast))) in
          let line2 := skip_spaces line1 in
          if negb (Ascii.eqb (first_char line2) "=") then
            (line_type_code error, line2,
             with_error_detail ast
               "missing the equality sign in a constant definition statment")
          else
            let line3 := skip_spaces (tail line2) in
            if Ascii.eqb (first_char line3) NUL then
              (line_type_code error, line3,
               with_error_detail ast
                 "missing a  number in a constant definition statement")
            else
              match get_word line3 with
              | (None, line4) =>
                  (line_type_code error, line4,
                   with_error_detail ast "memory allocation failed")
              | (Some word, line4) =>
                  let converted_num := is_valid_num word in
                  if converted_num =? NON_VALID_NUM then
                    (line_type_code error, line4,
                     with_error_detail ast
                       "a no valid number is given in a constant definition statement")
                  else
                    (NO_ERRORS, line4,
                     with_constant ast
                       (mkConstant (constant_name (u_constant ast)) converted_num))
              end
    end.

Definition check_operand (line : string) (ast : LINE_AST) : Z * string * LINE_AST :=
  let line := skip_spaces line in
  if Ascii.eqb (first_char line) "," then
    (line_type_code error, line,
     with_error_detail ast "there is a comma, after an instruction/directive/define")
  else
    match ast_type ast with
    | error | empty | note => (line_type_code (ast_type ast), line, ast)
    | _ =>
        let '(syntax_flag, line, ast) :=
          match ast_type ast with
          | dir => check_dir_operand line ast
          | inst => check_inst_operand line ast
          | _ => check_constant_def_operand line ast
          end in
        if syntax_flag =? line_type_code error then (line_type_code error, line, ast)
        else
          let line := skip_spaces line in
          if negb (Ascii.eqb (first_char line) NUL) then
            (line_type_code error, line,
             with_error_detail ast "unexpected characters after operands")
          else (syntax_flag, line, ast)
    end.

Definition memory_allocation_failed : string := "memory allocation failed".

Definition create_ast_from_text (line : string) : LINE_AST :=
  let '(t, line, ast) := check_line_type line zero_ast in
  let ast := with_type ast t in
  if String.eqb (error_detail ast) memory_allocation_failed then ast
  else
    let '(syntax_flag, _, ast) := check_operand line ast in
    if syntax_flag =? line_type_code error then with_type ast error else ast.

(** ** Open-chained hash tables

    Both tables of the program ([macro_table], [symbol_table]) are arrays of
    [HASH_TABLE_SIZE] chains.  A chain is the list of the addresses of its
    nodes, head first; the nodes themselves live in a heap. *)

Definition chains : Set := list (list nat).

Definition empty_chains : chains := repeat [] (Z.to_nat HASH_TABLE_SIZE).

Definition chain_at (t : chains) (index : Z) : list nat := nth (Z.to_nat index) t [].

Fixpoint set_nth {A : Type} (n : nat) (x : A) (l : list A) : list A :=
  match n, l with
  | _, [] => []
  | O, _ :: r => x :: r
  | S n', y :: r => y :: set_nth n' x r
  end.

(** [new->next = table[index]; table[index] = new] *)
Definition chain_push (t : chains) (index : Z) (p : nat) : chains :=
  set_nth (Z.to_nat index) (p :: chain_at t index) t.

(** [printf]: one more string at the end of the log. *)
Definition printf (log : list string) (msg : string) : list string :=
  (log ++ [msg])%list.

(** ** pre_assembler.c *)

Record MACRO : Set := mkMacro {
  macro_name : string;
  content : list string }.

Record MACRO_TABLE : Set := mkMacroTable {
  macro_heap : list MACRO;
  macro_chains : chains }.

Definition empty_macro_table : MACRO_TABLE := mkMacroTable [] empty_chains.

Definition macro_at (t : MACRO_TABLE) (p : nat) : MACRO :=
  nth p (macro_heap t) (mkMacro "" []).

(** The enumeration of [pre_assembler.c]; its [error] is [pa_error] here. *)
Inductive pa_line_type : Set :=
  pa_error | macro_definition | end_macro_definition | macro_call
| note_sentence | any_other_line.

Fixpoint macro_chain_lookup (name : string) (t : MACRO_TABLE) (chain : list nat)
  : option nat :=
  match chain with
  | [] => None
  | p :: r =>
      if String.eqb name (macro_name (macro_at t p)) then Some p
      else macro_chain_lookup name t r
  end.

Definition macro_lookup (name : string) (t : MACRO_TABLE) : option nat :=
  macro_chain_lookup name t (chain_at (macro_chains t) (hash name)).

Definition insert_macro (name : string) (t : MACRO_TABLE) : nat * MACRO_TABLE :=
  let new_macro := List.length (macro_heap t) in
  (new_macro,
   mkMacroTable (macro_heap t ++ [mkMacro name []])
                (chain_push (macro_chains t) (hash name) new_macro)).

(** Appends [line] at the end of the content of the macro at [p]. *)
Definition text_insert (p : nat) (line : string) (t : MACRO_TABLE) : MACRO_TABLE :=
  let m := macro_at t p in
  mkMacroTable (set_nth p (mkMacro (macro_name m) (content m ++ [line])) (macro_heap t))
               (macro_chains t).

(** The words that successive calls of [get_word] return until NULL.  Each
    call consumes a character. *)
Fixpoint words_from (fuel : nat) (line : string) : list string :=
  match fuel with
  | O => []
  | S fuel' =>
      match get_word line with
      | (None, _) => []
      | (Some word, line') => word :: words_from fuel' line'
      end
  end.

Definition all_words (line : string) : list string :=
  words_from (String.length line) line.

(** What [line_identifier] hands back: the line type, [*mcr_ptr], the table
    and what it printed. *)
Record IDENTIFIED : Set := mkIdentified {
  id_type : pa_line_type;
  id_mcr_ptr : option nat;
  id_table : MACRO_TABLE;
  id_printed : list string }.

Definition pa_diag (file_name : string) (line_num : Z) (detail : string) : string :=
  "Error in file : " ++ file_name ++ " , line number: " ++ fmt_d line_num ++ detail.

Fixpoint line_identifier_loop (words : list string) (word_cnt : Z)
         (mcr_definition end_mcr : bool) (macro_name : string)
         (mcr_ptr : option nat) (t : MACRO_TABLE) (file_name : string) (line_num : Z)
  : IDENTIFIED :=
  let fail detail := mkIdentified pa_error mcr_ptr t [pa_diag file_name line_num detail] in
  match words with
  | word :: rest =>
      let word_cnt := word_cnt + 1 in
      if (word_cnt =? 1) && Ascii.eqb (first_char word) ";" then
        mkIdentified note_sentence mcr_ptr t []
      else if String.eqb word "mcr" then
        if word_cnt >? 1 then
          fail (" ,  macro definition must be at the beginning of the line " ++ nl)
        else line_identifier_loop rest word_cnt true end_mcr macro_name mcr_ptr t
                                  file_name line_num
      else if mcr_definition then
        let macro_name := if word_cnt =? 2 then word else macro_name in
        if (word_cnt =? 2)
           && match macro_lookup macro_name t with Some _ => true | None => false end
        then fail (" , attempt to define a macro with the name of a macro that already exists " ++ nl)
        else if (word_cnt =? 2)
                && ((is_directive macro_name >? -1) || (is_operation macro_name >? -1))
        then fail (" , the macro was given the name of a directive or instruction " ++ nl)
        else if word_cnt >? 2
        then fail (" , there are words in the line of the macro definition except the macro name and mcr " ++ nl)
        else line_identifier_loop rest word_cnt mcr_definition end_mcr macro_name
                                  mcr_ptr t file_name line_num
      else if String.eqb word "endmcr" then
        line_identifier_loop rest word_cnt mcr_definition true macro_name mcr_ptr t
                             file_name line_num
      else
        match macro_lookup word t with
        | Some temp_mcr => mkIdentified macro_call (Some temp_mcr) t []
        | None =>
            if end_mcr && (word_cnt >? 1) then
              fail (" , text exists on the same line after endmcr " ++ nl)
            else line_identifier_loop rest word_cnt mcr_definition end_mcr macro_name
                                      mcr_ptr t file_name line_num
        end
  | [] =>
      if mcr_definition then
        if word_cnt =? 1 then
          fail (" , defining a macro without giving a name" ++ nl)
        else
          match macro_lookup macro_name t with
          | None =>
              let (new_macro, t') := insert_macro macro_name t in
              mkIdentified macro_definition (Some new_macro) t' []
          | Some _ => mkIdentified pa_error mcr_ptr t []
          end
      else if end_mcr then mkIdentified end_macro_definition None t []
      else mkIdentified any_other_line mcr_ptr t []
  end.

Definition line_identifier (line : string) (mcr_ptr : option nat) (t : MACRO_TABLE)
           (file_name : string) (line_num : Z) : IDENTIFIED :=
  line_identifier_loop (all_words line) 0 false false "" mcr_ptr t file_name line_num.

(** The state of the loop of [pre_assembly]: the text written to the [.am]
    file so far, [mcr_ptr], [mcr_def_flag], [line_num], the macro table and the
    diagnostics printed. *)
Record PRE_STATE : Set := mkPre {
  am_text : string;
  pre_mcr_ptr : option nat;
  mcr_def_flag : Z;
  pre_line_num : Z;
  pre_table : MACRO_TABLE;
  pre_printed : list string }.

(** What [pre_assembly] leaves behind: its return value (NULL, or the name of
    the [.am] file), the [.am] file if it was not removed, the macro table and
    the diagnostics. *)
Record PRE_RESULT : Set := mkPreResult {
  am_file_name : option string;
  am_file : option string;
  result_table : MACRO_TABLE;
  result_printed : list string }.

(** One line of the loop of [pre_assembly]: [inl] when the function returns
    NULL from inside the loop. *)
Definition pre_assembly_line (as_file_name : string) (line : string) (st : PRE_STATE)
  : PRE_RESULT + PRE_STATE :=
  if negb (strchr line newline) && strchr line EOF_char then
    inl (mkPreResult None None (pre_table st)
           (printf (pre_printed st)
              ("Error in file : " ++ as_file_name ++ " , line number: "
                 ++ fmt_d (pre_line_num st)
                 ++ ",  The line contains over 80 characters" ++ nl)))
  else
    let r := line_identifier line (pre_mcr_ptr st) (pre_table st) as_file_name
                             (pre_line_num st) in
    let printed := (pre_printed st ++ id_printed r)%list in
    let next am mcr flag t :=
      inr (mkPre am mcr flag (pre_line_num st + 1) t printed) in
    match id_type r with
    | pa_error => inl (mkPreResult None None (id_table r) printed)
    | macro_definition => next (am_text st) (id_mcr_ptr r) 1 (id_table r)
    | end_macro_definition => next (am_text st) (id_mcr_ptr r) 0 (id_table r)
    | macro_call =>
        match id_mcr_ptr r with
        | Some called =>
            next (am_text st ++ String.concat "" (content (macro_at (id_table r) called)))
                 None (mcr_def_flag st) (id_table r)
        | None => next (am_text st) None (mcr_def_flag st) (id_table r)
        end
    | note_sentence =>
        next (am_text st ++ line) (id_mcr_ptr r) (mcr_def_flag st) (id_table r)
    | any_other_line =>
        match id_mcr_ptr r with
        | Some recording =>
            next (am_text st) (id_mcr_ptr r) (mcr_def_flag st)
                 (text_insert recording line (id_table r))
        | None =>
            next (am_text st ++ line) (id_mcr_ptr r) (mcr_def_flag st) (id_table r)
        end
    end.

Fixpoint pre_assembly_loop (as_file_name : string) (lines : list string)
         (st : PRE_STATE) : PRE_RESULT + PRE_STATE :=
  match lines with
  | [] => inr st
  | line :: rest =>
      match pre_assembly_line as_file_name line st with
      | inl r => inl r
      | inr st' => pre_assembly_loop as_file_name rest st'
      end
  end.

(** [pre_assembly file_name macro_table], [as_file] being the contents of
    [file_name.as]. *)
Definition pre_assembly (file_name : string) (as_file : string) (t : MACRO_TABLE)
  : PRE_RESULT :=
  let as_file_name := file_name ++ ".as" in
  let am_name := file_name ++ ".am" in
  match pre_assembly_loop as_file_name (read_lines MAX_LINE_LEN as_file)
                          (mkPre "" None 0 1 t []) with
  | inl r => r
  | inr st =>
      if mcr_def_flag st =? 1 then
        mkPreResult None None (pre_table st)
          (printf (pre_printed st)
             ("Error in file : " ++ as_file_name
                ++ " , a macro is defined without closing, i.e. without end_mcr" ++ nl))
      else mkPreResult (Some am_name) (Some (am_text st)) (pre_table st) (pre_printed st)
  end.

(** ** general.h: the translation unit *)

Inductive symbol_type : Set :=
  extern_sym | entry_sym_without_definition | data_entry_sym | inst_entry_sym
| data_sym | inst_sym | const_sym.

Record SYMBOL : Set := mkSymbol {
  name : string;
  type : symbol_type;
  address : Z;
  value : Z }.

(** [struct EXT_SYMBOL] with its chain of [EXT_ADDRESS] nodes. *)
Record EXT_SYMBOL : Set := mkExt {
  ext_name : string;
  ext_address : list Z }.

(** [struct TRANSLATION_UNIT].  [symbol_heap] holds the [SYMBOL] nodes that
    the chains of [symbol_table] and the nodes of [entries_list] point to. *)
Record TRANSLATION_UNIT : Type := mkUnit {
  instruction_array : Z -> Z;
  data_array : Z -> Z;
  ic : Z;
  dc : Z;
  symbol_heap : list SYMBOL;
  symbol_table : chains;
  ext_list : list EXT_SYMBOL;
  external_counter : Z;
  entries_list : list nat;
  entries_counter : Z }.

(** [memset(&curr_program, 0, sizeof(curr_program))] *)
Definition zero_unit : TRANSLATION_UNIT :=
  mkUnit (fun _ => 0) (fun _ => 0) 0 0 [] empty_chains [] 0 [] 0.

Definition symbol_at (tu : TRANSLATION_UNIT) (p : nat) : SYMBOL :=
  nth p (symbol_heap tu) (mkSymbol "" extern_sym 0 0).

Definition with_symbols (tu : TRANSLATION_UNIT) (heap : list SYMBOL) (table : chains)
  : TRANSLATION_UNIT :=
  mkUnit (instruction_array tu) (data_array tu) (ic tu) (dc tu) heap table
         (ext_list tu) (external_counter tu) (entries_list tu) (entries_counter tu).

(** A store through a pointer to a symbol. *)
Definition store_symbol (tu : TRANSLATION_UNIT) (p : nat) (s : SYMBOL)
  : TRANSLATION_UNIT :=
  with_symbols tu (set_nth p s (symbol_heap tu)) (symbol_table tu).

Definition with_entries (tu : TRANSLATION_UNIT) (l : list nat) (counter : Z)
  : TRANSLATION_UNIT :=
  mkUnit (instruction_array tu) (data_array tu) (ic tu) (dc tu) (symbol_heap tu)
         (symbol_table tu) (ext_list tu) (external_counter tu) l counter.

Fixpoint symbol_chain_lookup (name0 : string) (tu : TRANSLATION_UNIT)
         (chain : list nat) : option nat :=
  match chain with
  | [] => None
  | p :: r =>
      if String.eqb name0 (name (symbol_at tu p)) then Some p
      else symbol_chain_lookup name0 tu r
  end.

Definition symbol_lookup (name0 : string) (tu : TRANSLATION_UNIT) : option nat :=
  symbol_chain_lookup name0 tu (chain_at (symbol_table tu) (hash name0)).

(** ** first_pass.c *)

(** The new node is pushed on the chain of its slot.  The name is copied into
    the array [name] of the node, of [MAX_LABEL_LEN] characters: it is read
    back as stored here when it fits ([fits_label]). *)
Definition insert_symbol (tu : TRANSLATION_UNIT) (symbol_name : string)
           (symbol_type0 : symbol_type) (address0 value0 : Z) : TRANSLATION_UNIT :=
  let new_symbol := List.length (symbol_heap tu) in
  with_symbols tu
    (symbol_heap tu ++ [mkSymbol symbol_name symbol_type0 address0 value0])
    (chain_push (symbol_table tu) (hash symbol_name) new_symbol).

(** The characters of [str] before its terminating zero. *)
Fixpoint str_chars (str : list Z) : list Z :=
  match str with
  | [] => []
  | c :: r => if c =? 0 then [] else c :: str_chars r
  end.

Definition is_lwi (o : INST_OPERAND) : bool :=
  match op_type o with label_with_index => true | _ => false end.

Definition is_reg (o : INST_OPERAND) : bool :=
  match op_type o with reg => true | _ => false end.

Definition memory_cell_calculator (line : LINE_AST) : Z :=
  let result := 1 in
  match ast_type line with
  | dir =>
      match dir_type (u_directive line) with
      | string_dir => result + Z.of_nat (List.length (str_chars (dir_str (u_directive line))))
      | _ => operand_counter (u_directive line)
      end
  | _ =>
      let ins := u_instruction line in
      if one_operand_op (inst_type ins) then
        if is_lwi (operand_at ins 0) then result + 2 else result + 1
      else if (inst_type ins <=? sub) || (inst_type ins =? lea) then
        if is_reg (operand_at ins 0) && is_reg (operand_at ins 1) then result + 1
        else
          result
          + (if is_lwi (operand_at ins 0) then 2 else 1)
          + (if is_lwi (operand_at ins 1) then 2 else 1)
      else result
  end.

(** The state of the loop of [first_pass] over the lines: the locals [ic],
    [dc], [err_flag], [line_num], the translation unit and the diagnostics. *)
Record FIRST_STATE : Type := mkFirst {
  fp_ic : Z;
  fp_dc : Z;
  fp_err_flag : Z;
  fp_line_num : Z;
  fp_unit : TRANSLATION_UNIT;
  fp_printed : list string }.

(** What [first_pass] returns, with its locals at that moment. *)
Record FIRST_RESULT : Type := mkFirstResult {
  fp_return : Z;
  fp_final : FIRST_STATE }.

Definition fp_diag_line (am_file_name : string) (line_num : Z) (detail : string)
  : string :=
  "Error in: " ++ am_file_name ++ " , in line number: " ++ fmt_d line_num ++ " , "
    ++ detail ++ nl.

Definition fp_diag_macro (am_file_name : string) (line_num : Z) : string :=
  "Error in: " ++ am_file_name ++ ", in line number: " ++ fmt_d line_num
    ++ " , redefining a name for a macro and symbol" ++ nl.

(** [printf(...); line_num++; err_flag = SYNTAX_OR_LOGIC_ERROR; continue;] *)
Definition fp_error_continue (st : FIRST_STATE) (msg : string) : FIRST_STATE :=
  mkFirst (fp_ic st) (fp_dc st) SYNTAX_OR_LOGIC_ERROR (fp_line_num st + 1)
          (fp_unit st) (printf (fp_printed st) msg).

Definition fp_with_unit (st : FIRST_STATE) (tu : TRANSLATION_UNIT) : FIRST_STATE :=
  mkFirst (fp_ic st) (fp_dc st) (fp_err_flag st) (fp_line_num st) tu (fp_printed st).

Definition is_some {A : Type} (o : option A) : bool :=
  match o with Some _ => true | None => false end.

(** The part of the loop body that deals with the label of an instruction or
    directive line: [inl] when it ends with [continue]. *)
Definition fp_define_label (am_file_name : string) (macro_table : MACRO_TABLE)
           (line_ast : LINE_AST) (st : FIRST_STATE) : FIRST_STATE + FIRST_STATE :=
  if Ascii.eqb (first_char (ast_label line_ast)) NUL then inr st
  else if is_some (macro_lookup (ast_label line_ast) macro_table) then
    inl (fp_error_continue st (fp_diag_macro am_file_name (fp_line_num st)))
  else
    let tu := fp_unit st in
    match symbol_lookup (ast_label line_ast) tu with
    | Some sym_find =>
        let s := symbol_at tu sym_find in
        match type s with
        | entry_sym_without_definition =>
            match ast_type line_ast with
            | dir =>
                inr (fp_with_unit st
                       (store_symbol tu sym_find
                          (mkSymbol (name s) data_entry_sym (fp_dc st) (value s))))
            | _ =>
                inr (fp_with_unit st
                       (store_symbol tu sym_find
                          (mkSymbol (name s) inst_entry_sym (fp_ic st) (value s))))
            end
        | _ =>
            inl (fp_error_continue st
                   (fp_diag_line am_file_name (fp_line_num st) "redefenition of symbol"))
        end
    | None =>
        match ast_type line_ast with
        | inst =>
            inr (fp_with_unit st (insert_symbol tu (ast_label line_ast) inst_sym (fp_ic st) 0))
        | _ =>
            inr (fp_with_unit st (insert_symbol tu (ast_label line_ast) data_sym (fp_dc st) 0))
        end
    end.

(** The part of the loop body that advances the counters and handles
    [.entry] and [.extern]: [inl] when it ends with [continue]. *)
Definition fp_advance (am_file_name : string) (macro_table : MACRO_TABLE)
           (line_ast : LINE_AST) (st : FIRST_STATE) : FIRST_STATE + FIRST_STATE :=
  let redefinition :=
    inl (fp_error_continue st
           (fp_diag_line am_file_name (fp_line_num st) "redefenition of symbol")) in
  match ast_type line_ast with
  | inst =>
      inr (mkFirst (fp_ic st + memory_cell_calculator line_ast) (fp_dc st)
                   (fp_err_flag st) (fp_line_num st) (fp_unit st) (fp_printed st))
  | _ =>
      let d := u_directive line_ast in
      match dir_type d with
      | data | string_dir =>
          inr (mkFirst (fp_ic st) (fp_dc st + memory_cell_calculator line_ast)
                       (fp_err_flag st) (fp_line_num st) (fp_unit st) (fp_printed st))
      | entry | ext =>
          if is_some (macro_lookup (label_operand d) macro_table) then
            inl (fp_error_continue st (fp_diag_macro am_file_name (fp_line_num st)))
          else
            let tu := fp_unit st in
            match symbol_lookup (label_operand d) tu with
            | Some sym_find =>
                let s := symbol_at tu sym_find in
                match dir_type d with
                | entry =>
                    match type s with
                    | data_sym =>
                        inr (fp_with_unit st
                               (store_symbol tu sym_find
                                  (mkSymbol (name s) data_entry_sym (address s) (value s))))
                    | inst_sym =>
                        inr (fp_with_unit st
                               (store_symbol tu sym_find
                                  (mkSymbol (name s) inst_entry_sym (address s) (value s))))
                    | _ => redefinition
                    end
                | _ => redefinition
                end
            | None =>
                match dir_type d with
                | entry =>
                    inr (fp_with_unit st
                           (insert_symbol tu (label_operand d)
                                          entry_sym_without_definition 0 0))
                | _ =>
                    inr (fp_with_unit st (insert_symbol tu (label_operand d) extern_sym 0 0))
                end
            end
      end
  end.

Definition fp_next_line (st : FIRST_STATE) : FIRST_STATE :=
  mkFirst (fp_ic st) (fp_dc st) (fp_err_flag st) (fp_line_num st + 1) (fp_unit st)
          (fp_printed st).

(** The body of the loop of [first_pass] for one line: [inl] when the
    function returns from inside the loop. *)
Definition first_pass_line (am_file_name : string) (macro_table : MACRO_TABLE)
           (line : string) (st : FIRST_STATE) : FIRST_RESULT + FIRST_STATE :=
  let line_ast := create_ast_from_text line in
  match ast_type line_ast with
  | error =>
      let printed :=
        printf (fp_printed st)
               (fp_diag_line am_file_name (fp_line_num st) (error_detail line_ast)) in
      if String.eqb (error_detail line_ast) memory_allocation_failed then
        inl (mkFirstResult MEMORY_ALLOCATION_ERROR
               (mkFirst (fp_ic st) (fp_dc st) (fp_err_flag st) (fp_line_num st)
                        (fp_unit st) printed))
      else
        inr (mkFirst (fp_ic st) (fp_dc st) SYNTAX_OR_LOGIC_ERROR (fp_line_num st + 1)
                     (fp_unit st) printed)
  | dir | inst =>
      match fp_define_label am_file_name macro_table line_ast st with
      | inl st' => inr st'
      | inr st1 =>
          match fp_advance am_file_name macro_table line_ast st1 with
          | inl st' => inr st'
          | inr st2 => inr (fp_next_line st2)
          end
      end
  | constant_def =>
      if is_some (macro_lookup (constant_name (u_constant line_ast)) macro_table) then
        inr (fp_error_continue st
               ("Error in: " ++ am_file_name ++ " , in line number: "
                  ++ fmt_d (fp_line_num st)
                  ++ " , redefining a name for a macro and constant" ++ nl))
      else
        match symbol_lookup (ast_label line_ast) (fp_unit st) with
        | Some _ =>
            inr (fp_error_continue st
                   (fp_diag_line am_file_name (fp_line_num st) "redefenition of symbol"))
        | None =>
            inr (fp_next_line
                   (fp_with_unit st
                      (insert_symbol (fp_unit st) (constant_name (u_constant line_ast))
                                     const_sym (fp_line_num st)
                                     (constant_num (u_constant line_ast)))))
        end
  | _ => inr (fp_next_line st)
  end.

Fixpoint first_pass_lines (am_file_name : string) (macro_table : MACRO_TABLE)
         (lines : list string) (st : FIRST_STATE) : FIRST_RESULT + FIRST_STATE :=
  match lines with
  | [] => inr st
  | line :: rest =>
      match first_pass_line am_file_name macro_table line st with
      | inl r => inl r
      | inr st' => first_pass_lines am_file_name macro_table rest st'
      end
  end.

(** The body of the [while (sym_ptr != NULL)] loop that closes [first_pass],
    for a symbol that is not [entry_sym_without_definition]: the address of a
    data symbol is moved by [ic] and an entry is put at the head of the list of
    entries. *)
Definition fp_close_symbol (sym_ptr : nat) (st : FIRST_STATE) : FIRST_STATE :=
  let tu := fp_unit st in
  let s := symbol_at tu sym_ptr in
  let tu1 :=
    match type s with
    | data_entry_sym | data_sym =>
        store_symbol tu sym_ptr
          (mkSymbol (name s) (type s) (address s + fp_ic st) (value s))
    | _ => tu
    end in
  let tu2 :=
    match type s with
    | data_entry_sym | inst_entry_sym =>
        with_entries tu1 (sym_ptr :: entries_list tu1) (entries_counter tu1 + 1)
    | _ => tu1
    end in
  fp_with_unit st tu2.

(** The [while (sym_ptr != NULL)] loop that closes [first_pass], run on one
    chain.  [fuel] bounds the number of times the body is run; [None] when
    that is not enough for the loop to end.  On a symbol that is still
    [entry_sym_without_definition] the body ends with [continue] and
    [sym_ptr] is left where it was. *)
Fixpoint fp_chain_loop (fuel : nat) (am_file_name : string) (chain : list nat)
         (st : FIRST_STATE) : option FIRST_STATE :=
  match chain with
  | [] => Some st
  | sym_ptr :: next =>
      match fuel with
      | O => None
      | S fuel' =>
          let s := symbol_at (fp_unit st) sym_ptr in
          match type s with
          | entry_sym_without_definition =>
              fp_chain_loop fuel' am_file_name chain
                (mkFirst (fp_ic st) (fp_dc st) SYNTAX_OR_LOGIC_ERROR (fp_line_num st)
                   (fp_unit st)
                   (printf (fp_printed st)
                      ("Error in: " ++ am_file_name ++ " , the symbol: " ++ name s
                         ++ " was defined as an entry but did not receive a value" ++ nl)))
          | _ => fp_chain_loop fuel' am_file_name next (fp_close_symbol sym_ptr st)
          end
      end
  end.

(** The [for] loop over the slots of the symbol table. *)
Fixpoint fp_table_loop (fuel : nat) (am_file_name : string) (slots : list (list nat))
         (st : FIRST_STATE) : option FIRST_STATE :=
  match slots with
  | [] => Some st
  | chain :: rest =>
      match fp_chain_loop fuel am_file_name chain st with
      | None => None
      | Some st' => fp_table_loop fuel am_file_name rest st'
      end
  end.

(** [first_pass curr_program am_file am_file_name macro_table]; [am_file] is
    the text of the [.am] file.  [None]: the function has not returned after
    [fuel] rounds of one of its closing loops. *)
Definition first_pass (fuel : nat) (curr_program : TRANSLATION_UNIT) (am_file : string)
           (am_file_name : string) (macro_table : MACRO_TABLE) : option FIRST_RESULT :=
  match first_pass_lines am_file_name macro_table (read_lines MAX_LINE_LEN am_file)
                         (mkFirst 100 0 NO_ERRORS 1 curr_program []) with
  | inl r => Some r
  | inr st =>
      match fp_table_loop fuel am_file_name (symbol_table (fp_unit st)) st with
      | None => None
      | Some st' =>
          Some (mkFirstResult
                  (if fp_err_flag st' =? NO_ERRORS then NO_ERRORS
                   else SYNTAX_OR_LOGIC_ERROR) st')
      end
  end.

(** ** second_pass.c *)

Definition update (a : Z -> Z) (i v : Z) : Z -> Z :=
  fun j => if j =? i then v else a j.

(** [array[i] |= v] on an array of [short]. *)
Definition or_into (a : Z -> Z) (i v : Z) : Z -> Z :=
  update a i (to_short (Z.lor (a i) v)).

Fixpoint ext_search (ext_list0 : list EXT_SYMBOL) (symbol_name : string) : bool :=
  match ext_list0 with
  | [] => false
  | e :: r => String.eqb (ext_name e) symbol_name || ext_search r symbol_name
  end.

(** The store [ext_find->address = new_address] on the first node that
    [ext_search] finds. *)
Fixpoint ext_prepend (ext_list0 : list EXT_SYMBOL) (symbol_name : string)
         (symbol_address : Z) : list EXT_SYMBOL :=
  match ext_list0 with
  | [] => []
  | e :: r =>
      if String.eqb (ext_name e) symbol_name
      then mkExt (ext_name e) (symbol_address :: ext_address e) :: r
      else e :: ext_prepend r symbol_name symbol_address
  end.

(** The address is put before the addresses of the node that [ext_search]
    finds, or a node is put before the list.  The name is copied into the
    array [ext_name] of the new node, of [MAX_LABEL_LEN] characters: it is
    read back as stored here when it fits ([fits_label]). *)
Definition add_ext_address (ext_list0 : list EXT_SYMBOL) (symbol_name : string)
           (symbol_address : Z) : list EXT_SYMBOL :=
  if ext_search ext_list0 symbol_name
  then ext_prepend ext_list0 symbol_name symbol_address
  else mkExt symbol_name [symbol_address] :: ext_list0.

(** The state of the loop of [second_pass]. *)
Record SECOND_STATE : Type := mkSecond {
  sp_unit : TRANSLATION_UNIT;
  sp_err_flag : Z;
  sp_line_num : Z;
  sp_printed : list string }.

Definition with_instruction_array (tu : TRANSLATION_UNIT) (a : Z -> Z) : TRANSLATION_UNIT :=
  mkUnit a (data_array tu) (ic tu) (dc tu) (symbol_heap tu) (symbol_table tu)
         (ext_list tu) (external_counter tu) (entries_list tu) (entries_counter tu).

Definition with_data_array (tu : TRANSLATION_UNIT) (a : Z -> Z) : TRANSLATION_UNIT :=
  mkUnit (instruction_array tu) a (ic tu) (dc tu) (symbol_heap tu) (symbol_table tu)
         (ext_list tu) (external_counter tu) (entries_list tu) (entries_counter tu).

Definition with_ic (tu : TRANSLATION_UNIT) (v : Z) : TRANSLATION_UNIT :=
  mkUnit (instruction_array tu) (data_array tu) v (dc tu) (symbol_heap tu)
         (symbol_table tu) (ext_list tu) (external_counter tu) (entries_list tu)
         (entries_counter tu).

Definition with_dc (tu : TRANSLATION_UNIT) (v : Z) : TRANSLATION_UNIT :=
  mkUnit (instruction_array tu) (data_array tu) (ic tu) v (symbol_heap tu)
         (symbol_table tu) (ext_list tu) (external_counter tu) (entries_list tu)
         (entries_counter tu).

Definition with_externals (tu : TRANSLATION_UNIT) (l : list EXT_SYMBOL) (counter : Z)
  : TRANSLATION_UNIT :=
  mkUnit (instruction_array tu) (data_array tu) (ic tu) (dc tu) (symbol_heap tu)
         (symbol_table tu) l counter (entries_list tu) (entries_counter tu).

(** [instruction_array[ic] |= v] *)
Definition or_instruction (tu : TRANSLATION_UNIT) (v : Z) : TRANSLATION_UNIT :=
  with_instruction_array tu (or_into (instruction_array tu) (ic tu) v).

(** [ic++] *)
Definition next_ic (tu : TRANSLATION_UNIT) : TRANSLATION_UNIT := with_ic tu (ic tu + 1).

Definition or_data (tu : TRANSLATION_UNIT) (v : Z) : TRANSLATION_UNIT :=
  with_data_array tu (or_into (data_array tu) (dc tu) v).

Definition next_dc (tu : TRANSLATION_UNIT) : TRANSLATION_UNIT := with_dc tu (dc tu + 1).

Definition sp_with_unit (st : SECOND_STATE) (tu : TRANSLATION_UNIT) : SECOND_STATE :=
  mkSecond tu (sp_err_flag st) (sp_line_num st) (sp_printed st).

(** [printf(...); err_flag = SYNTAX_OR_LOGIC_ERROR; continue;] inside one of
    the loops over the operands. *)
Definition sp_error (am_file_name : string) (st : SECOND_STATE) (detail : string)
  : SECOND_STATE :=
  mkSecond (sp_unit st) SYNTAX_OR_LOGIC_ERROR (sp_line_num st)
           (printf (sp_printed st)
              ("Error in: " ++ am_file_name ++ " , in line number: "
                 ++ fmt_d (sp_line_num st) ++ " , " ++ detail ++ nl)).

Definition later_constant : string :=
  "using a constant whose definition is done at a later stage in the file".
Definition undefined_constant : string :=
  "using a constant that was not defined in the file".
Definition undefined_label : string :=
  "using a label that was not defined in the file".

Definition addressing_method (o : INST_OPERAND) : Z :=
  match op_type o with
  | number | constant | none => 0
  | label => 1
  | label_with_index => 2
  | reg => 3
  end.

(** The first memory word of an instruction. *)
Definition sp_first_word (ins : INSTRUCTION) (tu : TRANSLATION_UNIT) : TRANSLATION_UNIT :=
  let tu := or_instruction tu (Z.shiftl (addressing_method (operand_at ins 0)) 4) in
  let tu := or_instruction tu (Z.shiftl (addressing_method (operand_at ins 1)) 2) in
  let tu := or_instruction tu (Z.shiftl (inst_type ins) 6) in
  next_ic tu.

(** The word of a label operand, up to and including [ic++]. *)
Definition sp_symbol_word (sym_find : nat) (tu : TRANSLATION_UNIT) : TRANSLATION_UNIT :=
  let s := symbol_at tu sym_find in
  let tu :=
    match type s with
    | extern_sym =>
        let tu := or_instruction tu 1 in
        with_externals tu (add_ext_address (ext_list tu) (name s) (ic tu))
                       (external_counter tu + 1)
    | _ =>
        let tu := or_instruction tu 2 in
        or_instruction tu (Z.shiftl (address s) 2)
    end in
  next_ic tu.

(** The body of the loop over the operands of an instruction, for operand
    [i]. *)
Definition sp_operand (am_file_name : string) (ins : INSTRUCTION) (i : Z)
           (st : SECOND_STATE) : SECOND_STATE :=
  let o := operand_at ins i in
  let tu := sp_unit st in
  match op_type o with
  | number => sp_with_unit st (next_ic (or_instruction tu (Z.shiftl (op_num o) 2)))
  | constant =>
      match symbol_lookup (op_constant_name o) tu with
      | Some sym_find =>
          let s := symbol_at tu sym_find in
          if address s <? sp_line_num st
          then sp_with_unit st (next_ic (or_instruction tu (Z.shiftl (value s) 2)))
          else sp_error am_file_name st later_constant
      | None => sp_error am_file_name st undefined_constant
      end
  | reg =>
      if i =? SOURCE_OPERAND
      then sp_with_unit st
             (next_ic (or_instruction tu (Z.shiftl (op_num (operand_at ins SOURCE_OPERAND)) 5)))
      else sp_with_unit st
             (next_ic (or_instruction tu
                         (Z.shiftl (op_num (operand_at ins DESTINATION_OPERAND)) 2)))
  | label =>
      match symbol_lookup (op_label o) tu with
      | Some sym_find => sp_with_unit st (sp_symbol_word sym_find tu)
      | None => sp_error am_file_name st undefined_label
      end
  | label_with_index =>
      match symbol_lookup (op_label o) tu with
      | Some sym_find =>
          let tu := sp_symbol_word sym_find tu in
          let st := sp_with_unit st tu in
          if negb (Ascii.eqb (first_char (op_constant_name o)) NUL) then
            match symbol_lookup (op_constant_name o) tu with
            | Some sym_find =>
                let s := symbol_at tu sym_find in
                if address s <? sp_line_num st
                then sp_with_unit st (next_ic (or_instruction tu (Z.shiftl (value s) 2)))
                else sp_error am_file_name st later_constant
            | None => sp_error am_file_name st undefined_constant
            end
          else sp_with_unit st (next_ic (or_instruction tu (Z.shiftl (op_num o) 2)))
      | None => sp_error am_file_name st undefined_label
      end
  | none => st
  end.

(** The words of an instruction line. *)
Definition sp_instruction (am_file_name : string) (ins : INSTRUCTION)
           (st : SECOND_STATE) : SECOND_STATE :=
  let tu := sp_first_word ins (sp_unit st) in
  if is_reg (operand_at ins SOURCE_OPERAND) && is_reg (operand_at ins DESTINATION_OPERAND)
  then
    let tu := or_instruction tu (Z.shiftl (op_num (operand_at ins DESTINATION_OPERAND)) 2) in
    let tu := or_instruction tu (Z.shiftl (op_num (operand_at ins SOURCE_OPERAND)) 5) in
    sp_with_unit st (next_ic tu)
  else
    let st := sp_with_unit st tu in
    let st := sp_operand am_file_name ins 0 st in
    sp_operand am_file_name ins 1 st.

(** The loop over the characters of a [.string] operand. *)
Fixpoint sp_string (chars : list Z) (tu : TRANSLATION_UNIT) : TRANSLATION_UNIT :=
  match chars with
  | [] => tu
  | c :: r => sp_string r (next_dc (or_data tu c))
  end.

(** The loop over the operands of a [.data] directive. *)
Fixpoint sp_data (am_file_name : string) (items : list DATA) (st : SECOND_STATE)
  : SECOND_STATE :=
  match items with
  | [] => st
  | item :: r =>
      let tu := sp_unit st in
      let st' :=
        match data_type item with
        | data_int => sp_with_unit st (next_dc (or_data tu (data_num item)))
        | data_constant =>
            match symbol_lookup (data_constant_name item) tu with
            | Some sym_find =>
                let s := symbol_at tu sym_find in
                if address s <? sp_line_num st
                then sp_with_unit st (next_dc (or_data tu (value s)))
                else sp_error am_file_name st later_constant
            | None => sp_error am_file_name st undefined_constant
            end
        end in
      sp_data am_file_name r st'
  end.

Definition sp_next_line (st : SECOND_STATE) : SECOND_STATE :=
  mkSecond (sp_unit st) (sp_err_flag st) (sp_line_num st + 1) (sp_printed st).

(** The body of the loop of [second_pass] once the line is parsed. *)
Definition second_pass_ast (am_file_name : string) (line_ast : LINE_AST)
           (st : SECOND_STATE) : SECOND_STATE :=
  match ast_type line_ast with
  | inst => sp_next_line (sp_instruction am_file_name (u_instruction line_ast) st)
  | dir =>
      let d := u_directive line_ast in
      match dir_type d with
      | string_dir =>
          sp_next_line
            (sp_with_unit st (next_dc (sp_string (str_chars (dir_str d)) (sp_unit st))))
      | data =>
          sp_next_line (sp_data am_file_name (firstn (Z.to_nat (operand_counter d)) (dir_data d)) st)
      | _ => sp_next_line st
      end
  | _ => sp_next_line st
  end.

(** [inl]: the function returns [MEMORY_ALLOCATION_ERROR] from inside the
    loop. *)
Definition second_pass_line (am_file_name : string) (line : string) (st : SECOND_STATE)
  : SECOND_STATE + SECOND_STATE :=
  let line_ast := create_ast_from_text line in
  if String.eqb (error_detail line_ast) memory_allocation_failed then inl st
  else inr (second_pass_ast am_file_name line_ast st).

Fixpoint second_pass_lines (am_file_name : string) (lines : list string)
         (st : SECOND_STATE) : SECOND_STATE + SECOND_STATE :=
  match lines with
  | [] => inr st
  | line :: rest =>
      match second_pass_line am_file_name line st with
      | inl st' => inl st'
      | inr st' => second_pass_lines am_file_name rest st'
      end
  end.

(** [second_pass curr_program am_file_name am_file]: the value returned and
    the state it leaves. *)
Definition second_pass (curr_program : TRANSLATION_UNIT) (am_file_name : string)
           (am_file : string) : Z * SECOND_STATE :=
  match second_pass_lines am_file_name (read_lines MAX_LINE_LEN am_file)
                          (mkSecond curr_program NO_ERRORS 1 []) with
  | inl st => (MEMORY_ALLOCATION_ERROR, st)
  | inr st =>
      (if sp_err_flag st =? NO_ERRORS then NO_ERRORS else SYNTAX_OR_LOGIC_ERROR, st)
  end.

(** ** back_end.c *)

Definition Encrypted_base_four : list ascii := ["*"; "#"; "%"; "!"]%char.

Definition base_four_char (bits : Z) : ascii :=
  nth (Z.to_nat bits) Encrypted_base_four NUL.

(** The seven characters that [create_object_file] prints for a memory
    word. *)
Definition encode_word (w : Z) : string :=
  let bits_0_1 := Z.land w 3 in
  let bits_2_3 := Z.land (Z.shiftr w 2) 3 in
  let bits_4_5 := Z.land (Z.shiftr w 4) 3 in
  let bits_6_7 := Z.land (Z.shiftr w 6) 3 in
  let bits_8_9 := Z.land (Z.shiftr w 8) 3 in
  let bits_10_11 := Z.land (Z.shiftr w 10) 3 in
  let bits_12_13 := Z.land (Z.shiftr w 12) 3 in
  String (base_four_char bits_12_13)
    (String (base_four_char bits_10_11)
       (String (base_four_char bits_8_9)
          (String (base_four_char bits_6_7)
             (String (base_four_char bits_4_5)
                (String (base_four_char bits_2_3)
                   (String (base_four_char bits_0_1) EmptyString)))))).

(** [fprintf(ob_file, "0%d %c%c%c%c%c%c%c\n", address, ...)] *)
Definition ob_word_line (address0 w : Z) : string :=
  "0" ++ fmt_d address0 ++ " " ++ encode_word w ++ nl.

(** The values [0, 1, ..., n - 1] of the loop variable of [for (i = 0; i < n; i++)]. *)
Definition upto (n : Z) : list Z := map Z.of_nat (seq 0 (Z.to_nat n)).

Definition ob_header (tu : TRANSLATION_UNIT) : string :=
  "  " ++ fmt_d (ic tu) ++ " " ++ fmt_d (dc tu) ++ nl.

Definition ob_instruction_lines (tu : TRANSLATION_UNIT) : list string :=
  map (fun i => ob_word_line (i + 100) (instruction_array tu i)) (upto (ic tu)).

(** Printed after [curr_program->ic += 100]. *)
Definition ob_data_lines (tu : TRANSLATION_UNIT) : list string :=
  map (fun i => ob_word_line (i + (ic tu + 100)) (data_array tu i)) (upto (dc tu)).

(** [create_object_file]: what is printed to the [.ob] file, one element for
    each [fprintf], and the translation unit afterwards. *)
Definition create_object_file (curr_program : TRANSLATION_UNIT)
  : list string * TRANSLATION_UNIT :=
  (ob_header curr_program
     :: ob_instruction_lines curr_program ++ ob_data_lines curr_program,
   with_ic curr_program (ic curr_program + 100)).

Definition create_entries_file (curr_program : TRANSLATION_UNIT) : list string :=
  map (fun entry_ptr =>
         let s := symbol_at curr_program entry_ptr in
         name s ++ String tab ("0" ++ fmt_d (address s) ++ nl))
      (entries_list curr_program).

Definition create_external_file (curr_program : TRANSLATION_UNIT) : list string :=
  flat_map (fun ext_ptr =>
              map (fun num => ext_name ext_ptr ++ String tab ("0" ++ fmt_d (num + 100) ++ nl))
                  (ext_address ext_ptr))
           (ext_list curr_program).

(** ** assembler.c: one round of the loop of [main] *)

(** The files left behind for one argument of the command line, the final
    translation unit and everything printed. *)
Record OUTPUT : Type := mkOutput {
  out_am : option string;
  out_ob : option (list string);
  out_ent : option (list string);
  out_ext : option (list string);
  out_printed : list string }.

(** [None]: [first_pass] has not returned within [fuel]. *)
Definition main_file (fuel : nat) (file_name : string) (as_file : string)
  : option OUTPUT :=
  let pre := pre_assembly file_name as_file empty_macro_table in
  match am_file_name pre, am_file pre with
  | Some am_name, Some am =>
      match first_pass fuel zero_unit am am_name (result_table pre) with
      | None => None
      | Some r1 =>
          let printed1 := (result_printed pre ++ fp_printed (fp_final r1))%list in
          if fp_return r1 =? NO_ERRORS then
            let (second_pass_error_flag, st2) :=
              second_pass (fp_unit (fp_final r1)) am_name am in
            let printed2 := (printed1 ++ sp_printed st2)%list in
            if second_pass_error_flag =? NO_ERRORS then
              let (ob, tu) := create_object_file (sp_unit st2) in
              Some (mkOutput (Some am) (Some ob)
                      (if entries_counter tu >? 0 then Some (create_entries_file tu) else None)
                      (if external_counter tu >? 0 then Some (create_external_file tu) else None)
                      printed2)
            else Some (mkOutput (Some am) None None None printed2)
          else Some (mkOutput (Some am) None None None printed1)
      end
  | _, _ => Some (mkOutput None None None None (result_printed pre))
  end.

(** ** Reading the object file back

    Modelled from the spec: the program has no decoder; the spec reads a
    seven-character group back through the map
    [{* -> 0, # -> 1, % -> 2, ! -> 3}], most significant group first. *)
Definition decode_char (c : ascii) : option Z :=
  if Ascii.eqb c "*" then Some 0
  else if Ascii.eqb c "#" then Some 1
  else if Ascii.eqb c "%" then Some 2
  else if Ascii.eqb c "!" then Some 3
  else None.

Fixpoint decode_from (acc : Z) (s : string) : option Z :=
  match s with
  | EmptyString => Some acc
  | String c r =>
      match decode_char c with
      | Some d => decode_from (acc * 4 + d) r
      | None => None
      end
  end.

Definition decode_word (s : string) : option Z :=
  if Nat.eqb (String.length s) 7 then decode_from 0 s else None.

(** ** Notions used in the statements *)

(** The part of the translation unit that the first pass builds: the symbol
    nodes, the chains of the table, and the list of entries with its
    counter. *)
Definition symbols_part (tu : TRANSLATION_UNIT) :=
  (symbol_heap tu, symbol_table tu, entries_list tu, entries_counter tu).

(** The part of the translation unit that the second pass fills. *)
Definition images_part (tu : TRANSLATION_UNIT) :=
  (instruction_array tu, data_array tu, ic tu, dc tu, ext_list tu, external_counter tu).

(** The second pass only moves [ic] and [dc] forward. *)
Definition counters_le (tu tu' : TRANSLATION_UNIT) : Prop :=
  ic tu <= ic tu' /\ dc tu <= dc tu'.

(** No word has both low bits set, and the words from [from] on have
    neither. *)
Definition are_invariant (from : Z) (a : Z -> Z) : Prop :=
  (forall i, Z.land (a i) 3 <> 3) /\ (forall i, from <= i -> Z.land (a i) 3 = 0).

(** The invariant of the second pass on the A/R/E field, between two
    words. *)
Definition are_ok (tu : TRANSLATION_UNIT) : Prop :=
  are_invariant (ic tu) (instruction_array tu).

(** The three jumps. *)
Definition jump_op (ty : Z) : Prop := ty = jmp \/ ty = bne \/ ty = jsr.

(** The index of the operand that a round of [check_inst_operand] does not
    store. *)
Definition other_operand (operand_cnt : Z) : Z :=
  if operand_cnt =? SOURCE_OPERAND then DESTINATION_OPERAND else SOURCE_OPERAND.

(** The operands of an instruction as the parser leaves them: none for
    [rts] and [hlt], the destination alone for the operations of one
    operand, both for the others. *)
Definition well_shaped (ins : INSTRUCTION) : Prop :=
  0 <= inst_type ins <= 15
  /\ if inst_type ins >=? rts then
       op_type (operand0 ins) = none /\ op_type (operand1 ins) = none
     else if one_operand_op (inst_type ins) then
       op_type (operand0 ins) = none /\ op_type (operand1 ins) <> none
     else
       op_type (operand0 ins) <> none /\ op_type (operand1 ins) <> none.

(** The symbol at [p] was promised by [.entry] and never defined. *)
Definition pending (tu : TRANSLATION_UNIT) (p : nat) : Prop :=
  type (symbol_at tu p) = entry_sym_without_definition.

(** The words that the second pass writes for an operand when it reports no
    error. *)
Definition operand_words (o : INST_OPERAND) : Z :=
  match op_type o with
  | none => 0
  | label_with_index => 2
  | _ => 1
  end.

(** The words that the second pass writes for an instruction when it reports
    no error. *)
Definition instruction_words (ins : INSTRUCTION) : Z :=
  1 + (if is_reg (operand_at ins SOURCE_OPERAND)
          && is_reg (operand_at ins DESTINATION_OPERAND)
       then 1
       else operand_words (operand_at ins SOURCE_OPERAND)
            + operand_words (operand_at ins DESTINATION_OPERAND)).

(** An instruction of one operand whose operand is a label with an index. *)
Definition indexed_single_operand (line_ast : LINE_AST) : bool :=
  match ast_type line_ast with
  | inst =>
      one_operand_op (inst_type (u_instruction line_ast))
      && is_lwi (operand_at (u_instruction line_ast) DESTINATION_OPERAND)
  | _ => false
  end.

(** What the first pass adds to [ic] for a line. *)
Definition inst_words (line_ast : LINE_AST) : Z :=
  match ast_type line_ast with
  | inst => memory_cell_calculator line_ast
  | _ => 0
  end.

(** What the first pass adds to [dc] for a line. *)
Definition data_words (line_ast : LINE_AST) : Z :=
  match ast_type line_ast with
  | dir =>
      match dir_type (u_directive line_ast) with
      | data | string_dir => memory_cell_calculator line_ast
      | _ => 0
      end
  | _ => 0
  end.

(** The sum of [f] over the parsed lines of a file. *)
Fixpoint total (f : LINE_AST -> Z) (lines : list string) : Z :=
  match lines with
  | [] => 0
  | line :: rest => f (create_ast_from_text line) + total f rest
  end.

(** ** Sample programs and states *)

(** The second end-to-end scenario of the specification: a constant, a string
    and an entry, no instruction. *)
Definition constant_and_data : string :=
  ".define SZ = 5" ++ nl
  ++ "STR: .string " ++ String dquote ("ab" ++ String dquote nl)
  ++ ".entry STR" ++ nl.

(** The object file of [constant_and_data]. *)
Definition constant_and_data_ob : list string :=
  ["  0 3" ++ nl; "0100 ***#%*#" ++ nl; "0101 ***#%*%" ++ nl; "0102 *******" ++ nl].

(** The files that [main] leaves for [constant_and_data]. *)
Definition constant_and_data_output : OUTPUT :=
  mkOutput (Some constant_and_data) (Some constant_and_data_ob)
           (Some ["STR" ++ String tab ("0100" ++ nl)]) None [].

(** The other end-to-end scenarios of the specification. *)
Definition macro_twice : string :=
  "mcr M" ++ nl ++ "  hlt" ++ nl ++ "endmcr" ++ nl ++ "M" ++ nl ++ "M" ++ nl.

Definition external_reference : string :=
  ".extern EXT" ++ nl ++ "mov EXT, r1" ++ nl ++ "hlt" ++ nl.

Definition register_index : string :=
  "ARR: .data 10,20,30" ++ nl ++ "mov ARR[r0], r1" ++ nl.

Definition forward_constant : string :=
  "mov #K, r0" ++ nl ++ ".define K = 7" ++ nl.


(** The state of [pre_assembly] once [mcr M] has been read. *)
Definition recording_M : PRE_STATE :=
  mkPre "" (Some 0%nat) 1 2 (snd (insert_macro "M" empty_macro_table)) [].



(** A hundred letters and a newline. *)
Definition long_line : string :=
  string_of_list_ascii (repeat "a"%char 100) ++ nl.

(** The same constant defined twice. *)
Definition double_define : string :=
  ".define K = 1" ++ nl ++ ".define K = 2" ++ nl.

(** An array and an instruction of one operand that indexes it. *)
Definition indexed_increment : string :=
  "ARR: .data 1,2,3" ++ nl ++ "inc ARR[2]" ++ nl.

(** A symbol table with the array [ARR]. *)
Definition unit_with_ARR : TRANSLATION_UNIT :=
  insert_symbol zero_unit "ARR" data_sym 104 0.

(** An array and an instruction of two operands that indexes it. *)
Definition indexed_move : string :=
  "ARR: .data 1,2,3" ++ nl ++ "mov r1, ARR[2]" ++ nl.

(** ** Notions used in the general properties *)

(** Every character of the string satisfies [p]. *)
Fixpoint string_forall (p : ascii -> bool) (s : string) : bool :=
  match s with
  | EmptyString => true
  | String c r => p c && string_forall p r
  end.

(** The character does not separate words: it is neither white space nor a
    comma. *)
Definition not_sep (c : ascii) : bool := negb (is_sep c).

(** A letter or a digit. *)
Definition alnum (c : ascii) : bool := isalpha c || isdigit c.

(** The twelve-bit values, in increasing order. *)
Definition twelve_bit_values : list Z :=
  map (fun n => Z.of_nat n + MIN_12_BIT_VALUE) (seq 0 4096).

(** The flag and the tree that a check of the operands hands back: an error
    with its diagnostic, or no error and no diagnostic. *)
Definition checked (flag : Z) (a : LINE_AST) : Prop :=
  flag = line_type_code error /\ error_detail a <> ""
  \/ flag = NO_ERRORS /\ error_detail a = "".

(** The number of an operand fits twelve bits, and the number of a register
    is its index in the table of registers. *)
Definition operand_in_range (o : INST_OPERAND) : Prop :=
  MIN_12_BIT_VALUE <= op_num o <= MAX_12_BIT_VALUE
  /\ (op_type o = reg -> 0 <= op_num o <= 9).

(** An operand of [.data]: a number of twelve bits, or a name that has the
    syntax of a label. *)
Definition data_operand_ok (d : DATA) : Prop :=
  match data_type d with
  | data_int => MIN_12_BIT_VALUE <= data_num d <= MAX_12_BIT_VALUE
  | data_constant => is_label (data_constant_name d) operand_label = NO_ERRORS
  end.

(** The operand is written with [#]: a number or the name of a constant. *)
Definition is_immediate (o : INST_OPERAND) : bool :=
  match op_type o with
  | number | constant => true
  | _ => false
  end.

(** The operand names a place in memory: a label, with or without an index. *)
Definition is_direct (o : INST_OPERAND) : bool :=
  match op_type o with
  | label | label_with_index => true
  | _ => false
  end.

(** The addressing methods that [check_inst_operand] lets through: an
    immediate destination for [cmp] and [prn] only, and for [lea] a source
    that names a place in memory. *)
Definition addressing_ok (ins : INSTRUCTION) : Prop :=
  (is_immediate (operand1 ins) = true -> inst_type ins = cmp \/ inst_type ins = prn)
  /\ (inst_type ins = lea -> is_direct (operand0 ins) = true).

(** A table over a heap of [n] nodes: [HASH_TABLE_SIZE] chains, every
    address of which is that of an allocated node. *)
Definition table_ok (n : nat) (t : chains) : Prop :=
  List.length t = Z.to_nat HASH_TABLE_SIZE
  /\ Forall (Forall (fun p => (p < n)%nat)) t.

(** The symbol table is such a table over the symbols allocated. *)
Definition symbols_ok (tu : TRANSLATION_UNIT) : Prop :=
  table_ok (List.length (symbol_heap tu)) (symbol_table tu).

(** The table of macros is such a table over the macros allocated. *)
Definition macros_ok (t : MACRO_TABLE) : Prop :=
  table_ok (List.length (macro_heap t)) (macro_chains t).

(** No word of the line has [MAX_LABEL_LEN] characters or more, so that
    every name that the parser stores from the line fits its array. *)
Definition words_fit (line : string) : bool := forallb fits_label (all_words line).

(** One of the two words that open and close the definition of a macro. *)
Definition macro_word (word : string) : bool :=
  String.eqb word "mcr" || String.eqb word "endmcr".



(** No piece that [fgets] reads from the file has a word that opens or closes
    the definition of a macro. *)
Definition macro_free (as_file : string) : bool :=
  forallb (fun line => negb (existsb macro_word (all_words line)))
          (read_lines MAX_LINE_LEN as_file).

(** A name under which [mcr] can define a macro in the table [t], and by
    which the macro can then be called: a word of its own, not a comment, not
    a word of the pre-processor, of the directives or of the operations, and
    not yet the name of a macro. *)
Definition macro_name_ok (name0 : string) (t : MACRO_TABLE) : bool :=
  negb (String.eqb name0 "")
  && string_forall not_sep name0
  && negb (Ascii.eqb (first_char name0) ";")
  && negb (macro_word name0)
  && (is_directive name0 =? -1) && (is_operation name0 =? -1)
  && negb (is_some (macro_lookup name0 t)).

(** The first word of the line starts with a semicolon. *)
Definition is_comment (line : string) : bool :=
  match all_words line with
  | word :: _ => Ascii.eqb (first_char word) ";"
  | [] => false
  end.

(** A line that is recorded as it is in the body of the macro [name0]: it is
    not refused as too long, it is no comment, and none of its words is a word
    of the pre-processor, [name0] or the name of a macro of [t]. *)
Definition body_line_ok (name0 : string) (t : MACRO_TABLE) (line : string) : bool :=
  negb (negb (strchr line newline) && strchr line EOF_char)
  && negb (is_comment line)
  && forallb (fun word => negb (macro_word word) && negb (String.eqb word name0)
                          && negb (is_some (macro_lookup word t)))
             (all_words line).

(** The error flag of the first pass tells whether something was printed. *)
Definition fp_flag_ok (st : FIRST_STATE) : Prop :=
  fp_err_flag st = NO_ERRORS /\ fp_printed st = []
  \/ fp_err_flag st = SYNTAX_OR_LOGIC_ERROR /\ fp_printed st <> [].

(** The symbol is an entry with a definition. *)
Definition is_entry (s : SYMBOL) : bool :=
  match type s with
  | data_entry_sym | inst_entry_sym => true
  | _ => false
  end.

(** The list of entries holds entries, and the counter is its length. *)
Definition entries_ok (tu : TRANSLATION_UNIT) : Prop :=
  entries_counter tu = Z.of_nat (List.length (entries_list tu))
  /\ Forall (fun p => is_entry (symbol_at tu p) = true) (entries_list tu).

(** The list of entries with its counter. *)
Definition entries_part (tu : TRANSLATION_UNIT) := (entries_list tu, entries_counter tu).

(** The error flag of the second pass tells whether something was printed. *)
Definition sp_flag_ok (st : SECOND_STATE) : Prop :=
  sp_err_flag st = NO_ERRORS /\ sp_printed st = []
  \/ sp_err_flag st = SYNTAX_OR_LOGIC_ERROR /\ sp_printed st <> [].

(** From [tu] to [tu'] the counters only went forward, and the cells of the
    images below the old counters or from the new counters on are as they
    were. *)
Definition filled_between (tu tu' : TRANSLATION_UNIT) : Prop :=
  counters_le tu tu'
  /\ (forall i, i < ic tu \/ ic tu' <= i ->
                instruction_array tu' i = instruction_array tu i)
  /\ (forall i, i < dc tu \/ dc tu' <= i -> data_array tu' i = data_array tu i).

(** [tu'] is [tu] but for the cell of the instruction image at [ic]. *)
Definition writing_instruction (tu tu' : TRANSLATION_UNIT) : Prop :=
  ic tu' = ic tu /\ dc tu' = dc tu /\ data_array tu' = data_array tu
  /\ forall i, i <> ic tu -> instruction_array tu' i = instruction_array tu i.

(** The addresses kept in the node that [ext_search] finds, most recent
    first; none when it finds no node. *)
Fixpoint ext_addresses (ext_list0 : list EXT_SYMBOL) (symbol_name : string) : list Z :=
  match ext_list0 with
  | [] => []
  | e :: r =>
      if String.eqb (ext_name e) symbol_name then ext_address e
      else ext_addresses r symbol_name
  end.


(** One of the four characters of the object file. *)
Definition base_four_symbol (c : ascii) : bool :=
  existsb (Ascii.eqb c) Encrypted_base_four.

(** The word printed on line [k] of the memory image: the instruction words
    come first, the data words after them. *)
Definition image_word (tu : TRANSLATION_UNIT) (k : Z) : Z :=
  if k <? ic tu then instruction_array tu k else data_array tu (k - ic tu).

(** The state of [first_pass] once the lines of [constant_and_data] are
    read. *)
Definition constant_and_data_read : FIRST_STATE :=
  match first_pass_lines "foo.am" empty_macro_table
                         (read_lines MAX_LINE_LEN constant_and_data)
                         (mkFirst 100 0 NO_ERRORS 1 zero_unit []) with
  | inr st => st
  | inl r => fp_final r
  end.

(** What [first_pass] returns on [constant_and_data]. *)
Definition constant_and_data_pass : FIRST_RESULT :=
  match first_pass 5 zero_unit constant_and_data "foo.am" empty_macro_table with
  | Some r => r
  | None => mkFirstResult NO_ERRORS constant_and_data_read
  end.

(** A translation unit with one instruction word and two data words. *)
Definition three_words : TRANSLATION_UNIT := with_dc (with_ic zero_unit 1) 2.

(** * Properties *)

(** Case analysis on a scrutinee of the goal that has no [match] inside. *)
Ltac break_match :=
  match goal with
  | |- context [match ?x with _ => _ end] =>
      lazymatch x with
      | context [match _ with _ => _ end] => fail
      | _ => destruct x eqn:?
      end
  end.

(** Projections of the translation unit and of the state of the second pass
    out of their updates. *)
Ltac unit_cbn :=
  cbn [ic dc instruction_array data_array symbol_heap symbol_table ext_list
       external_counter entries_list entries_counter next_ic next_dc or_instruction
       or_data with_ic with_dc with_instruction_array with_data_array with_externals
       with_entries with_symbols sp_unit sp_err_flag sp_line_num sp_printed
       sp_with_unit sp_error sp_next_line].


(** ** The scenarios of the specification, run on the model *)

Example scenario_empty_source :
  main_file 5 "foo" "" = Some (mkOutput (Some "") (Some ["  0 0" ++ nl]) None None []).
Proof. vm_compute. reflexivity. Qed.

Example scenario_constant_and_data :
  main_file 5 "foo" constant_and_data = Some constant_and_data_output.
Proof. vm_compute. reflexivity. Qed.

Example scenario_macro_expansion :
  main_file 5 "foo" macro_twice
  = Some (mkOutput (Some ("  hlt" ++ nl ++ "  hlt" ++ nl))
                   (Some ["  2 0" ++ nl; "0100 **!!***" ++ nl; "0101 **!!***" ++ nl])
                   None None []).
Proof. vm_compute. reflexivity. Qed.

Example scenario_external_reference :
  main_file 5 "foo" external_reference
  = Some (mkOutput (Some external_reference)
                   (Some ["  4 0" ++ nl; "0100 ****#!*" ++ nl; "0101 ******#" ++ nl;
                          "0102 *****#*" ++ nl; "0103 **!!***" ++ nl])
                   None
                   (Some ["EXT" ++ String tab ("0101" ++ nl)])
                   []).
Proof. vm_compute. reflexivity. Qed.

Example scenario_register_index :
  main_file 5 "foo" register_index
  = Some (mkOutput (Some register_index) None None None
                   [fp_diag_line "foo.am" 2 inappropriate_operand]).
Proof. vm_compute. reflexivity. Qed.

Example scenario_forward_constant :
  main_file 5 "foo" forward_constant
  = Some (mkOutput (Some forward_constant) None None None
                   [fp_diag_line "foo.am" 1 later_constant]).
Proof. vm_compute. reflexivity. Qed.

(** ** The loops that are bounded by the length of their input

    The loops over the lines of a file and over the words of a line are run
    with the length of the text as fuel.  Every round consumes a character,
    so more fuel changes nothing: the result is that of the loop itself. *)

Section Fuel.

Lemma fgets_chars_length k file :
(String.length (fst (fgets_chars k file)) + String.length (snd (fgets_chars k file))
   = String.length file)%nat
  /\ (k <> O -> file <> EmptyString -> fst (fgets_chars k file) <> EmptyString).
Proof.
  revert file. induction k as [| k IH]; intros [| c r]; cbn [fgets_chars];
    try (split; [reflexivity | intros; congruence]).
  destruct (Ascii.eqb c newline).
  - split; [reflexivity | discriminate].
  - destruct (IH r) as [H _]. destruct (fgets_chars k r) as [l rest].
    cbn [fst snd String.length] in *. split; [lia | discriminate].
Qed.

Lemma fgets_consumes n file l rest :
  2 <= n -> fgets n file = Some (l, rest) ->
  (String.length rest < String.length file)%nat.
Proof.
  intros Hn. unfold fgets. destruct file as [| c r]; [discriminate |].
  destruct (fgets_chars_length (Z.to_nat (n - 1)) (String c r)) as [H1 H2].
  destruct (fgets_chars (Z.to_nat (n - 1)) (String c r)) as [l0 rest0].
  cbn [fst snd] in *. intros H; inversion H; subst.
  assert (l0 <> EmptyString) as Hl by (apply H2; [lia | discriminate]).
  destruct l0; [contradiction | cbn [String.length] in *; lia].
Qed.

Lemma fgets_all_fuel n file fuel1 fuel2 :
  2 <= n ->
  (String.length file <= fuel1)%nat -> (String.length file <= fuel2)%nat ->
  fgets_all fuel1 n file = fgets_all fuel2 n file.
Proof.
  intros Hn. revert file fuel2.
  induction fuel1 as [| fuel1 IH]; intros file [| fuel2] H1 H2; cbn [fgets_all];
    try reflexivity;
    try (destruct file; [reflexivity | cbn [String.length] in *; lia]).
  destruct (fgets n file) as [[l rest] |] eqn:E; [| reflexivity].
  apply fgets_consumes in E; [| assumption].
  f_equal. apply IH; lia.
Qed.

Lemma skip_seps_length line : (String.length (skip_seps line) <= String.length line)%nat.
Proof.
  induction line as [| c r IH]; cbn [skip_seps String.length]; [lia |].
  destruct (is_sep c); cbn [String.length]; lia.
Qed.

Lemma take_word_length line :
  (String.length (snd (take_word line)) <= String.length line)%nat.
Proof.
  induction line as [| c r IH]; cbn [take_word String.length snd]; [lia |].
  destruct (is_sep c); [cbn; lia |].
  destruct (take_word r) as [w rest]. cbn [snd] in *. lia.
Qed.

Lemma get_word_consumes line word rest :
  get_word line = (Some word, rest) ->
  (String.length rest < String.length line)%nat.
Proof.
  unfold get_word. pose proof (skip_seps_length line) as Hs.
  destruct (skip_seps line) as [| c r] eqn:E; [discriminate |].
  assert (is_sep c = false) as Hc.
  { clear Hs. revert E. induction line as [| d l IH]; cbn [skip_seps]; [discriminate |].
    destruct (is_sep d) eqn:Ed; [exact IH |]. intros H; inversion H; subst. exact Ed. }
  cbn [take_word]. rewrite Hc.
  pose proof (take_word_length r) as Ht. destruct (take_word r) as [w rest0].
  cbn [snd String.length] in *. intros H; inversion H; subst. lia.
Qed.

Lemma words_from_fuel line fuel1 fuel2 :
  (String.length line <= fuel1)%nat -> (String.length line <= fuel2)%nat ->
  words_from fuel1 line = words_from fuel2 line.
Proof.
  revert line fuel2.
  induction fuel1 as [| fuel1 IH]; intros line [| fuel2] H1 H2; cbn [words_from];
    try reflexivity;
    try (destruct line; [reflexivity | cbn [String.length] in *; lia]).
  destruct (get_word line) as [[word |] rest] eqn:E; [| reflexivity].
  apply get_word_consumes in E. f_equal. apply IH; lia.
Qed.

Lemma data_operands_loop_fuel line fuel1 fuel2 comma_cnt op_cnt ast :
  (String.length line <= fuel1)%nat -> (String.length line <= fuel2)%nat ->
  data_operands_loop fuel1 line comma_cnt op_cnt ast
  = data_operands_loop fuel2 line comma_cnt op_cnt ast.
Proof.
  revert line fuel2 comma_cnt op_cnt ast.
  induction fuel1 as [| fuel1 IH]; intros line [| fuel2] comma_cnt op_cnt ast H1 H2;
    cbn [data_operands_loop]; try reflexivity;
    try (destruct line; [reflexivity | cbn [String.length] in *; lia]).
  destruct line as [| c r]; [reflexivity |].
  cbn [String.length] in H1, H2.
  destruct (Ascii.eqb c EOF_char); [reflexivity |].
  destruct (isspace c); [apply IH; lia |].
  destruct (Ascii.eqb c ",").
  - destruct (comma_cnt >? 0); [reflexivity | apply IH; lia].
  - destruct (get_word (String c r)) as [[word |] rest] eqn:E; [| reflexivity].
    apply get_word_consumes in E. cbn [String.length] in E.
    repeat break_match; try reflexivity; apply IH; lia.
Qed.

End Fuel.

(** ** The printable base-4 notation of the object file *)

Section Base4.

Lemma land_3_mod (z : Z) : Z.land z 3 = z mod 4.
Proof. exact (Z.land_ones z 2 ltac:(lia)). Qed.

Lemma shiftr_div (z k : Z) : 0 <= k -> Z.shiftr z k = z / 2 ^ k.
Proof. intros Hk. now apply Z.shiftr_div_pow2. Qed.

Lemma decode_base_four_char (b : Z) :
  0 <= b < 4 -> decode_char (base_four_char b) = Some b.
Proof.
  intros Hb.
  assert (b = 0 \/ b = 1 \/ b = 2 \/ b = 3) as [-> | [-> | [-> | ->]]] by lia;
    reflexivity.
Qed.

Lemma digit_range (z : Z) : 0 <= z mod 4 < 4.
Proof. apply Z.mod_pos_bound. lia. Qed.

(** C9.  For every 14-bit word [w], the seven characters that the object
    emitter prints for [w], read back through [{* -> 0, # -> 1, % -> 2,
    ! -> 3}] most significant group first, give [w] again. *)
Theorem encode_decode_word (w : Z) :
  0 <= w < 2 ^ 14 -> decode_word (encode_word w) = Some w.
Proof.
  intros Hw.
  unfold decode_word, encode_word.
  cbn [String.length Nat.eqb decode_from].
  rewrite !land_3_mod, !shiftr_div by lia.
  rewrite !decode_base_four_char by apply digit_range.
  f_equal.
  change (2 ^ 2) with 4; change (2 ^ 4) with 16; change (2 ^ 6) with 64;
    change (2 ^ 8) with 256; change (2 ^ 10) with 1024; change (2 ^ 12) with 4096.
  change (2 ^ 14) with 16384 in Hw.
  Z.div_mod_to_equations. lia.
Qed.

Lemma encode_decode_word_witness :
  0 <= 97 < 2 ^ 14 /\ decode_word (encode_word 97) = Some 97.
Proof.
  split; [lia | apply (encode_decode_word 97); lia].
Defined.

End Base4.

(** ** What the second pass leaves alone *)

Section SecondPassFrame.

Variable am_file_name : string.

Lemma sp_symbol_word_frame p tu :
  symbols_part (sp_symbol_word p tu) = symbols_part tu.
Proof. unfold sp_symbol_word. break_match; reflexivity. Qed.

Lemma sp_operand_frame ins i st :
  symbols_part (sp_unit (sp_operand am_file_name ins i st)) = symbols_part (sp_unit st).
Proof.
  unfold sp_operand.
  repeat break_match; cbn [sp_unit sp_with_unit sp_error];
    rewrite ?sp_symbol_word_frame; try reflexivity;
    unfold sp_symbol_word; break_match; reflexivity.
Qed.

Lemma sp_instruction_frame ins st :
  symbols_part (sp_unit (sp_instruction am_file_name ins st)) = symbols_part (sp_unit st).
Proof.
  unfold sp_instruction. break_match.
  - reflexivity.
  - rewrite !sp_operand_frame. reflexivity.
Qed.

Lemma sp_string_frame chars tu :
  symbols_part (sp_string chars tu) = symbols_part tu.
Proof.
  revert tu. induction chars as [| c r IH]; intros tu; cbn [sp_string].
  - reflexivity.
  - rewrite IH. reflexivity.
Qed.

Lemma sp_data_frame items st :
  symbols_part (sp_unit (sp_data am_file_name items st)) = symbols_part (sp_unit st).
Proof.
  revert st. induction items as [| item r IH]; intros st; cbn [sp_data].
  - reflexivity.
  - rewrite IH. repeat break_match; reflexivity.
Qed.

Lemma second_pass_ast_frame line_ast st :
  symbols_part (sp_unit (second_pass_ast am_file_name line_ast st))
  = symbols_part (sp_unit st).
Proof.
  unfold second_pass_ast.
  repeat break_match; cbn [sp_unit sp_next_line sp_with_unit];
    rewrite ?sp_instruction_frame, ?sp_data_frame; try reflexivity.
  change (symbols_part (next_dc ?t)) with (symbols_part t).
  apply sp_string_frame.
Qed.

Lemma second_pass_lines_frame lines st st' :
  second_pass_lines am_file_name lines st = inl st'
  \/ second_pass_lines am_file_name lines st = inr st' ->
  symbols_part (sp_unit st') = symbols_part (sp_unit st).
Proof.
  revert st. induction lines as [| line rest IH]; intros st H; cbn [second_pass_lines] in H.
  - destruct H as [H | H]; [discriminate | now inversion H].
  - unfold second_pass_line in H.
    destruct (String.eqb _ memory_allocation_failed).
    + destruct H as [H | H]; [now inversion H | discriminate].
    + rewrite (IH _ H). apply second_pass_ast_frame.
Qed.

End SecondPassFrame.

(** C10.  [second_pass] leaves the symbol table and the entries alone: every
    symbol node (name, kind, address, value), the chains of the table, the
    list of entries and its counter are after [second_pass] what they were
    before, and so is what [create_entries_file] prints from them. *)
Theorem second_pass_frame (curr_program : TRANSLATION_UNIT) (am_file_name am_file : string) :
  let tu' := sp_unit (snd (second_pass curr_program am_file_name am_file)) in
  (forall p, symbol_at tu' p = symbol_at curr_program p)
  /\ symbol_table tu' = symbol_table curr_program
  /\ entries_list tu' = entries_list curr_program
  /\ entries_counter tu' = entries_counter curr_program
  /\ create_entries_file tu' = create_entries_file curr_program.
Proof.
  cbv zeta.
  assert (symbols_part (sp_unit (snd (second_pass curr_program am_file_name am_file)))
          = symbols_part curr_program) as H.
  { unfold second_pass.
    destruct (second_pass_lines _ _ _) as [st | st] eqn:E; cbn [snd].
    - exact (second_pass_lines_frame _ _ _ _ (or_introl E)).
    - exact (second_pass_lines_frame _ _ _ _ (or_intror E)). }
  unfold symbols_part in H. inversion H as [[Hheap Htable Hentries Hcounter]].
  assert (forall p, symbol_at (sp_unit (snd (second_pass curr_program am_file_name am_file))) p
                    = symbol_at curr_program p) as Hat.
  { intros p. unfold symbol_at. now rewrite Hheap. }
  repeat split; auto.
  unfold create_entries_file. rewrite Hentries.
  apply map_ext. intros p. now rewrite Hat.
Qed.

(** ** The A/R/E field of the instruction words *)

Section AreField.

Lemma land_3_to_short (z : Z) : Z.land (to_short z) 3 = Z.land z 3.
Proof.
  rewrite !land_3_mod. unfold to_short. Z.div_mod_to_equations. lia.
Qed.

Lemma land_3_shiftl (x k : Z) : 2 <= k -> Z.land (Z.shiftl x k) 3 = 0.
Proof.
  intros Hk. rewrite land_3_mod, Z.shiftl_mul_pow2 by lia.
  replace k with (2 + (k - 2)) by lia.
  rewrite Z.pow_add_r by lia. change (2 ^ 2) with 4.
  replace (x * (4 * 2 ^ (k - 2))) with (x * 2 ^ (k - 2) * 4) by ring.
  apply Z.mod_mul. lia.
Qed.

(** [|= x << k] with [2 <= k] does not touch the two low bits. *)
Lemma land_3_or_shift (a x k : Z) :
  2 <= k -> Z.land (to_short (Z.lor a (Z.shiftl x k))) 3 = Z.land a 3.
Proof.
  intros Hk.
  rewrite land_3_to_short, Z.land_lor_distr_l, land_3_shiftl by assumption.
  apply Z.lor_0_r.
Qed.

Lemma land_3_or_tag (a t : Z) :
  Z.land a 3 = 0 -> Z.land (to_short (Z.lor a t)) 3 = Z.land t 3.
Proof.
  intros Ha. rewrite land_3_to_short, Z.land_lor_distr_l, Ha. apply Z.lor_0_l.
Qed.

Lemma or_shift_invariant from a i x k :
  2 <= k -> are_invariant from a -> are_invariant from (or_into a i (Z.shiftl x k)).
Proof.
  intros Hk [Hall Hfresh]. unfold or_into, update.
  split; intros j; [| intros Hj]; destruct (j =? i) eqn:E;
    rewrite ?land_3_or_shift by assumption; auto;
    apply Z.eqb_eq in E; subst; auto.
Qed.

Lemma or_tag_invariant from a t :
  Z.land t 3 <> 3 -> are_invariant from a -> are_invariant (from + 1) (or_into a from t).
Proof.
  intros Ht [Hall Hfresh]. unfold or_into, update.
  split; intros j; [| intros Hj]; destruct (j =? from) eqn:E.
  - rewrite land_3_or_tag; auto. apply Hfresh. lia.
  - apply Hall.
  - apply Z.eqb_eq in E. lia.
  - apply Hfresh. lia.
Qed.

Lemma are_invariant_weaken from a : are_invariant from a -> are_invariant (from + 1) a.
Proof. intros [Hall Hfresh]. split; auto. intros i Hi. apply Hfresh. lia. Qed.

Lemma or_shift_next_ok tu x k :
  2 <= k -> are_ok tu -> are_ok (next_ic (or_instruction tu (Z.shiftl x k))).
Proof.
  intros Hk H. unfold are_ok. unit_cbn.
  apply are_invariant_weaken, or_shift_invariant; assumption.
Qed.

Lemma sp_first_word_ok ins tu : are_ok tu -> are_ok (sp_first_word ins tu).
Proof.
  intros H. unfold are_ok, sp_first_word. unit_cbn.
  apply are_invariant_weaken.
  repeat (apply or_shift_invariant; [lia |]). exact H.
Qed.

Lemma sp_symbol_word_ok p tu : are_ok tu -> are_ok (sp_symbol_word p tu).
Proof.
  intros H. unfold are_ok, sp_symbol_word.
  destruct (type (symbol_at tu p)); unit_cbn;
    try (apply or_shift_invariant; [lia |]);
    apply or_tag_invariant; try exact H; cbn; lia.
Qed.

Variable am_file_name : string.

Lemma sp_operand_ok ins i st :
  are_ok (sp_unit st) -> are_ok (sp_unit (sp_operand am_file_name ins i st)).
Proof.
  intros H. unfold sp_operand.
  repeat break_match; cbn [sp_unit sp_with_unit sp_error];
    auto using or_shift_next_ok, sp_symbol_word_ok with zarith;
    try (apply or_shift_next_ok; [lia |]); auto using sp_symbol_word_ok.
Qed.

Lemma sp_instruction_ok ins st :
  are_ok (sp_unit st) -> are_ok (sp_unit (sp_instruction am_file_name ins st)).
Proof.
  intros H. unfold sp_instruction. break_match.
  - cbn [sp_unit sp_with_unit]. unfold are_ok. unit_cbn.
    apply are_invariant_weaken.
    do 2 (apply or_shift_invariant; [lia |]).
    apply (sp_first_word_ok ins) in H. exact H.
  - repeat apply sp_operand_ok. cbn [sp_unit sp_with_unit].
    now apply sp_first_word_ok.
Qed.

Lemma sp_string_instructions chars tu :
  instruction_array (sp_string chars tu) = instruction_array tu
  /\ ic (sp_string chars tu) = ic tu.
Proof.
  revert tu. induction chars as [| c r IH]; intros tu; cbn [sp_string]; auto.
  destruct (IH (next_dc (or_data tu c))) as [-> ->]. auto.
Qed.

Lemma sp_data_instructions items st :
  instruction_array (sp_unit (sp_data am_file_name items st))
  = instruction_array (sp_unit st)
  /\ ic (sp_unit (sp_data am_file_name items st)) = ic (sp_unit st).
Proof.
  revert st. induction items as [| item r IH]; intros st; cbn [sp_data]; auto.
  match goal with |- context [sp_data _ r ?s] => destruct (IH s) as [-> ->] end.
  repeat break_match; auto.
Qed.

Lemma second_pass_ast_ok line_ast st :
  are_ok (sp_unit st) -> are_ok (sp_unit (second_pass_ast am_file_name line_ast st)).
Proof.
  intros H. unfold second_pass_ast.
  repeat break_match; cbn [sp_unit sp_next_line sp_with_unit];
    auto using sp_instruction_ok.
  - unfold are_ok.
    destruct (sp_data_instructions
                (firstn (Z.to_nat (operand_counter (u_directive line_ast)))
                        (dir_data (u_directive line_ast))) st) as [-> ->].
    exact H.
  - unfold are_ok. unit_cbn.
    destruct (sp_string_instructions
                (str_chars (dir_str (u_directive line_ast))) (sp_unit st)) as [-> ->].
    exact H.
Qed.

Lemma second_pass_lines_ok lines st st' :
  second_pass_lines am_file_name lines st = inl st'
  \/ second_pass_lines am_file_name lines st = inr st' ->
  are_ok (sp_unit st) -> are_ok (sp_unit st').
Proof.
  revert st. induction lines as [| line rest IH]; intros st H Hok;
    cbn [second_pass_lines] in H.
  - destruct H as [H | H]; [discriminate | now inversion H; subst].
  - unfold second_pass_line in H.
    destruct (String.eqb _ memory_allocation_failed).
    + destruct H as [H | H]; [now inversion H; subst | discriminate].
    + apply (IH _ H). now apply second_pass_ast_ok.
Qed.

End AreField.

(** C8.  Started on a zeroed instruction image, as [main] hands it over,
    [second_pass] leaves in bits 0..1 of every word of the image one of 00,
    01 and 10, never 11. *)
Theorem are_field_never_11 (curr_program : TRANSLATION_UNIT)
        (am_file_name am_file : string) (i : Z) :
  (forall j, instruction_array curr_program j = 0) ->
  In (Z.land
        (instruction_array
           (sp_unit (snd (second_pass curr_program am_file_name am_file))) i) 3)
     [0; 1; 2].
Proof.
  intros Hzero.
  assert (are_ok (sp_unit (snd (second_pass curr_program am_file_name am_file)))) as [H _].
  { unfold second_pass.
    assert (are_ok curr_program) as Hok.
    { split; intros j; [| intros _]; rewrite Hzero; cbn; [discriminate | reflexivity]. }
    destruct (second_pass_lines _ _ _) as [st | st] eqn:E; cbn [snd].
    - exact (second_pass_lines_ok _ _ _ _ (or_introl E) Hok).
    - exact (second_pass_lines_ok _ _ _ _ (or_intror E) Hok). }
  specialize (H i).
  rewrite land_3_mod in *.
  pose proof (digit_range
                (instruction_array
                   (sp_unit (snd (second_pass curr_program am_file_name am_file))) i)).
  cbn [In]. lia.
Qed.

Lemma are_field_never_11_witness :
  (forall j, instruction_array zero_unit j = 0)
  /\ In (Z.land
           (instruction_array
              (sp_unit (snd (second_pass zero_unit "foo.am" ("mov r1, r2" ++ nl)))) 1) 3)
        [0; 1; 2].
Proof.
  split; [intros j; reflexivity |].
  apply (are_field_never_11 zero_unit). intros j. reflexivity.
Defined.

(** ** The header of the object file *)

Section ObjectHeader.

Variable am_file_name : string.
Variable macro_table : MACRO_TABLE.

Lemma fp_define_label_images line_ast st st' :
  fp_define_label am_file_name macro_table line_ast st = inl st'
  \/ fp_define_label am_file_name macro_table line_ast st = inr st' ->
  images_part (fp_unit st') = images_part (fp_unit st).
Proof.
  unfold fp_define_label.
  repeat break_match; intros [H | H]; inversion H; subst; reflexivity.
Qed.

Lemma fp_advance_images line_ast st st' :
  fp_advance am_file_name macro_table line_ast st = inl st'
  \/ fp_advance am_file_name macro_table line_ast st = inr st' ->
  images_part (fp_unit st') = images_part (fp_unit st).
Proof.
  unfold fp_advance.
  repeat break_match; intros [H | H]; inversion H; subst; reflexivity.
Qed.

Lemma first_pass_line_images line st :
  match first_pass_line am_file_name macro_table line st with
  | inl r => images_part (fp_unit (fp_final r)) = images_part (fp_unit st)
  | inr st' => images_part (fp_unit st') = images_part (fp_unit st)
  end.
Proof.
  unfold first_pass_line.
  destruct (ast_type (create_ast_from_text line)); try reflexivity.
  - break_match; reflexivity.
  - destruct (fp_define_label _ _ _ st) as [s | s] eqn:E1.
    + apply (fp_define_label_images _ _ _ (or_introl E1)).
    + destruct (fp_advance _ _ _ s) as [s' | s'] eqn:E2; cbn [fp_next_line fp_unit].
      * rewrite (fp_advance_images _ _ _ (or_introl E2)).
        apply (fp_define_label_images _ _ _ (or_intror E1)).
      * rewrite (fp_advance_images _ _ _ (or_intror E2)).
        apply (fp_define_label_images _ _ _ (or_intror E1)).
  - destruct (fp_define_label _ _ _ st) as [s | s] eqn:E1.
    + apply (fp_define_label_images _ _ _ (or_introl E1)).
    + destruct (fp_advance _ _ _ s) as [s' | s'] eqn:E2; cbn [fp_next_line fp_unit].
      * rewrite (fp_advance_images _ _ _ (or_introl E2)).
        apply (fp_define_label_images _ _ _ (or_intror E1)).
      * rewrite (fp_advance_images _ _ _ (or_intror E2)).
        apply (fp_define_label_images _ _ _ (or_intror E1)).
  - repeat break_match; reflexivity.
Qed.

Lemma first_pass_lines_images lines st :
  match first_pass_lines am_file_name macro_table lines st with
  | inl r => images_part (fp_unit (fp_final r)) = images_part (fp_unit st)
  | inr st' => images_part (fp_unit st') = images_part (fp_unit st)
  end.
Proof.
  revert st. induction lines as [| line rest IH]; intros st; cbn [first_pass_lines].
  - reflexivity.
  - pose proof (first_pass_line_images line st) as H.
    destruct (first_pass_line _ _ line st) as [r | s]; [exact H |].
    specialize (IH s).
    destruct (first_pass_lines _ _ rest s); now rewrite IH.
Qed.

Lemma fp_chain_loop_images fuel chain st st' :
  fp_chain_loop fuel am_file_name chain st = Some st' ->
  images_part (fp_unit st') = images_part (fp_unit st).
Proof.
  revert chain st. induction fuel as [| fuel IH]; intros [| p next] st H;
    cbn [fp_chain_loop] in H; try discriminate; try (now inversion H).
  destruct (type (symbol_at (fp_unit st) p)) eqn:Et; apply IH in H;
    try exact H; rewrite H; unfold fp_close_symbol; rewrite Et; reflexivity.
Qed.

Lemma fp_table_loop_images fuel slots st st' :
  fp_table_loop fuel am_file_name slots st = Some st' ->
  images_part (fp_unit st') = images_part (fp_unit st).
Proof.
  revert st. induction slots as [| chain rest IH]; intros st H; cbn [fp_table_loop] in H.
  - now inversion H.
  - destruct (fp_chain_loop fuel am_file_name chain st) as [s |] eqn:E; [| discriminate].
    rewrite (IH _ H). now apply fp_chain_loop_images with fuel chain.
Qed.

(** [first_pass] leaves the images, the counters [ic] and [dc] of the
    translation unit and the externals as they are. *)
Lemma first_pass_images fuel tu am_file r :
  first_pass fuel tu am_file am_file_name macro_table = Some r ->
  images_part (fp_unit (fp_final r)) = images_part tu.
Proof.
  unfold first_pass. intros H.
  pose proof (first_pass_lines_images (read_lines MAX_LINE_LEN am_file)
                (mkFirst 100 0 NO_ERRORS 1 tu [])) as Hl.
  destruct (first_pass_lines _ _ _ _) as [r0 | st].
  - inversion H; subst. exact Hl.
  - destruct (fp_table_loop fuel am_file_name _ st) as [st' |] eqn:E; [| discriminate].
    inversion H; subst. cbn [fp_final].
    rewrite (fp_table_loop_images _ _ _ _ E). exact Hl.
Qed.

Lemma counters_le_refl tu : counters_le tu tu.
Proof. split; lia. Qed.

Lemma counters_le_trans tu1 tu2 tu3 :
  counters_le tu1 tu2 -> counters_le tu2 tu3 -> counters_le tu1 tu3.
Proof. intros [? ?] [? ?]. split; lia. Qed.

Lemma sp_symbol_word_counters p tu : counters_le tu (sp_symbol_word p tu).
Proof. unfold sp_symbol_word. break_match; split; unit_cbn; lia. Qed.

Lemma sp_operand_counters ins i st :
  counters_le (sp_unit st) (sp_unit (sp_operand am_file_name ins i st)).
Proof.
  unfold sp_operand.
  repeat break_match; unit_cbn;
    first [ apply counters_le_refl
          | apply sp_symbol_word_counters
          | split; unit_cbn; lia
          | match goal with
            | |- counters_le _ (next_ic (or_instruction (sp_symbol_word ?p ?t) _)) =>
                apply counters_le_trans with (sp_symbol_word p t);
                [apply sp_symbol_word_counters | split; unit_cbn; lia]
            end ].
Qed.

Lemma sp_instruction_counters ins st :
  counters_le (sp_unit st) (sp_unit (sp_instruction am_file_name ins st)).
Proof.
  unfold sp_instruction. break_match.
  - split; unfold sp_first_word; unit_cbn; lia.
  - eapply counters_le_trans; [| apply sp_operand_counters].
    eapply counters_le_trans; [| apply sp_operand_counters].
    split; unfold sp_first_word; unit_cbn; lia.
Qed.

Lemma sp_string_counters chars tu : counters_le tu (sp_string chars tu).
Proof.
  revert tu. induction chars as [| c r IH]; intros tu; cbn [sp_string].
  - apply counters_le_refl.
  - eapply counters_le_trans; [| apply IH]. split; unit_cbn; lia.
Qed.

Lemma sp_data_counters items st :
  counters_le (sp_unit st) (sp_unit (sp_data am_file_name items st)).
Proof.
  revert st. induction items as [| item r IH]; intros st; cbn [sp_data].
  - apply counters_le_refl.
  - eapply counters_le_trans; [| apply IH].
    repeat break_match; unit_cbn; split; unit_cbn; lia.
Qed.

Lemma second_pass_ast_counters line_ast st :
  counters_le (sp_unit st) (sp_unit (second_pass_ast am_file_name line_ast st)).
Proof.
  unfold second_pass_ast.
  repeat break_match; unit_cbn;
    try apply counters_le_refl; try apply sp_instruction_counters;
    try apply sp_data_counters.
  match goal with
  | |- counters_le ?t (next_dc (sp_string ?c ?t)) =>
      apply counters_le_trans with (sp_string c t);
      [apply sp_string_counters | split; unit_cbn; lia]
  end.
Qed.

Lemma second_pass_lines_counters lines st st' :
  second_pass_lines am_file_name lines st = inl st'
  \/ second_pass_lines am_file_name lines st = inr st' ->
  counters_le (sp_unit st) (sp_unit st').
Proof.
  revert st. induction lines as [| line rest IH]; intros st H;
    cbn [second_pass_lines] in H.
  - destruct H as [H | H]; [discriminate | inversion H; apply counters_le_refl].
  - unfold second_pass_line in H.
    destruct (String.eqb _ memory_allocation_failed).
    + destruct H as [H | H]; [inversion H; apply counters_le_refl | discriminate].
    + eapply counters_le_trans; [apply second_pass_ast_counters | apply (IH _ H)].
Qed.

Lemma length_upto (n : Z) : 0 <= n -> Z.of_nat (List.length (upto n)) = n.
Proof. intros Hn. unfold upto. rewrite length_map, length_seq. lia. Qed.

End ObjectHeader.

(** C2, as stated, fails: with no instruction and three data words the header
    is two spaces, 0, a space, 3; it is not built from 100 plus the number of
    instruction words. *)
Lemma header_of_constant_and_data :
  exists out header rest,
    main_file 5 "foo" constant_and_data = Some out
    /\ out_ob out = Some (header :: rest)
    /\ header = "  0 3" ++ nl
    /\ header <> "  " ++ fmt_d (100 + 0) ++ " " ++ fmt_d 3 ++ nl.
Proof.
  eexists. eexists. eexists.
  split; [vm_compute; reflexivity |].
  split; [reflexivity |].
  split; [reflexivity | vm_compute; discriminate].
Qed.

(** C2, amended.  For every file that reaches emission, the [.ob] file is a
    header followed by the lines of the instruction words and then those of
    the data words; the header is two spaces, [ic], one space, [dc] and a
    newline, where [ic] is the number of instruction-word lines and [dc] the
    number of data-word lines. *)
Theorem ob_header_counts (fuel : nat) (file_name as_file : string) (out : OUTPUT)
        (ob : list string) :
  main_file fuel file_name as_file = Some out ->
  out_ob out = Some ob ->
  exists tu,
    ob = ob_header tu :: ob_instruction_lines tu ++ ob_data_lines tu
    /\ ob_header tu = "  " ++ fmt_d (ic tu) ++ " " ++ fmt_d (dc tu) ++ nl
    /\ ic tu = Z.of_nat (List.length (ob_instruction_lines tu))
    /\ dc tu = Z.of_nat (List.length (ob_data_lines tu)).
Proof.
  unfold main_file. intros H Hob.
  destruct (am_file_name (pre_assembly file_name as_file empty_macro_table))
    as [am_name |]; [| inversion H; subst; discriminate].
  destruct (am_file (pre_assembly file_name as_file empty_macro_table))
    as [am |]; [| inversion H; subst; discriminate].
  destruct (first_pass fuel zero_unit am am_name _) as [r1 |] eqn:E1; [| discriminate].
  destruct (fp_return r1 =? NO_ERRORS); [| inversion H; subst; discriminate].
  destruct (second_pass (fp_unit (fp_final r1)) am_name am) as [flag st2] eqn:E2.
  destruct (flag =? NO_ERRORS); [| inversion H; subst; discriminate].
  cbn [create_object_file] in H. inversion H; subst out; clear H.
  cbn [out_ob] in Hob. inversion Hob; subst ob; clear Hob.
  exists (sp_unit st2).
  assert (counters_le (fp_unit (fp_final r1)) (sp_unit st2)) as [Hic Hdc].
  { unfold second_pass in E2.
    destruct (second_pass_lines _ _ _) as [s | s] eqn:E; inversion E2; subst.
    - exact (second_pass_lines_counters _ _ _ _ (or_introl E)).
    - exact (second_pass_lines_counters _ _ _ _ (or_intror E)). }
  pose proof (first_pass_images _ _ _ _ _ _ E1) as Himg.
  pose proof (f_equal (fun x => snd (fst (fst (fst x)))) Himg) as Hic0.
  pose proof (f_equal (fun x => snd (fst (fst x))) Himg) as Hdc0.
  cbn [images_part fst snd] in Hic0, Hdc0.
  rewrite Hic0 in Hic. rewrite Hdc0 in Hdc. cbn [ic dc zero_unit] in Hic, Hdc.
  split; [reflexivity |]. split; [reflexivity |].
  unfold ob_instruction_lines, ob_data_lines. rewrite !length_map.
  rewrite !length_upto by assumption. split; reflexivity.
Qed.

Lemma ob_header_counts_witness :
  exists tu,
    constant_and_data_ob = ob_header tu :: ob_instruction_lines tu ++ ob_data_lines tu
    /\ ob_header tu = "  " ++ fmt_d (ic tu) ++ " " ++ fmt_d (dc tu) ++ nl
    /\ ic tu = Z.of_nat (List.length (ob_instruction_lines tu))
    /\ dc tu = Z.of_nat (List.length (ob_data_lines tu)).
Proof.
  apply (ob_header_counts 5 "foo" constant_and_data constant_and_data_output).
  - vm_compute. reflexivity.
  - reflexivity.
Defined.

(** ** The destination operand of [jmp], [bne] and [jsr] *)

Section JumpOperand.

(** A word that is the name of a register is one of the ten names. *)
Lemma is_register_names word :
  is_register word <> -1 -> In word registers.
Proof.
  unfold is_register, registers. cbn [index_of In].
  repeat match goal with
         | |- context [String.eqb word ?s] =>
             destruct (String.eqb_spec word s) as [-> | _];
             [intros _; repeat (first [left; reflexivity | right]) |]
         end.
  intros H. now contradiction H.
Qed.

(** A word with a bracket has a character that is neither a letter nor a
    digit. *)
Lemma alnum_prefix_bracket word p :
  split_at "[" word = Some p -> alnum_prefix (String.length word) word = false.
Proof.
  revert p. induction word as [| c w IH]; intros p H; cbn [split_at] in H.
  - discriminate.
  - cbn [String.length alnum_prefix].
    destruct (Ascii.eqb_spec c "[") as [-> | _].
    + reflexivity.
    + destruct (split_at "[" w) as [[b a] |] eqn:E; [| discriminate].
      rewrite (IH _ eq_refl). apply andb_false_r.
Qed.

Lemma bracket_word_no_label word p :
  split_at "[" word = Some p ->
  is_label word operand_label = SYNTAX_OR_LOGIC_ERROR /\ is_register word = -1.
Proof.
  intros H. split.
  - unfold is_label.
    destruct (_ || _ || _); [reflexivity |].
    unfold strlen. rewrite Nat2Z.id, (alnum_prefix_bracket _ _ H). reflexivity.
  - destruct (Z.eq_dec (is_register word) (-1)) as [E | E]; [exact E |].
    apply is_register_names in E. cbn [registers In] in E.
    repeat (destruct E as [<- | E]; [discriminate H |]). contradiction.
Qed.

Lemma immediate_word_no_label word :
  first_char word = "#"%char ->
  is_label word operand_label = SYNTAX_OR_LOGIC_ERROR /\ is_register word = -1.
Proof.
  intros H. split.
  - unfold is_label. rewrite H.
    change (negb (isalpha "#")) with true.
    rewrite orb_true_r. reflexivity.
  - destruct (Z.eq_dec (is_register word) (-1)) as [E | E]; [exact E |].
    apply is_register_names in E. cbn [registers In] in E.
    repeat (destruct E as [<- | E]; [discriminate H |]). contradiction.
Qed.

Lemma register_word_shape word :
  is_register word <> -1 ->
  Ascii.eqb (first_char word) "#" = false
  /\ is_label word operand_label = SYNTAX_OR_LOGIC_ERROR
  /\ split_at "[" word = None.
Proof.
  intros E. apply is_register_names in E. cbn [registers In] in E.
  repeat (destruct E as [<- | E]; [repeat split; reflexivity |]). contradiction.
Qed.

(** The if-chain on the destination of a jump: anything that is neither the
    name of a label nor that of a register is refused. *)
Lemma classify_jump_operand word ast :
  jump_op (inst_type (u_instruction ast)) ->
  is_label word operand_label = SYNTAX_OR_LOGIC_ERROR ->
  is_register word = -1 ->
  exists ast',
    classify_operand DESTINATION_OPERAND word ast = inl ast'
    /\ error_detail ast' = inappropriate_operand.
Proof.
  intros Hty Hlabel Hreg. unfold classify_operand.
  rewrite Hlabel, Hreg.
  assert (((DESTINATION_OPERAND =? DESTINATION_OPERAND)
           && negb (inst_type (u_instruction ast) =? cmp)
           && negb (inst_type (u_instruction ast) =? prn)) = true) as Himm
      by (destruct Hty as [-> | [-> | ->]]; reflexivity).
  assert (((DESTINATION_OPERAND =? DESTINATION_OPERAND)
           && ((inst_type (u_instruction ast) =? jmp)
               || (inst_type (u_instruction ast) =? bne)
               || (inst_type (u_instruction ast) =? jsr))) = true) as Hjump
      by (destruct Hty as [-> | [-> | ->]]; reflexivity).
  rewrite Himm, Hjump. cbn [orb negb Z.eqb SYNTAX_OR_LOGIC_ERROR].
  destruct (Ascii.eqb (first_char word) "#").
  - eexists. split; reflexivity.
  - destruct (is_label_with_index word _) as [res slot'].
    destruct (negb (res =? SYNTAX_OR_LOGIC_ERROR)); eexists; split; reflexivity.
Qed.

Lemma jump_operand_count ty :
  jump_op ty ->
  (if ty >=? rts then MAX_INST_OPERANDS
   else if one_operand_op ty then DESTINATION_OPERAND else SOURCE_OPERAND)
  = DESTINATION_OPERAND.
Proof. intros [-> | [-> | ->]]; reflexivity. Qed.

(** At the level of whole lines. *)
Example jump_lines_refused :
  map (fun line => (ast_type (create_ast_from_text line),
                    error_detail (create_ast_from_text line)))
      ["jmp #5" ++ nl; "bne ARR[2]" ++ nl; "jsr #K" ++ nl; "jmp 5x" ++ nl]
  = repeat (error, inappropriate_operand) 4.
Proof. vm_compute. reflexivity. Qed.

End JumpOperand.

(** C7, as stated, fails: [jmp r1] is parsed as an instruction whose
    destination is a register, with no error. *)
Lemma jmp_register_is_accepted :
  let ast := create_ast_from_text ("jmp r1" ++ nl) in
  ast_type ast = inst
  /\ inst_type (u_instruction ast) = jmp
  /\ op_type (operand1 (u_instruction ast)) = reg
  /\ error_detail ast <> inappropriate_operand.
Proof. vm_compute. repeat split; discriminate. Qed.

(** C7, amended.  For [jmp], [bne] and [jsr], [check_inst_operand] returns
    the error "the operation type received an operand of an inappropriate
    type" whenever the destination operand is neither the name of a label nor
    that of a register, in particular when it is an immediate or a label with
    an index; the name of a register is accepted as destination. *)
Theorem jump_operand_checked (line : string) (ast : LINE_AST) (word rest : string) :
  jump_op (inst_type (u_instruction ast)) ->
  get_word line = (Some word, rest) ->
  (first_char word = "#"%char
   \/ is_some (split_at "[" word) = true
   \/ (is_label word operand_label = SYNTAX_OR_LOGIC_ERROR /\ is_register word = -1) ->
   exists line' ast',
     check_inst_operand line ast = (line_type_code error, line', ast')
     /\ error_detail ast' = inappropriate_operand)
  /\ (is_register word <> -1 ->
      exists ast',
        check_inst_operand line ast = (NO_ERRORS, rest, ast')
        /\ op_type (operand1 (u_instruction ast')) = reg
        /\ op_num (operand1 (u_instruction ast')) = is_register word).
Proof.
  intros Hty Hword.
  unfold check_inst_operand. rewrite (jump_operand_count _ Hty).
  change (Z.to_nat (MAX_INST_OPERANDS - DESTINATION_OPERAND)) with 1%nat.
  cbn [inst_operand_loop]. unfold inst_operand_round. rewrite Hword.
  split.
  - intros H.
    assert (is_label word operand_label = SYNTAX_OR_LOGIC_ERROR /\ is_register word = -1)
      as [Hlabel Hreg].
    { destruct H as [H | [H | H]].
      - now apply immediate_word_no_label.
      - destruct (split_at "[" word) as [p |] eqn:E; [| discriminate].
        now apply bracket_word_no_label with p.
      - exact H. }
    destruct (classify_jump_operand word ast Hty Hlabel Hreg) as [ast' [-> Hdetail]].
    eauto.
  - intros Hreg.
    destruct (register_word_shape word Hreg) as [Hsharp [Hlabel Hsplit]].
    unfold classify_operand, is_label_with_index.
    rewrite Hsharp, Hlabel, Hsplit.
    cbn [negb Z.eqb SYNTAX_OR_LOGIC_ERROR].
    destruct (is_register word =? -1) eqn:E; [apply Z.eqb_eq in E; contradiction |].
    cbn [negb andb Z.eqb DESTINATION_OPERAND SOURCE_OPERAND].
    eexists. split; [reflexivity |]. split; reflexivity.
Qed.

Lemma jump_operand_checked_witness :
  let ast := with_instruction zero_ast (mkInstruction jmp zero_operand zero_operand) in
  (exists line' ast',
      check_inst_operand (" #5" ++ nl) ast = (line_type_code error, line', ast')
      /\ error_detail ast' = inappropriate_operand)
  /\ (exists ast',
         check_inst_operand (" r1" ++ nl) ast = (NO_ERRORS, nl, ast')
         /\ op_type (operand1 (u_instruction ast')) = reg
         /\ op_num (operand1 (u_instruction ast')) = is_register "r1").
Proof.
  cbv zeta. split.
  - apply (jump_operand_checked (" #5" ++ nl) _ "#5" nl).
    + left. reflexivity.
    + reflexivity.
    + left. reflexivity.
  - apply (jump_operand_checked (" r1" ++ nl) _ "r1" nl).
    + left. reflexivity.
    + reflexivity.
    + vm_compute. discriminate.
Defined.

(** ** Lines met while a macro is being recorded *)

Section MacroRecording.

Lemma nth_set_nth_same {A : Type} (l : list A) (p : nat) (x d : A) :
  (p < List.length l)%nat -> nth p (set_nth p x l) d = x.
Proof.
  revert p. induction l as [| y r IH]; intros [| p] H; cbn in *; try lia; auto.
  apply IH. lia.
Qed.

Lemma nth_set_nth_other {A : Type} (l : list A) (p q : nat) (x d : A) :
  q <> p -> nth q (set_nth p x l) d = nth q l d.
Proof.
  revert p q. induction l as [| y r IH]; intros [| p] [| q] H; cbn; auto; lia.
Qed.

Variable file_name : string.
Variable line_num : Z.

(** On an ordinary line and on a comment [line_identifier] leaves [*mcr_ptr]
    and the table as they are and prints nothing. *)
Lemma line_identifier_loop_other words word_cnt mcr_definition end_mcr name0 mcr_ptr t :
  let r := line_identifier_loop words word_cnt mcr_definition end_mcr name0 mcr_ptr t
                                file_name line_num in
  id_type r = any_other_line \/ id_type r = note_sentence ->
  id_mcr_ptr r = mcr_ptr /\ id_table r = t /\ id_printed r = [].
Proof.
  revert word_cnt mcr_definition end_mcr name0.
  induction words as [| word rest IH]; intros word_cnt mcr_definition end_mcr name0;
    cbn [line_identifier_loop].
  - repeat break_match; cbn; intros [H | H]; try discriminate; auto.
  - cbv zeta in IH.
    repeat break_match; cbn [id_type id_mcr_ptr id_table id_printed];
      intros H; try (destruct H; discriminate); auto.
Qed.


End MacroRecording.


(** ** Lines of more than 80 characters *)

(** C4 at a failing input: a line of a hundred letters is not refused.  No
    end of line is found in the 81 characters read, yet nothing is printed,
    the [.am] file is kept and its name is returned. *)
Theorem long_line_is_not_refused :
  option_map (fun l => strchr (fst l) newline) (fgets MAX_LINE_LEN long_line) = Some false
  /\ pre_assembly "foo" long_line empty_macro_table
     = mkPreResult (Some "foo.am") (Some long_line) empty_macro_table [].
Proof. vm_compute. split; reflexivity. Qed.

(** ** Entries that are never defined *)

Section PendingEntry.

Variable am_file_name : string.

(** The loop over a chain never ends once [sym_ptr] is at an entry without
    definition. *)
Lemma fp_chain_loop_pending fuel p next st :
  pending (fp_unit st) p ->
  fp_chain_loop fuel am_file_name (p :: next) st = None.
Proof.
  unfold pending.
  revert st. induction fuel as [| fuel IH]; intros st H; cbn [fp_chain_loop].
  - reflexivity.
  - rewrite H. apply IH. exact H.
Qed.

Lemma fp_chain_loop_nil fuel st : fp_chain_loop fuel am_file_name [] st = Some st.
Proof. destruct fuel; reflexivity. Qed.

Lemma set_nth_beyond {A : Type} (l : list A) (p : nat) (x : A) :
  (List.length l <= p)%nat -> set_nth p x l = l.
Proof.
  revert p. induction l as [| y r IH]; intros [| p] H; cbn in *; auto; try lia.
  f_equal. apply IH. lia.
Qed.

(** A store that keeps the type of the symbol it goes to keeps the type of
    every symbol. *)
Lemma store_symbol_type tu p s q :
  type s = type (symbol_at tu p) ->
  type (symbol_at (store_symbol tu p s) q) = type (symbol_at tu q).
Proof.
  intros Hs. unfold symbol_at, store_symbol in *. cbn [symbol_heap with_symbols].
  destruct (Nat.eq_dec q p) as [-> | Hq].
  - destruct (Nat.lt_ge_cases p (List.length (symbol_heap tu))) as [Hp | Hp].
    + rewrite nth_set_nth_same by assumption. exact Hs.
    + rewrite set_nth_beyond by assumption. reflexivity.
  - rewrite nth_set_nth_other by assumption. reflexivity.
Qed.

(** The body of the closing loop keeps the type of every symbol. *)
Lemma fp_close_symbol_type p st q :
  type (symbol_at (fp_unit (fp_close_symbol p st)) q) = type (symbol_at (fp_unit st) q).
Proof.
  unfold fp_close_symbol.
  destruct (type (symbol_at (fp_unit st) p)) eqn:Et;
    cbn [fp_unit fp_with_unit]; try reflexivity;
    try (change (symbol_at (with_entries ?t ?l ?c) q) with (symbol_at t q));
    apply store_symbol_type; cbn [type]; now rewrite Et.
Qed.

(** If the loop over a chain ends, no symbol changed its type and no symbol
    of the chain was an entry without definition. *)
Lemma fp_chain_loop_types fuel chain st st' :
  fp_chain_loop fuel am_file_name chain st = Some st' ->
  (forall q, type (symbol_at (fp_unit st') q) = type (symbol_at (fp_unit st) q))
  /\ (forall p, In p chain -> ~ pending (fp_unit st) p).
Proof.
  revert chain st. induction fuel as [| fuel IH]; intros [| p next] st H;
    cbn [fp_chain_loop] in H; try discriminate;
    try (inversion H; subst; split; [reflexivity | intros ? []]).
  destruct (type (symbol_at (fp_unit st) p)) eqn:Et;
    try (rewrite fp_chain_loop_pending in H by exact Et; discriminate);
    apply IH in H; destruct H as [H1 H2]; unfold pending in *;
    (split;
     [ intros q; rewrite H1; apply fp_close_symbol_type
     | intros q [<- | Hq];
       [ rewrite Et; discriminate
       | intros C; apply (H2 q Hq); now rewrite fp_close_symbol_type ] ]).
Qed.

Lemma fp_table_loop_types fuel slots st st' :
  fp_table_loop fuel am_file_name slots st = Some st' ->
  forall chain p, In chain slots -> In p chain -> ~ pending (fp_unit st) p.
Proof.
  revert st. induction slots as [| c rest IH]; intros st H chain p Hc Hp;
    cbn [fp_table_loop] in H; [destruct Hc |].
  destruct (fp_chain_loop fuel am_file_name c st) as [s |] eqn:E; [| discriminate].
  destruct (fp_chain_loop_types _ _ _ _ E) as [T1 T2].
  destruct Hc as [-> | Hc].
  - now apply T2.
  - intros C. apply (IH _ H chain p Hc Hp). unfold pending in *. now rewrite T1.
Qed.

(** Whenever an entry without definition is left in the table once the lines
    are read, [first_pass] does not return. *)
Lemma pending_entry_diverges fuel tu am_file macro_table st chain p :
  first_pass_lines am_file_name macro_table (read_lines MAX_LINE_LEN am_file)
                   (mkFirst 100 0 NO_ERRORS 1 tu []) = inr st ->
  In chain (symbol_table (fp_unit st)) ->
  In p chain ->
  pending (fp_unit st) p ->
  first_pass fuel tu am_file am_file_name macro_table = None.
Proof.
  intros E Hc Hp Hpending. unfold first_pass. rewrite E.
  destruct (fp_table_loop fuel am_file_name _ st) as [st' |] eqn:El; [| reflexivity].
  exfalso. exact (fp_table_loop_types _ _ _ _ El chain p Hc Hp Hpending).
Qed.

Lemma fp_chain_loop_ends chain fuel st :
  (forall p, In p chain -> ~ pending (fp_unit st) p) ->
  (List.length chain <= fuel)%nat ->
  exists st', fp_chain_loop fuel am_file_name chain st = Some st'.
Proof.
  revert fuel st. induction chain as [| p next IH]; intros fuel st Hno Hfuel.
  - exists st. apply fp_chain_loop_nil.
  - destruct fuel as [| fuel]; cbn [List.length] in Hfuel; [lia |].
    cbn [fp_chain_loop].
    assert (~ pending (fp_unit st) p) as Hp by (apply Hno; now left).
    unfold pending in *.
    destruct (type (symbol_at (fp_unit st) p)) eqn:Et; try (now contradiction Hp);
      apply IH; try lia;
      intros q Hq; rewrite fp_close_symbol_type; apply Hno; now right.
Qed.

Lemma fp_table_loop_ends slots fuel st :
  (forall chain p, In chain slots -> In p chain -> ~ pending (fp_unit st) p) ->
  (forall chain, In chain slots -> (List.length chain <= fuel)%nat) ->
  exists st', fp_table_loop fuel am_file_name slots st = Some st'.
Proof.
  revert st. induction slots as [| c rest IH]; intros st Hno Hfuel; cbn [fp_table_loop].
  - eauto.
  - destruct (fp_chain_loop_ends c fuel st) as [s E].
    + intros p Hp. apply (Hno c p); auto. now left.
    + apply Hfuel. now left.
    + rewrite E. destruct (fp_chain_loop_types _ _ _ _ E) as [T1 _].
      apply IH.
      * intros chain p Hc Hp. unfold pending. rewrite T1.
        apply (Hno chain p); auto. now right.
      * intros chain Hc. apply Hfuel. now right.
Qed.

Lemma length_chain_concat (slots : list (list nat)) chain :
  In chain slots -> (List.length chain <= List.length (List.concat slots))%nat.
Proof.
  induction slots as [| c rest IH]; intros H; [destruct H |].
  cbn [List.concat]. rewrite length_app. destruct H as [-> | H]; [lia |].
  specialize (IH H). lia.
Qed.

(** Without an entry that is left undefined, [first_pass] returns: the
    closing loop runs its body once for every symbol of the table. *)
Lemma first_pass_returns tu am_file macro_table st :
  first_pass_lines am_file_name macro_table (read_lines MAX_LINE_LEN am_file)
                   (mkFirst 100 0 NO_ERRORS 1 tu []) = inr st ->
  (forall chain p, In chain (symbol_table (fp_unit st)) -> In p chain ->
                   ~ pending (fp_unit st) p) ->
  exists r,
    first_pass (List.length (List.concat (symbol_table (fp_unit st)))) tu am_file
               am_file_name macro_table = Some r.
Proof.
  intros E Hno. unfold first_pass. rewrite E.
  destruct (fp_table_loop_ends (symbol_table (fp_unit st))
              (List.length (List.concat (symbol_table (fp_unit st)))) st Hno
              (length_chain_concat _)) as [st' ->].
  eauto.
Qed.

End PendingEntry.

(** C5 at a failing input: on a file whose only line is [.entry X],
    [first_pass] does not return, however many rounds its closing loop is
    given. *)
Theorem pending_entry_never_returns (fuel : nat) :
  first_pass fuel zero_unit (".entry X" ++ nl) "foo.am" empty_macro_table = None.
Proof.
  eapply (pending_entry_diverges "foo.am" fuel zero_unit _ _ _ [0%nat] 0%nat).
  - vm_compute. reflexivity.
  - vm_compute. repeat (first [left; reflexivity | right]).
  - left. reflexivity.
  - reflexivity.
Qed.

(** ** The shape of the lines that the parser accepts *)

Section ParsedLines.

(** Projections of the tree out of its updates. *)
Ltac ast_cbn :=
  cbn [error_detail ast_label ast_type u_directive u_instruction u_constant
       with_error_detail with_label with_type with_directive with_instruction
       with_constant with_operand set_operand_at operand_at
       dir_type operand_counter dir_data dir_str label_operand
       with_dir_type with_label_operand with_dir_str push_data with_inst_type
       inst_type operand0 operand1 op_type op_num op_label op_constant_name
       with_op_type with_op_num with_op_label with_op_constant_name
       constant_name constant_num fst snd].

Ltac ast_cbn_in H :=
  cbn [error_detail ast_label ast_type u_directive u_instruction u_constant
       with_error_detail with_label with_type with_directive with_instruction
       with_constant with_operand set_operand_at operand_at
       dir_type operand_counter dir_data dir_str label_operand
       with_dir_type with_label_operand with_dir_str push_data with_inst_type
       inst_type operand0 operand1 op_type op_num op_label op_constant_name
       with_op_type with_op_num with_op_label with_op_constant_name
       constant_name constant_num fst snd] in H.

Ltac solve_preserved :=
  repeat break_match; intros H; inversion H; subst; clear H; ast_cbn; auto.

Lemma index_of_range word table i :
  index_of word table i <> -1 ->
  i <= index_of word table i < i + Z.of_nat (List.length table).
Proof.
  revert i. induction table as [| t ts IH]; intros i H; cbn [index_of] in *.
  - contradiction.
  - cbn [List.length]. destruct (String.eqb word t); [lia |].
    specialize (IH (i + 1) H). lia.
Qed.

Lemma line_type_of_word_type word_cnt word ast t a :
  line_type_of_word word_cnt word ast = (t, a) ->
  ast_label a = ast_label ast
  /\ u_constant a = u_constant ast
  /\ (t = inst ->
      error_detail a = error_detail ast
      /\ u_instruction a
         = mkInstruction (is_operation word) (operand0 (u_instruction ast))
                         (operand1 (u_instruction ast))
      /\ is_operation word <> -1)
  /\ (t = dir ->
      error_detail a = error_detail ast
      /\ operand_counter (u_directive a) = operand_counter (u_directive ast)
      /\ dir_data (u_directive a) = dir_data (u_directive ast))
  /\ (t = constant_def -> word_cnt = 1 /\ a = ast).
Proof.
  unfold line_type_of_word.
  repeat break_match; intros H; inversion H; subst; clear H; ast_cbn;
    repeat split; try discriminate; auto.
  - destruct (Z.eqb_spec (is_operation word) (-1)); [discriminate | assumption].
  - now apply Z.eqb_eq.
Qed.

(** What [check_line_type] hands over on a zeroed tree. *)
Lemma check_line_type_zero line t line' a :
  check_line_type line zero_ast = (t, line', a) ->
  (t = inst ->
   error_detail a = ""
   /\ exists opcode,
       0 <= opcode <= 15
       /\ u_instruction a = mkInstruction opcode zero_operand zero_operand)
  /\ (t = dir ->
      error_detail a = ""
      /\ operand_counter (u_directive a) = 0 /\ dir_data (u_directive a) = [])
  /\ (t = constant_def -> a = zero_ast).
Proof.
  unfold check_line_type, line_type_at_end.
  destruct (Ascii.eqb (first_char line) ";").
  { intros H; inversion H; subst. repeat split; discriminate. }
  destruct (get_word line) as [[word1 |] line1].
  2:{ cbn. intros H; inversion H; subst. repeat split; discriminate. }
  destruct (is_label word1 pre_line_label =? NO_ERRORS).
  - destruct (get_word line1) as [[word2 |] line2].
    2:{ cbn. intros H; inversion H; subst. repeat split; discriminate. }
    destruct (line_type_of_word 2 word2 _) as [t2 a2] eqn:E.
    intros H; inversion H; subst; clear H.
    destruct (line_type_of_word_type _ _ _ _ _ E) as [Hl [Hc [Hi [Hd Hk]]]].
    split; [| split].
    + intros Ht. destruct (Hi Ht) as [He [Hu Hop]]. split; [exact He |].
      exists (is_operation word2). split; [| exact Hu].
      pose proof (index_of_range word2 operations 0 Hop) as R.
      change (Z.of_nat (List.length operations)) with 16 in R.
      unfold is_operation. lia.
    + intros Ht. destruct (Hd Ht) as [He [H1 H2]]. auto.
    + intros Ht. destruct (Hk Ht) as [Hcnt _]. discriminate.
  - destruct (line_type_of_word 1 word1 zero_ast) as [t1 a1] eqn:E.
    intros H; inversion H; subst; clear H.
    destruct (line_type_of_word_type _ _ _ _ _ E) as [Hl [Hc [Hi [Hd Hk]]]].
    split; [| split].
    + intros Ht. destruct (Hi Ht) as [He [Hu Hop]]. split; [exact He |].
      exists (is_operation word1). split; [| exact Hu].
      pose proof (index_of_range word1 operations 0 Hop) as R.
      change (Z.of_nat (List.length operations)) with 16 in R.
      unfold is_operation. lia.
    + intros Ht. destruct (Hd Ht) as [He [H1 H2]]. auto.
    + intros Ht. destruct (Hk Ht) as [_ ->]. reflexivity.
Qed.

Lemma data_operands_loop_count fuel line comma_cnt op_cnt ast flag line' a :
  data_operands_loop fuel line comma_cnt op_cnt ast = (flag, line', a) ->
  op_cnt = Z.of_nat (List.length (dir_data (u_directive ast))) ->
  operand_counter (u_directive ast) = op_cnt ->
  operand_counter (u_directive a) = Z.of_nat (List.length (dir_data (u_directive a))).
Proof.
  revert line comma_cnt op_cnt ast.
  induction fuel as [| fuel IH]; intros line comma_cnt op_cnt ast;
    cbn [data_operands_loop].
  - repeat break_match; intros H; inversion H; subst; clear H; ast_cbn; congruence.
  - repeat break_match; intros H;
      try (inversion H; subst; clear H; ast_cbn; congruence);
      intros H1 H2; apply IH in H; auto; ast_cbn;
      rewrite ?length_app; cbn [List.length]; lia.
Qed.

(** The operand checks never change the type or the label of the tree. *)
Lemma data_operands_loop_kept fuel line comma_cnt op_cnt ast flag line' a :
  data_operands_loop fuel line comma_cnt op_cnt ast = (flag, line', a) ->
  ast_type a = ast_type ast /\ ast_label a = ast_label ast
  /\ dir_type (u_directive a) = dir_type (u_directive ast).
Proof.
  revert line comma_cnt op_cnt ast.
  induction fuel as [| fuel IH]; intros line comma_cnt op_cnt ast;
    cbn [data_operands_loop].
  - solve_preserved.
  - repeat break_match; intros H;
      try (inversion H; subst; clear H; ast_cbn; now auto);
      apply IH in H; ast_cbn_in H; exact H.
Qed.

Lemma check_dir_operand_kept line ast flag line' a :
  check_dir_operand line ast = (flag, line', a) ->
  ast_type a = ast_type ast /\ ast_label a = ast_label ast
  /\ dir_type (u_directive a) = dir_type (u_directive ast).
Proof.
  unfold check_dir_operand.
  repeat break_match; intros H;
    try (inversion H; subst; clear H; ast_cbn; repeat split; congruence);
    apply data_operands_loop_kept in H; destruct H as [? [? ?]];
    repeat split; congruence.
Qed.

Lemma check_constant_def_operand_kept line ast flag line' a :
  check_constant_def_operand line ast = (flag, line', a) ->
  ast_type a = ast_type ast /\ ast_label a = ast_label ast.
Proof. unfold check_constant_def_operand. solve_preserved. Qed.

(** An operand that [check_inst_operand] accepts is stored with a type other
    than [none]; the other operand, the opcode, the type and the label of the
    tree are left as they are. *)
Lemma classify_operand_stored operand_cnt word ast ast' :
  classify_operand operand_cnt word ast = inr ast' ->
  ast_type ast' = ast_type ast
  /\ ast_label ast' = ast_label ast
  /\ inst_type (u_instruction ast') = inst_type (u_instruction ast)
  /\ op_type (operand_at (u_instruction ast') operand_cnt) <> none
  /\ operand_at (u_instruction ast') (other_operand operand_cnt)
     = operand_at (u_instruction ast) (other_operand operand_cnt).
Proof.
  unfold classify_operand, other_operand, with_operand, set_operand_at, operand_at.
  repeat break_match; intros H; inversion H; subst; clear H; cbn;
    repeat split; try discriminate; auto.
Qed.

Lemma inst_operand_round_stored operand_cnt line ast line' ast' :
  inst_operand_round operand_cnt line ast = inr (line', ast') ->
  ast_type ast' = ast_type ast
  /\ ast_label ast' = ast_label ast
  /\ inst_type (u_instruction ast') = inst_type (u_instruction ast)
  /\ op_type (operand_at (u_instruction ast') operand_cnt) <> none
  /\ operand_at (u_instruction ast') (other_operand operand_cnt)
     = operand_at (u_instruction ast) (other_operand operand_cnt).
Proof.
  unfold inst_operand_round.
  destruct (get_word line) as [[word |] line1]; [| discriminate].
  destruct (classify_operand operand_cnt word ast) as [a | a] eqn:E; [discriminate |].
  apply classify_operand_stored in E.
  repeat break_match; intros H; inversion H; subst; exact E.
Qed.

Lemma inst_operand_round_refused operand_cnt line ast r :
  inst_operand_round operand_cnt line ast = inl r ->
  fst (fst r) = line_type_code error
  /\ ast_type (snd r) = ast_type ast /\ ast_label (snd r) = ast_label ast.
Proof.
  unfold inst_operand_round.
  destruct (get_word line) as [[word |] line1].
  - destruct (classify_operand operand_cnt word ast) as [a | a] eqn:E.
    + intros H; inversion H; subst; clear H. cbn.
      revert E. unfold classify_operand.
      repeat break_match; intros H; inversion H; subst; cbn; auto.
    + apply classify_operand_stored in E. destruct E as [E1 [E2 _]].
      repeat break_match; intros H; inversion H; subst; cbn; auto.
  - intros H; inversion H; subst. cbn. auto.
Qed.

Lemma check_inst_operand_shape line ast flag line' a opcode :
  0 <= opcode <= 15 ->
  u_instruction ast = mkInstruction opcode zero_operand zero_operand ->
  check_inst_operand line ast = (flag, line', a) ->
  ast_type a = ast_type ast /\ ast_label a = ast_label ast
  /\ (flag <> line_type_code error -> well_shaped (u_instruction a)).
Proof.
  intros Hop Hu. unfold check_inst_operand, well_shaped. rewrite Hu. cbn [inst_type].
  destruct (opcode >=? rts) eqn:Erts.
  - cbn. intros H; inversion H; subst. rewrite Hu. cbn. rewrite Erts. auto.
  - destruct (one_operand_op opcode) eqn:Eone.
    + change (Z.to_nat (MAX_INST_OPERANDS - DESTINATION_OPERAND)) with 1%nat.
      cbn [inst_operand_loop].
      destruct (inst_operand_round DESTINATION_OPERAND line ast) as [r | [l1 a1]] eqn:E.
      * apply inst_operand_round_refused in E. destruct E as [E1 [E2 E3]].
        intros ->. cbn in E1, E2, E3.
        split; [auto | split; [auto | intros C; contradiction]].
      * apply inst_operand_round_stored in E.
        destruct E as [E1 [E2 [E3 [E4 E5]]]].
        intros H; inversion H; subst.
        split; [auto | split; [auto | intros _]].
        rewrite E3, Hu. cbn [inst_type]. rewrite Erts, Eone.
        split; [exact Hop |].
        unfold other_operand, operand_at in E4, E5. cbn in E4, E5.
        rewrite Hu in E5. cbn in E5. rewrite E5. auto.
    + change (Z.to_nat (MAX_INST_OPERANDS - SOURCE_OPERAND)) with 2%nat.
      cbn [inst_operand_loop].
      destruct (inst_operand_round SOURCE_OPERAND line ast) as [r | [l1 a1]] eqn:E.
      * apply inst_operand_round_refused in E. destruct E as [E1 [E2 E3]].
        intros ->. cbn in E1, E2, E3.
        split; [auto | split; [auto | intros C; contradiction]].
      * apply inst_operand_round_stored in E.
        destruct E as [E1 [E2 [E3 [E4 E5]]]].
        change (SOURCE_OPERAND + 1) with DESTINATION_OPERAND.
        destruct (inst_operand_round DESTINATION_OPERAND l1 a1) as [r | [l2 a2]] eqn:E'.
        -- apply inst_operand_round_refused in E'. destruct E' as [F1 [F2 F3]].
           intros ->. cbn in F1, F2, F3.
           split; [congruence | split; [congruence | intros C; contradiction]].
        -- apply inst_operand_round_stored in E'.
           destruct E' as [F1 [F2 [F3 [F4 F5]]]].
           intros H; inversion H; subst.
           split; [congruence | split; [congruence | intros _]].
           rewrite F3, E3, Hu. cbn [inst_type]. rewrite Erts, Eone.
           split; [exact Hop |].
           unfold other_operand, operand_at in E4, F4, F5. cbn in E4, F4, F5.
           rewrite F5. auto.
Qed.

Lemma inst_operand_loop_kept rounds operand_cnt line ast flag line' a :
  inst_operand_loop rounds operand_cnt line ast = (flag, line', a) ->
  ast_type a = ast_type ast /\ ast_label a = ast_label ast.
Proof.
  revert operand_cnt line ast.
  induction rounds as [| rounds IH]; intros cnt l0 ast0; cbn [inst_operand_loop].
  - intros H; inversion H; subst. auto.
  - destruct (inst_operand_round cnt l0 ast0) as [r | [l1 a1]] eqn:E.
    + apply inst_operand_round_refused in E. intros ->. tauto.
    + apply inst_operand_round_stored in E. destruct E as [E1 [E2 _]].
      intros H. apply IH in H. destruct H. split; congruence.
Qed.

Lemma check_operand_kept line ast flag line' a :
  check_operand line ast = (flag, line', a) ->
  ast_type a = ast_type ast /\ ast_label a = ast_label ast.
Proof.
  unfold check_operand.
  destruct (Ascii.eqb (first_char (skip_spaces line)) ",").
  { intros H; inversion H; subst. auto. }
  destruct (ast_type ast) eqn:Et;
    try (intros H; inversion H; subst; now auto).
  - destruct (check_dir_operand _ ast) as [[f l] a0] eqn:E.
    apply check_dir_operand_kept in E. destruct E as [E1 [E2 _]].
    repeat break_match; intros H; inversion H; subst; cbn; split; congruence.
  - destruct (check_inst_operand _ ast) as [[f l] a0] eqn:E.
    apply inst_operand_loop_kept in E. destruct E as [E1 E2].
    repeat break_match; intros H; inversion H; subst; cbn; split; congruence.
  - destruct (check_constant_def_operand _ ast) as [[f l] a0] eqn:E.
    apply check_constant_def_operand_kept in E. destruct E as [E1 E2].
    repeat break_match; intros H; inversion H; subst; cbn; split; congruence.
Qed.

Lemma check_dir_operand_count line ast flag line' a :
  check_dir_operand line ast = (flag, line', a) ->
  operand_counter (u_directive ast) = 0 ->
  dir_data (u_directive ast) = [] ->
  operand_counter (u_directive a) = Z.of_nat (List.length (dir_data (u_directive a))).
Proof.
  unfold check_dir_operand.
  repeat break_match; intros H;
    try (inversion H; subst; clear H; ast_cbn; intros -> ->; reflexivity);
    intros H1 H2; apply data_operands_loop_count in H; auto.
  rewrite H2. reflexivity.
Qed.

Lemma check_operand_inst line ast flag line' a :
  ast_type ast = inst ->
  check_operand line ast = (flag, line', a) ->
  flag <> line_type_code error ->
  exists l0 l1, check_inst_operand l0 ast = (flag, l1, a).
Proof.
  intros Ht. unfold check_operand. rewrite Ht.
  destruct (Ascii.eqb (first_char (skip_spaces line)) ",").
  { intros H; inversion H; subst. intros C. contradiction. }
  destruct (check_inst_operand _ ast) as [[f l] a0] eqn:E.
  repeat break_match; intros H; inversion H; subst; intros C;
    try contradiction; eauto.
Qed.

Lemma check_operand_dir line ast flag line' a :
  ast_type ast = dir ->
  check_operand line ast = (flag, line', a) ->
  flag <> line_type_code error ->
  exists l0 l1, check_dir_operand l0 ast = (flag, l1, a).
Proof.
  intros Ht. unfold check_operand. rewrite Ht.
  destruct (Ascii.eqb (first_char (skip_spaces line)) ",").
  { intros H; inversion H; subst. intros C. contradiction. }
  destruct (check_dir_operand _ ast) as [[f l] a0] eqn:E.
  repeat break_match; intros H; inversion H; subst; intros C;
    try contradiction; eauto.
Qed.

(** A line that is parsed as an instruction, a directive or the definition
    of a constant went through [check_line_type] with that type and through
    [check_operand] without error. *)
Lemma create_ast_from_text_parsed line t :
  ast_type (create_ast_from_text line) = t ->
  t = inst \/ t = dir \/ t = constant_def ->
  exists line1 ast1 flag line2,
    check_line_type line zero_ast = (t, line1, ast1)
    /\ check_operand line1 (with_type ast1 t) = (flag, line2, create_ast_from_text line)
    /\ flag <> line_type_code error.
Proof.
  unfold create_ast_from_text.
  destruct (check_line_type line zero_ast) as [[t1 l1] a1] eqn:E1.
  destruct (check_line_type_zero _ _ _ _ E1) as [Hi [Hd Hk]].
  destruct (String.eqb (error_detail (with_type a1 t1)) memory_allocation_failed) eqn:Em.
  - cbn [ast_type with_type]. intros -> Ht. exfalso.
    cbn [error_detail with_type] in Em.
    destruct Ht as [-> | [-> | ->]].
    + destruct (Hi eq_refl) as [He _]. rewrite He in Em. discriminate.
    + destruct (Hd eq_refl) as [He _]. rewrite He in Em. discriminate.
    + rewrite (Hk eq_refl) in Em. discriminate.
  - destruct (check_operand l1 (with_type a1 t1)) as [[flag l2] a2] eqn:E2.
    destruct (Z.eqb_spec flag (line_type_code error)) as [Ef | Ef].
    + cbn [ast_type with_type]. intros <- [C | [C | C]]; discriminate.
    + intros Ht _.
      destruct (check_operand_kept _ _ _ _ _ E2) as [Hk2 _].
      cbn [ast_type with_type] in Hk2. rewrite Hk2 in Ht. subst t1.
      exists l1, a1, flag, l2. auto.
Qed.

(** The instruction of a line that is parsed as one has the operands of its
    operation. *)
Lemma parsed_instruction_shape line :
  ast_type (create_ast_from_text line) = inst ->
  well_shaped (u_instruction (create_ast_from_text line)).
Proof.
  intros Ht.
  destruct (create_ast_from_text_parsed line inst Ht (or_introl eq_refl))
    as [l1 [a1 [flag [l2 [E1 [E2 Ef]]]]]].
  destruct (check_line_type_zero _ _ _ _ E1) as [Hi _].
  destruct (Hi eq_refl) as [_ [opcode [Hop Hu]]].
  destruct (check_operand_inst l1 (with_type a1 inst) flag l2 _ eq_refl E2 Ef)
    as [l0 [l3 E3]].
  apply (check_inst_operand_shape _ _ _ _ _ opcode Hop) in E3; [| exact Hu].
  destruct E3 as [_ [_ H]]. now apply H.
Qed.

(** On a directive line the counter of operands is the number of operands
    stored. *)
Lemma parsed_data_count line :
  ast_type (create_ast_from_text line) = dir ->
  operand_counter (u_directive (create_ast_from_text line))
  = Z.of_nat (List.length (dir_data (u_directive (create_ast_from_text line)))).
Proof.
  intros Ht.
  destruct (create_ast_from_text_parsed line dir Ht (or_intror (or_introl eq_refl)))
    as [l1 [a1 [flag [l2 [E1 [E2 Ef]]]]]].
  destruct (check_line_type_zero _ _ _ _ E1) as [_ [Hd _]].
  destruct (Hd eq_refl) as [_ [Hc Hdata]].
  destruct (check_operand_dir l1 (with_type a1 dir) flag l2 _ eq_refl E2 Ef)
    as [l0 [l3 E3]].
  now apply check_dir_operand_count in E3.
Qed.

(** On the definition of a constant the label of the tree is empty. *)
Lemma parsed_constant_label line :
  ast_type (create_ast_from_text line) = constant_def ->
  ast_label (create_ast_from_text line) = "".
Proof.
  intros Ht.
  destruct (create_ast_from_text_parsed line constant_def Ht
              (or_intror (or_intror eq_refl)))
    as [l1 [a1 [flag [l2 [E1 [E2 Ef]]]]]].
  destruct (check_line_type_zero _ _ _ _ E1) as [_ [_ Hk]].
  destruct (check_operand_kept _ _ _ _ _ E2) as [_ Hl].
  rewrite Hl, (Hk eq_refl). reflexivity.
Qed.

End ParsedLines.

(** ** Constants defined twice *)

(** The definition of a constant whose name is not that of a macro inserts
    the constant, whatever the table holds under that name: the table is
    searched for the label of the line, which is empty. *)
Lemma constant_definition_inserted (am_file_name : string) (macro_table : MACRO_TABLE)
      (line : string) (st : FIRST_STATE) :
  let line_ast := create_ast_from_text line in
  ast_type line_ast = constant_def ->
  macro_lookup (constant_name (u_constant line_ast)) macro_table = None ->
  symbol_lookup "" (fp_unit st) = None ->
  first_pass_line am_file_name macro_table line st
  = inr (fp_next_line
           (fp_with_unit st
              (insert_symbol (fp_unit st) (constant_name (u_constant line_ast))
                             const_sym (fp_line_num st)
                             (constant_num (u_constant line_ast))))).
Proof.
  cbv zeta. intros Ht Hm Hs. unfold first_pass_line.
  rewrite Ht, Hm, (parsed_constant_label line Ht), Hs. reflexivity.
Qed.

(** C6 at a failing input: the second definition of [K] is not refused.
    [first_pass] returns [NO_ERRORS], prints nothing, and the table holds two
    symbols named [K]. *)
Theorem double_define_is_accepted :
  exists r,
    first_pass 5 zero_unit double_define "foo.am" empty_macro_table = Some r
    /\ fp_return r = NO_ERRORS
    /\ fp_printed (fp_final r) = []
    /\ symbol_heap (fp_unit (fp_final r))
       = [mkSymbol "K" const_sym 1 1; mkSymbol "K" const_sym 2 2].
Proof. eexists. split; [vm_compute; reflexivity |]. repeat split. Qed.

(** ** The words counted by the first pass and written by the second *)

Section WordCounts.

Variable am_file_name : string.

Lemma flags_differ : SYNTAX_OR_LOGIC_ERROR <> NO_ERRORS.
Proof. discriminate. Qed.

Lemma sp_symbol_word_step p tu :
  ic (sp_symbol_word p tu) = ic tu + 1 /\ dc (sp_symbol_word p tu) = dc tu.
Proof. unfold sp_symbol_word. break_match; split; reflexivity. Qed.

Lemma sp_operand_words ins i st :
  sp_err_flag (sp_operand am_file_name ins i st) = NO_ERRORS ->
  ic (sp_unit (sp_operand am_file_name ins i st))
  = ic (sp_unit st) + operand_words (operand_at ins i)
  /\ dc (sp_unit (sp_operand am_file_name ins i st)) = dc (sp_unit st)
  /\ sp_err_flag st = NO_ERRORS
  /\ sp_line_num (sp_operand am_file_name ins i st) = sp_line_num st.
Proof.
  unfold sp_operand, operand_words.
  destruct (op_type (operand_at ins i)) eqn:Et;
    repeat break_match; unit_cbn; intros H;
    try (now contradiction flags_differ);
    rewrite ?(proj1 (sp_symbol_word_step _ _)), ?(proj2 (sp_symbol_word_step _ _));
    repeat split; auto; lia.
Qed.

Lemma sp_instruction_words ins st :
  sp_err_flag (sp_instruction am_file_name ins st) = NO_ERRORS ->
  ic (sp_unit (sp_instruction am_file_name ins st))
  = ic (sp_unit st) + instruction_words ins
  /\ dc (sp_unit (sp_instruction am_file_name ins st)) = dc (sp_unit st)
  /\ sp_err_flag st = NO_ERRORS
  /\ sp_line_num (sp_instruction am_file_name ins st) = sp_line_num st.
Proof.
  unfold sp_instruction, instruction_words.
  destruct (is_reg (operand_at ins SOURCE_OPERAND)
            && is_reg (operand_at ins DESTINATION_OPERAND)).
  - unfold sp_first_word. unit_cbn. intros H. repeat split; auto; lia.
  - intros H.
    apply sp_operand_words in H. destruct H as [H1 [H2 [H3 H4]]].
    apply sp_operand_words in H3. destruct H3 as [G1 [G2 [G3 G4]]].
    rewrite H1, H2, H4, G1, G2, G4. unfold sp_first_word. unit_cbn.
    unfold SOURCE_OPERAND, DESTINATION_OPERAND.
    repeat split; auto; lia.
Qed.

Lemma sp_string_words chars tu :
  dc (sp_string chars tu) = dc tu + Z.of_nat (List.length chars)
  /\ ic (sp_string chars tu) = ic tu.
Proof.
  revert tu. induction chars as [| c r IH]; intros tu; cbn [sp_string List.length].
  - split; lia.
  - destruct (IH (next_dc (or_data tu c))) as [-> ->]. unit_cbn. split; lia.
Qed.

Lemma sp_data_words items st :
  sp_err_flag (sp_data am_file_name items st) = NO_ERRORS ->
  dc (sp_unit (sp_data am_file_name items st))
  = dc (sp_unit st) + Z.of_nat (List.length items)
  /\ ic (sp_unit (sp_data am_file_name items st)) = ic (sp_unit st)
  /\ sp_err_flag st = NO_ERRORS.
Proof.
  revert st. induction items as [| item r IH]; intros st; cbn [sp_data List.length].
  - intros H. repeat split; auto; lia.
  - intros H. apply IH in H. destruct H as [H1 [H2 H3]]. rewrite H1, H2.
    revert H3. clear.
    repeat break_match; unit_cbn; intros H;
      try (now contradiction flags_differ); repeat split; auto; lia.
Qed.

(** On the shapes that the parser produces, an instruction of one operand
    with an index apart, [memory_cell_calculator] gives the number of words
    that the second pass writes. *)
Lemma calculator_instruction_words line_ast :
  ast_type line_ast = inst ->
  well_shaped (u_instruction line_ast) ->
  indexed_single_operand line_ast = false ->
  memory_cell_calculator line_ast = instruction_words (u_instruction line_ast).
Proof.
  intros Ht [Hop Hshape].
  unfold indexed_single_operand, memory_cell_calculator, instruction_words.
  rewrite Ht.
  unfold operand_words, is_lwi, is_reg, operand_at,
    SOURCE_OPERAND, DESTINATION_OPERAND in *.
  cbn [Z.eqb] in *.
  destruct (inst_type (u_instruction line_ast) >=? rts) eqn:Erts.
  - destruct Hshape as [-> ->].
    assert (one_operand_op (inst_type (u_instruction line_ast)) = false) as ->.
    { unfold one_operand_op, rts, sub, lea in *.
      destruct (Z.ltb_spec (inst_type (u_instruction line_ast)) 14); [lia |].
      apply andb_false_intro1, andb_false_intro2. reflexivity. }
    assert ((inst_type (u_instruction line_ast) <=? sub)
            || (inst_type (u_instruction line_ast) =? lea) = false) as ->.
    { unfold rts, sub, lea in *. apply orb_false_intro; lia. }
    reflexivity.
  - destruct (one_operand_op (inst_type (u_instruction line_ast))) eqn:Eone.
    + destruct Hshape as [H0 H1]. rewrite H0. cbn [andb].
      destruct (op_type (operand1 (u_instruction line_ast)));
        intros H; try discriminate; try reflexivity. contradiction.
    + destruct Hshape as [H0 H1]. intros _.
      assert ((inst_type (u_instruction line_ast) <=? sub)
              || (inst_type (u_instruction line_ast) =? lea) = true) as ->.
      { unfold one_operand_op, rts, sub, lea in *.
        destruct (Z.leb_spec (inst_type (u_instruction line_ast)) 3); [reflexivity |].
        destruct (Z.eqb_spec (inst_type (u_instruction line_ast)) 6);
          [apply orb_true_r |].
        exfalso.
        destruct (Z.gtb_spec (inst_type (u_instruction line_ast)) 3); [| lia].
        destruct (Z.ltb_spec (inst_type (u_instruction line_ast)) 14); [| lia].
        cbn in Eone. discriminate. }
      destruct (op_type (operand0 (u_instruction line_ast)));
        destruct (op_type (operand1 (u_instruction line_ast)));
        try contradiction; reflexivity.
Qed.

Lemma length_firstn_all (A : Type) (l : list A) :
  List.length (firstn (Z.to_nat (Z.of_nat (List.length l))) l) = List.length l.
Proof. rewrite Nat2Z.id, firstn_all. reflexivity. Qed.

(** One line of the second pass: without error, [ic] and [dc] move by what
    the first pass counts for the line. *)
Lemma second_pass_ast_words line st :
  let line_ast := create_ast_from_text line in
  let st' := second_pass_ast am_file_name line_ast st in
  sp_err_flag st' = NO_ERRORS ->
  indexed_single_operand line_ast = false ->
  ic (sp_unit st') = ic (sp_unit st) + inst_words line_ast
  /\ dc (sp_unit st') = dc (sp_unit st) + data_words line_ast
  /\ sp_err_flag st = NO_ERRORS.
Proof.
  cbv zeta. unfold second_pass_ast, inst_words, data_words.
  destruct (ast_type (create_ast_from_text line)) eqn:Et;
    try (unit_cbn; intros H _; repeat split; auto; lia).
  - pose proof (parsed_data_count line Et) as Hcount.
    destruct (dir_type (u_directive (create_ast_from_text line))) eqn:Ed;
      unit_cbn; intros H _.
    + apply sp_data_words in H. destruct H as [H1 [H2 H3]].
      rewrite H1, H2, Hcount, length_firstn_all.
      unfold memory_cell_calculator. rewrite Et, Ed, Hcount.
      repeat split; auto; lia.
    + destruct (sp_string_words
                  (str_chars (dir_str (u_directive (create_ast_from_text line))))
                  (sp_unit st)) as [-> ->].
      unfold memory_cell_calculator. rewrite Et, Ed.
      repeat split; auto; lia.
    + repeat split; auto; lia.
    + repeat split; auto; lia.
  - unit_cbn. intros H Hx.
    apply sp_instruction_words in H. destruct H as [H1 [H2 [H3 _]]].
    rewrite H1, H2.
    rewrite (calculator_instruction_words _ Et (parsed_instruction_shape line Et) Hx).
    repeat split; auto; lia.
Qed.

Lemma second_pass_lines_words lines st st' :
  second_pass_lines am_file_name lines st = inr st' ->
  sp_err_flag st' = NO_ERRORS ->
  (forall line, In line lines ->
                indexed_single_operand (create_ast_from_text line) = false) ->
  ic (sp_unit st') = ic (sp_unit st) + total inst_words lines
  /\ dc (sp_unit st') = dc (sp_unit st) + total data_words lines
  /\ sp_err_flag st = NO_ERRORS.
Proof.
  revert st. induction lines as [| line rest IH]; intros st H Hflag Hx;
    cbn [second_pass_lines total] in *.
  - inversion H; subst. repeat split; auto; lia.
  - unfold second_pass_line in H.
    destruct (String.eqb _ memory_allocation_failed); [discriminate |].
    destruct (IH _ H Hflag (fun l Hl => Hx l (or_intror Hl))) as [H1 [H2 H3]].
    destruct (second_pass_ast_words line st H3 (Hx line (or_introl eq_refl)))
      as [G1 [G2 G3]].
    rewrite H1, H2, G1, G2. repeat split; auto; lia.
Qed.

Variable macro_table : MACRO_TABLE.

Ltac fp_cbn :=
  cbn [fp_ic fp_dc fp_err_flag fp_line_num fp_unit fp_printed fp_error_continue
       fp_with_unit fp_next_line].

Lemma fp_define_label_counts line_ast st :
  match fp_define_label am_file_name macro_table line_ast st with
  | inl st' => fp_err_flag st' = SYNTAX_OR_LOGIC_ERROR
  | inr st' =>
      fp_ic st' = fp_ic st /\ fp_dc st' = fp_dc st /\ fp_err_flag st' = fp_err_flag st
  end.
Proof. unfold fp_define_label. repeat break_match; fp_cbn; auto. Qed.

Lemma fp_advance_counts line_ast st :
  ast_type line_ast = inst \/ ast_type line_ast = dir ->
  match fp_advance am_file_name macro_table line_ast st with
  | inl st' => fp_err_flag st' = SYNTAX_OR_LOGIC_ERROR
  | inr st' =>
      fp_ic st' = fp_ic st + inst_words line_ast
      /\ fp_dc st' = fp_dc st + data_words line_ast
      /\ fp_err_flag st' = fp_err_flag st
  end.
Proof.
  unfold fp_advance, inst_words, data_words.
  intros [Ht | Ht]; rewrite Ht;
    repeat break_match; fp_cbn; repeat split; auto; lia.
Qed.

(** One line of the first pass: if the flag is clear after it, it was clear
    before and the counters moved by the words of the line. *)
Lemma first_pass_line_counts line st st' :
  first_pass_line am_file_name macro_table line st = inr st' ->
  fp_err_flag st' = NO_ERRORS ->
  fp_ic st' = fp_ic st + inst_words (create_ast_from_text line)
  /\ fp_dc st' = fp_dc st + data_words (create_ast_from_text line)
  /\ fp_err_flag st = NO_ERRORS.
Proof.
  unfold first_pass_line.
  destruct (ast_type (create_ast_from_text line)) eqn:Et.
  - break_match; intros H; inversion H; subst; fp_cbn; intros C;
      now contradiction flags_differ.
  - intros H; inversion H; subst. fp_cbn. unfold inst_words, data_words.
    rewrite Et. intros Hf. repeat split; auto; lia.
  - intros H; inversion H; subst. fp_cbn. unfold inst_words, data_words.
    rewrite Et. intros Hf. repeat split; auto; lia.
  - pose proof (fp_define_label_counts (create_ast_from_text line) st) as Hl.
    destruct (fp_define_label _ _ _ st) as [s | s].
    + intros H; inversion H; subst. intros C. rewrite Hl in C.
      now contradiction flags_differ.
    + pose proof (fp_advance_counts (create_ast_from_text line) s (or_intror Et)) as Ha.
      destruct (fp_advance _ _ _ s) as [s' | s'].
      * intros H; inversion H; subst. intros C. rewrite Ha in C.
        now contradiction flags_differ.
      * intros H; inversion H; subst. fp_cbn. intros C.
        destruct Hl as [L1 [L2 L3]]. destruct Ha as [A1 [A2 A3]].
        repeat split; congruence.
  - pose proof (fp_define_label_counts (create_ast_from_text line) st) as Hl.
    destruct (fp_define_label _ _ _ st) as [s | s].
    + intros H; inversion H; subst. intros C. rewrite Hl in C.
      now contradiction flags_differ.
    + pose proof (fp_advance_counts (create_ast_from_text line) s (or_introl Et)) as Ha.
      destruct (fp_advance _ _ _ s) as [s' | s'].
      * intros H; inversion H; subst. intros C. rewrite Ha in C.
        now contradiction flags_differ.
      * intros H; inversion H; subst. fp_cbn. intros C.
        destruct Hl as [L1 [L2 L3]]. destruct Ha as [A1 [A2 A3]].
        repeat split; congruence.
  - unfold inst_words, data_words. rewrite Et.
    repeat break_match; intros H; inversion H; subst; fp_cbn; intros C;
      try (now contradiction flags_differ); repeat split; auto; lia.
Qed.

Lemma first_pass_lines_counts lines st st' :
  first_pass_lines am_file_name macro_table lines st = inr st' ->
  fp_err_flag st' = NO_ERRORS ->
  fp_ic st' = fp_ic st + total inst_words lines
  /\ fp_dc st' = fp_dc st + total data_words lines
  /\ fp_err_flag st = NO_ERRORS.
Proof.
  revert st. induction lines as [| line rest IH]; intros st H Hflag;
    cbn [first_pass_lines total] in *.
  - inversion H; subst. repeat split; auto; lia.
  - destruct (first_pass_line _ _ line st) as [r | s] eqn:E; [discriminate |].
    destruct (IH _ H Hflag) as [H1 [H2 H3]].
    destruct (first_pass_line_counts _ _ _ E H3) as [G1 [G2 G3]].
    rewrite H1, H2, G1, G2. repeat split; auto; lia.
Qed.

Lemma first_pass_lines_returns lines st r :
  first_pass_lines am_file_name macro_table lines st = inl r ->
  fp_return r = MEMORY_ALLOCATION_ERROR.
Proof.
  revert st. induction lines as [| line rest IH]; intros st H;
    cbn [first_pass_lines] in H; [discriminate |].
  destruct (first_pass_line _ _ line st) as [r0 | s] eqn:E.
  - inversion H; subst. revert E. unfold first_pass_line.
    repeat break_match; intros H'; inversion H'; reflexivity.
  - now apply IH in H.
Qed.

Lemma fp_chain_loop_counts fuel chain st st' :
  fp_chain_loop fuel am_file_name chain st = Some st' ->
  fp_err_flag st' = NO_ERRORS ->
  fp_ic st' = fp_ic st /\ fp_dc st' = fp_dc st /\ fp_err_flag st = NO_ERRORS.
Proof.
  revert chain st. induction fuel as [| fuel IH]; intros [| p next] st H Hflag;
    cbn [fp_chain_loop] in H; try discriminate;
    try (inversion H; subst; now auto).
  destruct (type (symbol_at (fp_unit st) p));
    destruct (IH _ _ H Hflag) as [H1 [H2 H3]];
    cbn [fp_ic fp_dc fp_err_flag fp_with_unit fp_close_symbol] in *; auto;
    now contradiction flags_differ.
Qed.

Lemma fp_table_loop_counts fuel slots st st' :
  fp_table_loop fuel am_file_name slots st = Some st' ->
  fp_err_flag st' = NO_ERRORS ->
  fp_ic st' = fp_ic st /\ fp_dc st' = fp_dc st /\ fp_err_flag st = NO_ERRORS.
Proof.
  revert st. induction slots as [| chain rest IH]; intros st H Hflag;
    cbn [fp_table_loop] in H.
  - inversion H; subst. auto.
  - destruct (fp_chain_loop fuel am_file_name chain st) as [s |] eqn:E; [| discriminate].
    destruct (IH _ H Hflag) as [H1 [H2 H3]].
    destruct (fp_chain_loop_counts _ _ _ _ E H3) as [G1 [G2 G3]].
    repeat split; congruence.
Qed.

End WordCounts.

(** C1, as stated, fails.  On [indexed_increment] both passes end without
    error, yet for [inc ARR[2]] the first pass counts two words and the second
    writes three.  On the single line [hlt] both passes agree on one word, and
    still [ic] ends at 101 in the first pass and at 1 in the second. *)
Lemma word_counts_disagree :
  (exists r1 st2,
      first_pass 5 zero_unit indexed_increment "foo.am" empty_macro_table = Some r1
      /\ fp_return r1 = NO_ERRORS
      /\ second_pass (fp_unit (fp_final r1)) "foo.am" indexed_increment = (NO_ERRORS, st2)
      /\ sp_printed st2 = []
      /\ memory_cell_calculator (create_ast_from_text ("inc ARR[2]" ++ nl)) = 2
      /\ fp_ic (fp_final r1) = 100 + 2
      /\ ic (sp_unit st2) = 3)
  /\ (exists r1 st2,
         first_pass 5 zero_unit ("hlt" ++ nl) "foo.am" empty_macro_table = Some r1
         /\ fp_return r1 = NO_ERRORS
         /\ second_pass (fp_unit (fp_final r1)) "foo.am" ("hlt" ++ nl) = (NO_ERRORS, st2)
         /\ fp_ic (fp_final r1) = 101
         /\ ic (sp_unit st2) = 1
         /\ ic (sp_unit st2) <> fp_ic (fp_final r1)).
Proof.
  split.
  - eexists. eexists.
    split; [vm_compute; reflexivity |].
    split; [reflexivity |].
    split; [vm_compute; reflexivity |].
    repeat split.
  - eexists. eexists.
    split; [vm_compute; reflexivity |].
    split; [reflexivity |].
    split; [vm_compute; reflexivity |].
    repeat split. discriminate.
Qed.

(** C1, amended.  For every instruction line that is not an instruction of
    one operand whose operand is a label with an index, and that the second
    pass processes with the error flag clear, the number of words that the
    second pass writes for the line is what [memory_cell_calculator] gives.
    Consequently, for a file without such a line on which both passes return
    [NO_ERRORS], [ic] at the end of the second pass (which counts from 0) is
    [ic] at the end of the first pass (which counts from 100) less 100, and
    [dc] is the same at the end of both. *)
Theorem word_counts_agree :
  (forall (am_file_name line : string) (st : SECOND_STATE),
      let line_ast := create_ast_from_text line in
      let st' := second_pass_ast am_file_name line_ast st in
      ast_type line_ast = inst ->
      indexed_single_operand line_ast = false ->
      sp_err_flag st' = NO_ERRORS ->
      ic (sp_unit st') - ic (sp_unit st) = memory_cell_calculator line_ast)
  /\ (forall (fuel : nat) (tu : TRANSLATION_UNIT) (am_file am_file_name : string)
             (macro_table : MACRO_TABLE) (r1 : FIRST_RESULT) (st2 : SECOND_STATE),
         ic tu = 0 ->
         dc tu = 0 ->
         first_pass fuel tu am_file am_file_name macro_table = Some r1 ->
         fp_return r1 = NO_ERRORS ->
         second_pass (fp_unit (fp_final r1)) am_file_name am_file = (NO_ERRORS, st2) ->
         (forall line, In line (read_lines MAX_LINE_LEN am_file) ->
                       indexed_single_operand (create_ast_from_text line) = false) ->
         ic (sp_unit st2) + 100 = fp_ic (fp_final r1)
         /\ dc (sp_unit st2) = fp_dc (fp_final r1)).
Proof.
  split.
  - intros am_file_name line st line_ast st' Ht Hx Hflag.
    destruct (second_pass_ast_words am_file_name line st Hflag Hx) as [H _].
    fold line_ast in H. fold st' in H. rewrite H.
    unfold inst_words. rewrite Ht. lia.
  - intros fuel tu am_file am_file_name macro_table r1 st2 Hic Hdc H1 Hr1 H2 Hx.
    pose proof (first_pass_images _ _ _ _ _ _ H1) as Himg.
    pose proof (f_equal (fun x => snd (fst (fst (fst x)))) Himg) as Hic0.
    pose proof (f_equal (fun x => snd (fst (fst x))) Himg) as Hdc0.
    cbn [images_part fst snd] in Hic0, Hdc0.
    unfold first_pass in H1.
    destruct (first_pass_lines _ _ _ _) as [r | s1] eqn:E1.
    { inversion H1; subst. apply first_pass_lines_returns in E1.
      rewrite E1 in Hr1. discriminate. }
    destruct (fp_table_loop fuel am_file_name _ s1) as [s1' |] eqn:E1'; [| discriminate].
    inversion H1; subst r1; clear H1. cbn [fp_return fp_final] in *.
    assert (fp_err_flag s1' = NO_ERRORS) as Hf1.
    { destruct (Z.eqb_spec (fp_err_flag s1') NO_ERRORS); [assumption | discriminate]. }
    destruct (fp_table_loop_counts _ _ _ _ _ E1' Hf1) as [T1 [T2 T3]].
    destruct (first_pass_lines_counts _ _ _ _ _ E1 T3) as [L1 [L2 _]].
    cbn [fp_ic fp_dc] in L1, L2.
    unfold second_pass in H2.
    destruct (second_pass_lines _ _ _) as [s2 | s2] eqn:E2; [discriminate |].
    inversion H2 as [[Hret Hst]]. subst s2.
    assert (sp_err_flag st2 = NO_ERRORS) as Hf2.
    { destruct (Z.eqb_spec (sp_err_flag st2) NO_ERRORS); [assumption | discriminate]. }
    destruct (second_pass_lines_words _ _ _ _ E2 Hf2 Hx) as [S1 [S2 _]].
    cbn [sp_unit] in S1, S2. lia.
Qed.

Lemma word_counts_agree_witness :
  (let line_ast := create_ast_from_text ("mov r1, ARR[2]" ++ nl) in
   let st := mkSecond unit_with_ARR NO_ERRORS 2 [] in
   ic (sp_unit (second_pass_ast "foo.am" line_ast st)) - ic (sp_unit st)
   = memory_cell_calculator line_ast)
  /\ (exists r1 st2,
         first_pass 5 zero_unit indexed_move "foo.am" empty_macro_table = Some r1
         /\ second_pass (fp_unit (fp_final r1)) "foo.am" indexed_move = (NO_ERRORS, st2)
         /\ ic (sp_unit st2) + 100 = fp_ic (fp_final r1)
         /\ dc (sp_unit st2) = fp_dc (fp_final r1)).
Proof.
  split.
  - apply (proj1 word_counts_agree "foo.am" ("mov r1, ARR[2]" ++ nl)
                 (mkSecond unit_with_ARR NO_ERRORS 2 [])); reflexivity.
  - eexists. eexists.
    split; [vm_compute; reflexivity |].
    split; [vm_compute; reflexivity |].
    eapply (proj2 word_counts_agree 5%nat zero_unit indexed_move "foo.am"
                  empty_macro_table).
    + reflexivity.
    + reflexivity.
    + vm_compute. reflexivity.
    + reflexivity.
    + vm_compute. reflexivity.
    + intros line Hin. vm_compute in Hin.
      destruct Hin as [<- | [<- | []]]; reflexivity.
Defined.

(** * General properties of the parser, the tables and the passes *)

(** ** The words of a line *)

Lemma skip_seps_splits line :
  exists seps, line = seps ++ skip_seps line /\ string_forall is_sep seps = true.
Proof.
  induction line as [| c r [seps [H1 H2]]]; cbn [skip_seps].
  - exists "". auto.
  - destruct (is_sep c) eqn:E.
    + exists (String c seps). cbn [String.append string_forall]. rewrite E, H2.
      split; [f_equal; exact H1 | reflexivity].
    + exists "". auto.
Qed.

Lemma skip_seps_stops line :
  is_sep (first_char (skip_seps line)) = false.
Proof.
  induction line as [| c r IH]; cbn [skip_seps]; [reflexivity |].
  destruct (is_sep c) eqn:E; [exact IH | exact E].
Qed.

Lemma take_word_splits line :
  line = fst (take_word line) ++ snd (take_word line)
  /\ string_forall not_sep (fst (take_word line)) = true
  /\ is_sep (first_char (snd (take_word line)))
     || Ascii.eqb (first_char (snd (take_word line))) NUL = true.
Proof.
  induction line as [| c r [H1 [H2 H3]]]; cbn [take_word].
  - cbn. auto.
  - destruct (is_sep c) eqn:E.
    + cbn [fst snd String.append string_forall].
      change (first_char (String c r)) with c. rewrite E. auto.
    + destruct (take_word r) as [w rest]. cbn [fst snd] in *.
      cbn [String.append string_forall]. unfold not_sep at 1. rewrite E, H2.
      split; [f_equal; exact H1 | auto].
Qed.

(** X1. [get_word] splits the line: what it skips are separators (white space
    and commas), the word it returns is not empty and holds no separator, and
    the line pointer is left on a separator or at the end of the line. *)
Theorem get_word_splits (line word rest : string) :
  get_word line = (Some word, rest) ->
  exists seps,
    line = seps ++ word ++ rest
    /\ string_forall is_sep seps = true
    /\ (0 < String.length word)%nat
    /\ string_forall not_sep word = true
    /\ is_sep (first_char rest) || Ascii.eqb (first_char rest) NUL = true.
Proof.
  unfold get_word.
  destruct (skip_seps_splits line) as [seps [H1 H2]].
  pose proof (skip_seps_stops line) as Hs.
  destruct (skip_seps line) as [| c r] eqn:E; [discriminate |].
  pose proof (take_word_splits (String c r)) as [T1 [T2 T3]].
  change (first_char (String c r)) with c in Hs.
  cbn [take_word] in *. rewrite Hs in *.
  destruct (take_word r) as [w rest0]. cbn [fst snd] in *.
  intros H; inversion H; subst; clear H.
  exists seps. rewrite <- T1. repeat split; auto. cbn. lia.
Qed.

Lemma get_word_splits_witness :
  exists seps,
    " mov r1" = seps ++ "mov" ++ " r1"
    /\ string_forall is_sep seps = true
    /\ (0 < String.length "mov")%nat
    /\ string_forall not_sep "mov" = true
    /\ is_sep (first_char " r1") || Ascii.eqb (first_char " r1") NUL = true.
Proof. apply (get_word_splits " mov r1" "mov" " r1"). reflexivity. Defined.

Lemma get_word_of_separators (line : string) :
  string_forall is_sep line = true -> get_word line = (None, "").
Proof.
  intros H. unfold get_word.
  assert (skip_seps line = "") as ->; [| reflexivity].
  induction line as [| c r IH]; cbn [skip_seps string_forall] in *; [reflexivity |].
  apply andb_true_iff in H. destruct H as [-> H]. now apply IH.
Qed.

Lemma get_word_of_word (line : string) :
  string_forall is_sep line = false -> exists word rest, get_word line = (Some word, rest).
Proof.
  intros H. unfold get_word.
  destruct (skip_seps line) as [| c r] eqn:E.
  - exfalso. induction line as [| d l IH]; cbn [skip_seps string_forall] in *;
      [discriminate |].
    destruct (is_sep d); [now apply IH | discriminate].
  - destruct (take_word (String c r)) as [w rest]. eauto.
Qed.

(** X2. [get_word] returns NULL exactly on a line of separators only, and it
    then leaves the line pointer at the end of the line. *)
Theorem get_word_exhausted (line : string) :
  (fst (get_word line) = None <-> string_forall is_sep line = true)
  /\ (fst (get_word line) = None -> snd (get_word line) = "").
Proof.
  destruct (string_forall is_sep line) eqn:E.
  - rewrite (get_word_of_separators line E). cbn [fst snd]. tauto.
  - destruct (get_word_of_word line E) as [word [rest ->]]. cbn [fst snd].
    split; [split; discriminate | discriminate].
Qed.

(** ** The tables of keywords and the numbers *)

Section Keywords.

Lemma index_of_spec word table i :
  (index_of word table i = -1 /\ ~ In word table)
  \/ (i <= index_of word table i < i + Z.of_nat (List.length table)
      /\ nth_error table (Z.to_nat (index_of word table i - i)) = Some word).
Proof.
  revert i. induction table as [| t ts IH]; intros i; cbn [index_of].
  - left. split; [reflexivity | intros []].
  - destruct (String.eqb_spec word t) as [-> | Hne].
    + right. cbn [List.length]. split; [lia |]. rewrite Z.sub_diag. reflexivity.
    + destruct (IH (i + 1)) as [[H1 H2] | [H1 H2]].
      * left. split; [exact H1 |]. intros [C | C]; [congruence | contradiction].
      * right. cbn [List.length]. split; [lia |].
        replace (Z.to_nat (index_of word ts (i + 1) - i))
          with (S (Z.to_nat (index_of word ts (i + 1) - (i + 1)))) by lia.
        exact H2.
Qed.

End Keywords.

Lemma index_of_missing word table i :
  0 <= i -> (index_of word table i = -1 <-> ~ In word table).
Proof.
  intros Hi. destruct (index_of_spec word table i) as [[H1 H2] | [H1 H2]].
  - tauto.
  - split; [lia |]. intros C. exfalso. apply C.
    apply nth_error_In with (Z.to_nat (index_of word table i - i)). exact H2.
Qed.

Ltac table_length H :=
  match type of H with
  | context [Z.of_nat ?n] =>
      let v := eval vm_compute in (Z.of_nat n) in change (Z.of_nat n) with v in H
  end.

(** X3. [is_operation], [is_directive] and [is_register] return the index of
    the word in their table (0 to 15, 0 to 3, 0 to 9: [PSW] and [PC] are
    registers 8 and 9) and -1 for every word that is not in it. *)
Theorem keyword_tables (word : string) :
  (is_operation word = -1 /\ ~ In word operations
   \/ 0 <= is_operation word <= 15
      /\ nth_error operations (Z.to_nat (is_operation word)) = Some word)
  /\ (is_directive word = -1 /\ ~ In word directives
      \/ 0 <= is_directive word <= 3
         /\ nth_error directives (Z.to_nat (is_directive word)) = Some word)
  /\ (is_register word = -1 /\ ~ In word registers
      \/ 0 <= is_register word <= 9
         /\ nth_error registers (Z.to_nat (is_register word)) = Some word).
Proof.
  unfold is_operation, is_directive, is_register.
  split; [| split].
  - destruct (index_of_spec word operations 0) as [H | [H1 H2]]; [left; exact H |].
    right. rewrite Z.sub_0_r in H2. table_length H1. split; [lia | exact H2].
  - destruct (index_of_spec word directives 0) as [H | [H1 H2]]; [left; exact H |].
    right. rewrite Z.sub_0_r in H2. table_length H1. split; [lia | exact H2].
  - destruct (index_of_spec word registers 0) as [H | [H1 H2]]; [left; exact H |].
    right. rewrite Z.sub_0_r in H2. table_length H1. split; [lia | exact H2].
Qed.

Lemma twelve_bit_values_read :
  forallb (fun z => is_valid_num (fmt_d z) =? z) twelve_bit_values = true.
Proof. vm_compute. reflexivity. Qed.

(** X4. [is_valid_num] reads back every twelve-bit number from the decimal
    notation that [printf] gives it. *)
Theorem is_valid_num_reads_decimal (z : Z) :
  MIN_12_BIT_VALUE <= z <= MAX_12_BIT_VALUE -> is_valid_num (fmt_d z) = z.
Proof.
  intros Hz. apply Z.eqb_eq.
  pose proof twelve_bit_values_read as H. rewrite forallb_forall in H.
  apply (H z). unfold twelve_bit_values. apply in_map_iff.
  exists (Z.to_nat (z - MIN_12_BIT_VALUE)).
  unfold MIN_12_BIT_VALUE, MAX_12_BIT_VALUE in *. split; [lia |].
  apply in_seq. lia.
Qed.

Lemma is_valid_num_reads_decimal_witness : is_valid_num (fmt_d (-2048)) = -2048.
Proof. apply (is_valid_num_reads_decimal (-2048)). vm_compute. split; discriminate. Defined.

(** ** Labels *)

Section Labels.

Lemma alnum_prefix_whole word :
  alnum_prefix (String.length word) word = string_forall alnum word.
Proof.
  induction word as [| c r IH]; cbn [alnum_prefix String.length string_forall];
    [reflexivity |]. now rewrite IH.
Qed.

Lemma alnum_prefix_append n l tl :
  (n <= String.length l)%nat -> alnum_prefix n (l ++ tl) = alnum_prefix n l.
Proof.
  revert l. induction n as [| n IH]; intros [| c r] H; cbn in *; try reflexivity;
    try lia. rewrite IH by lia. reflexivity.
Qed.

Lemma length_append (s1 s2 : string) :
  String.length (s1 ++ s2) = (String.length s1 + String.length s2)%nat.
Proof. induction s1 as [| c r IH]; cbn; [reflexivity | now rewrite IH]. Qed.

Lemma append_assoc (a b c : string) : (a ++ b) ++ c = a ++ b ++ c.
Proof. induction a as [| d r IH]; cbn; [reflexivity | now rewrite IH]. Qed.

Lemma append_empty_r (a : string) : a ++ "" = a.
Proof. induction a as [| d r IH]; cbn; [reflexivity | now rewrite IH]. Qed.

Lemma substring_append l tl :
  String.substring 0 (String.length l) (l ++ tl) = l.
Proof. induction l as [| c r IH]; cbn; [destruct tl; reflexivity | now rewrite IH]. Qed.

Lemma get_append_end l c tl :
  String.get (String.length l) (l ++ String c tl) = Some c.
Proof. induction l as [| d r IH]; cbn; [reflexivity | exact IH]. Qed.

(** A string whose last character is [c] is what comes before it, then
    [c]. *)
Lemma last_char_splits word c :
  word <> "" ->
  String.get (String.length word - 1) word = Some c ->
  word = String.substring 0 (String.length word - 1) word ++ String c "".
Proof.
  induction word as [| d r IH]; intros Hne H; [contradiction |].
  cbn [String.length] in *. rewrite Nat.sub_succ, Nat.sub_0_r in *.
  destruct r as [| e r'].
  - cbn in *. congruence.
  - cbn [String.length] in *. cbn [String.get] in H. cbn [String.substring].
    cbn [String.append]. f_equal.
    rewrite Nat.sub_succ, Nat.sub_0_r in IH. apply IH; [discriminate | exact H].
Qed.

Lemma directive_not_alpha word :
  isalpha (first_char word) = true -> is_directive word = -1.
Proof.
  intros H. apply index_of_missing; [lia |].
  intros C. cbv [directives In] in C.
  repeat (destruct C as [C | C]; [subst word; discriminate |]). exact C.
Qed.

Lemma is_label_operand_alnum word :
  is_label word operand_label = NO_ERRORS ->
  word <> "" /\ string_forall alnum word = true.
Proof.
  unfold is_label, strlen. rewrite Nat2Z.id, alnum_prefix_whole.
  destruct word as [| c r]; [discriminate |].
  destruct (string_forall alnum (String c r)); [split; [discriminate | reflexivity] |].
  cbn [negb]. destruct (_ || _); discriminate.
Qed.

End Labels.

(** X5. The words that [is_label] accepts as an operand: at most 32
    characters, a letter first, letters and digits only, and neither a
    register nor an operation. *)
Theorem is_label_operand_accepts (word : string) :
  is_label word operand_label = NO_ERRORS <->
  (String.length word <= 32)%nat
  /\ isalpha (first_char word) = true
  /\ string_forall alnum word = true
  /\ ~ In word registers
  /\ ~ In word operations.
Proof.
  unfold is_label, strlen. rewrite Nat2Z.id, alnum_prefix_whole.
  rewrite andb_false_r, orb_false_r.
  destruct (Z.gtb_spec (Z.of_nat (String.length word)) MAX_LABEL_LEN) as [Hl | Hl];
    unfold MAX_LABEL_LEN in Hl.
  { cbn [orb]. split; [discriminate | intros [H _]; lia]. }
  destruct (isalpha (first_char word)) eqn:Ea; cbn [negb orb];
    [| split; [discriminate | intros [_ [H _]]; discriminate]].
  destruct (string_forall alnum word) eqn:Ef; cbn [negb];
    [| split; [discriminate | intros [_ [_ [H _]]]; discriminate]].
  rewrite (directive_not_alpha word Ea). cbn [negb Z.eqb orb]. rewrite orb_false_r.
  pose proof (index_of_missing word registers 0 (Z.le_refl 0)) as Hr.
  pose proof (index_of_missing word operations 0 (Z.le_refl 0)) as Ho.
  fold (is_register word) in Hr. fold (is_operation word) in Ho.
  destruct (Z.eqb_spec (is_register word) (-1)) as [Er | Er]; cbn [negb orb].
  - destruct (Z.eqb_spec (is_operation word) (-1)) as [Eo | Eo]; cbn [negb].
    + split; [intros _ | reflexivity].
      repeat split; try lia; [now apply Hr | now apply Ho].
    + split; [discriminate |]. intros [_ [_ [_ [_ H]]]]. apply Ho in H. contradiction.
  - split; [discriminate |]. intros [_ [_ [_ [H _]]]]. apply Hr in H. contradiction.
Qed.

(** ** Labels at the start of a line *)

Section LabelsInMemory.

Variable memory : string.

Lemma c_str_after_alnum l :
  string_forall alnum l = true -> c_str (l ++ memory) = l ++ c_str memory.
Proof.
  induction l as [| c r IH]; cbn [string_forall String.append c_str]; [reflexivity |].
  intros H. apply andb_true_iff in H. destruct H as [Hc Hr]. rewrite (IH Hr).
  destruct (Ascii.eqb_spec c NUL) as [-> | _]; [discriminate | reflexivity].
Qed.

(** [is_label] in a zeroed block. *)
Lemma is_label_in_zeroed word position :
  c_str memory = "" -> is_label_in memory word position = is_label word position.
Proof.
  intros Hm. unfold is_label_in, is_label, strncpy.
  destruct position; [| reflexivity].
  destruct (_ || _); [reflexivity |].
  destruct (alnum_prefix (Z.to_nat (strlen word - 1)) word) eqn:Ea; [| reflexivity].
  cbn [negb].
  assert (forall n w, alnum_prefix n w = true ->
                      string_forall alnum (String.substring 0 n w) = true) as Hs.
  { induction n as [| n IH]; intros [| c r];
      cbn [alnum_prefix String.substring string_forall];
      try reflexivity; try discriminate.
    intros H. apply andb_true_iff in H. destruct H as [H1 H2].
    unfold alnum at 1. rewrite H1. now apply IH. }
  rewrite (c_str_after_alnum _ (Hs _ _ Ea)), Hm, append_empty_r. reflexivity.
Qed.

Lemma is_label_in_colon l :
  is_label_in memory (l ++ ":") pre_line_label
  = if (Z.of_nat (String.length l) >? MAX_LABEL_LEN) || negb (isalpha (first_char l))
    then SYNTAX_OR_LOGIC_ERROR
    else if negb (string_forall alnum l) then SYNTAX_OR_LOGIC_ERROR
    else if negb (is_register (l ++ c_str memory) =? -1)
            || negb (is_directive (l ++ c_str memory) =? -1)
            || negb (is_operation (l ++ c_str memory) =? -1)
    then SYNTAX_OR_LOGIC_ERROR
    else NO_ERRORS.
Proof.
  unfold is_label_in, strlen, char_at.
  rewrite length_append. cbn [String.length].
  replace (Z.of_nat (String.length l + 1) - 1) with (Z.of_nat (String.length l)) by lia.
  rewrite Nat2Z.id.
  destruct (Z.ltb_spec (Z.of_nat (String.length l)) 0) as [C | _]; [lia |].
  rewrite get_append_end.
  change (Ascii.eqb ":" ":") with true. cbn [negb andb]. rewrite orb_false_r.
  rewrite substring_append, alnum_prefix_append, alnum_prefix_whole by lia.
  assert (isalpha (first_char (l ++ ":")) = isalpha (first_char l)) as ->
      by (destruct l; reflexivity).
  destruct (_ || _); [reflexivity |].
  destruct (string_forall alnum l) eqn:Ef; [| reflexivity].
  now rewrite (c_str_after_alnum l Ef).
Qed.

Lemma is_label_in_needs_colon word :
  is_label_in memory word pre_line_label = NO_ERRORS -> exists l, word = l ++ ":".
Proof.
  unfold is_label_in, strlen, char_at.
  destruct word as [| c r]; [discriminate |].
  set (w := String c r).
  replace (Z.of_nat (String.length w) - 1) with (Z.of_nat (String.length w - 1))
    by (cbn [String.length w]; lia).
  rewrite Nat2Z.id.
  destruct (Z.ltb_spec (Z.of_nat (String.length w - 1)) 0) as [C | _]; [lia |].
  destruct (String.get (String.length w - 1) w) as [d |] eqn:Eg.
  - destruct (Ascii.eqb_spec d ":") as [-> | Hd].
    + intros _. eexists. apply last_char_splits; [discriminate | exact Eg].
    + cbn [negb andb]. rewrite orb_true_r. discriminate.
  - change (Ascii.eqb NUL ":") with false. cbn [negb andb]. rewrite orb_true_r.
    discriminate.
Qed.

End LabelsInMemory.

(** X6. At the start of a line [is_label] accepts exactly the words [L:]
    where [L] has at most 32 characters, starts with a letter, holds letters
    and digits only, and, read together with what the block of the copy holds
    after it, is no register, directive or operation.  In a block that holds a
    NUL there, these are the labels that it accepts as an operand; in any
    other block a register or an operation followed by a colon is accepted
    as a label. *)
Theorem is_label_before_colon (memory word : string) :
  (is_label_in memory word pre_line_label = NO_ERRORS <->
   exists l,
     word = l ++ ":"
     /\ (String.length l <= 32)%nat
     /\ isalpha (first_char l) = true
     /\ string_forall alnum l = true
     /\ ~ In (l ++ c_str memory) registers
     /\ ~ In (l ++ c_str memory) directives
     /\ ~ In (l ++ c_str memory) operations)
  /\ (c_str memory = "" ->
      forall l, is_label_in memory (l ++ ":") pre_line_label = is_label l operand_label)
  /\ (c_str memory <> "" ->
      forall l, In l registers \/ In l operations ->
                is_label_in memory (l ++ ":") pre_line_label = NO_ERRORS).
Proof.
  assert (forall l,
             is_label_in memory (l ++ ":") pre_line_label = NO_ERRORS <->
             (String.length l <= 32)%nat
             /\ isalpha (first_char l) = true
             /\ string_forall alnum l = true
             /\ ~ In (l ++ c_str memory) registers
             /\ ~ In (l ++ c_str memory) directives
             /\ ~ In (l ++ c_str memory) operations) as Hcolon.
  { intros l. rewrite is_label_in_colon.
    pose proof (index_of_missing (l ++ c_str memory) registers 0 (Z.le_refl 0)) as Hr.
    pose proof (index_of_missing (l ++ c_str memory) directives 0 (Z.le_refl 0)) as Hd.
    pose proof (index_of_missing (l ++ c_str memory) operations 0 (Z.le_refl 0)) as Ho.
    fold (is_register (l ++ c_str memory)) in Hr.
    fold (is_directive (l ++ c_str memory)) in Hd.
    fold (is_operation (l ++ c_str memory)) in Ho.
    destruct (Z.gtb_spec (Z.of_nat (String.length l)) MAX_LABEL_LEN) as [Hl | Hl];
      unfold MAX_LABEL_LEN in Hl; cbn [orb].
    { split; [discriminate | intros [H _]; lia]. }
    destruct (isalpha (first_char l)); cbn [negb];
      [| split; [discriminate | intros [_ [H _]]; discriminate]].
    destruct (string_forall alnum l); cbn [negb];
      [| split; [discriminate | intros [_ [_ [H _]]]; discriminate]].
    destruct (Z.eqb_spec (is_register (l ++ c_str memory)) (-1)) as [Er | Er];
      cbn [negb orb];
      [| split; [discriminate | intros [_ [_ [_ [H _]]]]; apply Hr in H; contradiction]].
    destruct (Z.eqb_spec (is_directive (l ++ c_str memory)) (-1)) as [Ed | Ed];
      cbn [negb orb];
      [| split; [discriminate | intros [_ [_ [_ [_ [H _]]]]]; apply Hd in H; contradiction]].
    destruct (Z.eqb_spec (is_operation (l ++ c_str memory)) (-1)) as [Eo | Eo];
      cbn [negb];
      [| split; [discriminate | intros [_ [_ [_ [_ [_ H]]]]]; apply Ho in H; contradiction]].
    split; [intros _ | reflexivity].
    repeat split; try lia; [now apply Hr | now apply Hd | now apply Ho]. }
  split; [| split].
  - split.
    + intros H. destruct (is_label_in_needs_colon memory word H) as [l ->].
      exists l. split; [reflexivity |]. now apply Hcolon.
    + intros [l [-> H]]. now apply Hcolon.
  - intros Hm l. rewrite is_label_in_colon, Hm, append_empty_r.
    unfold is_label, strlen. rewrite Nat2Z.id, alnum_prefix_whole.
    rewrite andb_false_r, orb_false_r. reflexivity.
  - intros Hm l Hl. rewrite is_label_in_colon.
    destruct (c_str memory) as [| c m]; [contradiction |].
    cbv [registers operations In] in Hl.
    repeat match goal with
           | H : _ \/ _ |- _ => destruct H as [H | H]
           | H : False |- _ => contradiction
           end; subst l; reflexivity.
Qed.

(** ** Labels with an index *)

Ltac refused :=
  let H := fresh in
  intros H; apply (f_equal fst) in H; cbn [fst] in H; discriminate H.

Section Indexed.

Lemma split_at_splits c s a b :
  split_at c s = Some (a, b) -> s = a ++ String c b /\ strchr a c = false.
Proof.
  revert a b. induction s as [| d r IH]; intros a b; cbn [split_at]; [discriminate |].
  destruct (Ascii.eqb_spec d c) as [-> | Hd].
  - intros H; inversion H; subst. auto.
  - destruct (split_at c r) as [[a0 b0] |]; [| discriminate].
    intros H; inversion H; subst. destruct (IH a0 b eq_refl) as [-> H2].
    split; [reflexivity |]. cbn [strchr]. rewrite H2.
    destruct (Ascii.eqb_spec d c); [contradiction | reflexivity].
Qed.

Lemma split_at_found c a b :
  strchr a c = false -> split_at c (a ++ String c b) = Some (a, b).
Proof.
  induction a as [| d r IH]; cbn [strchr String.append split_at]; intros H.
  - now rewrite Ascii.eqb_refl.
  - apply orb_false_iff in H. destruct H as [H1 H2]. rewrite H1, (IH H2). reflexivity.
Qed.

Lemma alnum_no_bracket l : string_forall alnum l = true -> strchr l "[" = false.
Proof.
  induction l as [| c r IH]; cbn [string_forall strchr]; [reflexivity |].
  intros H. apply andb_true_iff in H. destruct H as [H1 H2]. rewrite (IH H2).
  destruct (Ascii.eqb_spec c "[") as [-> | _]; [discriminate | reflexivity].
Qed.

Lemma strchr_append a b c : strchr (a ++ b) c = strchr a c || strchr b c.
Proof.
  induction a as [| d r IH]; cbn [String.append strchr]; [reflexivity |].
  now rewrite IH, orb_assoc.
Qed.

End Indexed.

(** A word of at most [MAX_LABEL_LEN] characters that reads [L[I]] has parts
    that fit the arrays of an operand. *)
Lemma parts_of_short_word_fit word l i :
  strlen word <= MAX_LABEL_LEN -> word = l ++ "[" ++ i ++ "]" ->
  fits_label l = true /\ fits_label i = true.
Proof.
  intros Hlen ->. unfold fits_label, strlen, MAX_LABEL_LEN in *.
  rewrite !length_append in Hlen. cbn [String.length] in Hlen.
  split; apply Z.ltb_lt; lia.
Qed.

(** X7. On a C string (no NUL inside) whose parts, when it reads [L[I]], have
    fewer than [MAX_LABEL_LEN] characters each and so fit the arrays of the
    operand, [is_label_with_index] accepts exactly the words [L[I]] where [L]
    is a label and [I], which holds no closing bracket, is a number that
    [is_valid_num] accepts (the empty index is read as 0) or else a label; it
    stores [L] as the label and [I] as the number or as the name of the
    constant. *)
Theorem is_label_with_index_accepts (word : string) (operand o' : INST_OPERAND) :
  strchr word NUL = false ->
  (forall l i, word = l ++ "[" ++ i ++ "]" ->
               fits_label l = true /\ fits_label i = true) ->
  is_label_with_index word operand = (NO_ERRORS, o') <->
  exists l i,
    word = l ++ "[" ++ i ++ "]"
    /\ is_label l operand_label = NO_ERRORS
    /\ strchr i "]" = false
    /\ (is_valid_num i <> NON_VALID_NUM
        /\ o' = with_op_num (with_op_label operand l) (is_valid_num i)
        \/ is_valid_num i = NON_VALID_NUM
           /\ is_label i operand_label = NO_ERRORS
           /\ o' = with_op_constant_name (with_op_label operand l) i).
Proof.
  intros Hnul Hfit. unfold is_label_with_index. split.
  - destruct (split_at "[" word) as [[l index_char] |] eqn:E1;
      [| refused].
    apply split_at_splits in E1. destruct E1 as [-> _].
    destruct l as [| c r]; cbv beta iota; [refused |].
    set (l := String c r) in *.
    destruct (Z.eqb_spec (is_label l operand_label) SYNTAX_OR_LOGIC_ERROR) as [El | El];
      [refused |].
    assert (is_label l operand_label = NO_ERRORS) as Hl.
    { revert El. unfold is_label. repeat break_match; congruence. }
    destruct (split_at "]" index_char) as [[i after] |] eqn:E2;
      [| refused].
    apply split_at_splits in E2. destruct E2 as [-> Hi].
    destruct after as [| d after].
    2:{ change (first_char (String d after)) with d.
        destruct (Ascii.eqb d NUL) eqn:Ed; cbn [negb]; [exfalso | refused].
        rewrite !strchr_append in Hnul. cbn [strchr] in Hnul.
        rewrite !strchr_append in Hnul. cbn [strchr] in Hnul.
        rewrite Ed, !orb_true_r in Hnul. discriminate Hnul. }
    change (Ascii.eqb (first_char "") NUL) with true. cbn [negb].
    destruct (Z.eqb_spec (is_valid_num i) NON_VALID_NUM) as [En | En]; cbn [negb].
    + destruct (Z.eqb_spec (is_label i operand_label) NO_ERRORS) as [Ec | Ec];
        [| discriminate].
      intros H; inversion H; subst. exists l, i. repeat split; auto.
    + intros H; inversion H; subst. exists l, i. repeat split; auto.
  - intros [l [i [-> [Hl [Hi Hres]]]]].
    pose proof (is_label_operand_alnum l Hl) as [_ Hf].
    change ("[" ++ i ++ "]") with (String "[" (i ++ "]")).
    rewrite (split_at_found "[" l (i ++ "]") (alnum_no_bracket l Hf)).
    destruct l as [| c r]; [discriminate |]. cbv beta iota.
    set (l := String c r) in *. rewrite Hl.
    change (NO_ERRORS =? SYNTAX_OR_LOGIC_ERROR) with false. cbv iota.
    rewrite (split_at_found "]" i "" Hi).
    change (Ascii.eqb (first_char "") NUL) with true. cbn [negb].
    destruct Hres as [[Hn ->] | [Hn [Hc ->]]].
    + destruct (Z.eqb_spec (is_valid_num i) NON_VALID_NUM); [contradiction | reflexivity].
    + rewrite Hn, Hc. reflexivity.
Qed.

Lemma is_label_with_index_accepts_witness :
  is_label_with_index "ARR[2]" zero_operand = (NO_ERRORS, mkOperand none 2 "ARR" "")
  <-> exists l i,
      "ARR[2]" = l ++ "[" ++ i ++ "]"
      /\ is_label l operand_label = NO_ERRORS
      /\ strchr i "]" = false
      /\ (is_valid_num i <> NON_VALID_NUM
          /\ mkOperand none 2 "ARR" ""
             = with_op_num (with_op_label zero_operand l) (is_valid_num i)
          \/ is_valid_num i = NON_VALID_NUM
             /\ is_label i operand_label = NO_ERRORS
             /\ mkOperand none 2 "ARR" ""
                = with_op_constant_name (with_op_label zero_operand l) i).
Proof.
  apply (is_label_with_index_accepts "ARR[2]" zero_operand (mkOperand none 2 "ARR" "")).
  - reflexivity.
  - intros l i. apply parts_of_short_word_fit. vm_compute. discriminate.
Defined.

(** ** The diagnostic of a line *)

Ltac tree_cbn :=
  cbn [error_detail ast_label ast_type u_directive u_instruction u_constant
       with_error_detail with_label with_type with_directive with_instruction
       with_constant with_operand set_operand_at operand_at
       dir_type operand_counter dir_data dir_str label_operand
       with_dir_type with_label_operand with_dir_str push_data with_inst_type
       inst_type operand0 operand1 op_type op_num op_label op_constant_name
       with_op_type with_op_num with_op_label with_op_constant_name
       constant_name constant_num fst snd].

(** Closes the goal [checked flag a] at the end of a path through a check. *)
Ltac close_checked :=
  first [ left; split; [reflexivity | tree_cbn; cbn [String.append]; discriminate]
        | right; split; [reflexivity | tree_cbn; assumption] ].

Section Diagnostics.

Lemma data_operands_loop_checked fuel line comma_cnt op_cnt ast flag line' a :
  error_detail ast = "" ->
  data_operands_loop fuel line comma_cnt op_cnt ast = (flag, line', a) ->
  checked flag a.
Proof.
  revert line comma_cnt op_cnt ast.
  induction fuel as [| fuel IH]; intros line comma_cnt op_cnt ast He;
    cbn [data_operands_loop].
  - repeat break_match; intros H; inversion H; subst; clear H; close_checked.
  - repeat break_match; intros H;
      try (inversion H; subst; clear H; close_checked);
      apply IH in H; auto.
Qed.

Lemma check_dir_operand_checked line ast flag line' a :
  error_detail ast = "" ->
  check_dir_operand line ast = (flag, line', a) -> checked flag a.
Proof.
  intros He. unfold check_dir_operand.
  repeat break_match; intros H;
    try (inversion H; subst; clear H; close_checked).
  now apply data_operands_loop_checked in H.
Qed.

Lemma classify_operand_detail operand_cnt word ast :
  match classify_operand operand_cnt word ast with
  | inl a => error_detail a <> ""
  | inr a => error_detail a = error_detail ast
  end.
Proof.
  unfold classify_operand. repeat break_match; tree_cbn; try reflexivity; discriminate.
Qed.

Lemma inst_operand_round_detail operand_cnt line ast :
  match inst_operand_round operand_cnt line ast with
  | inl r => fst (fst r) = line_type_code error /\ error_detail (snd r) <> ""
  | inr r => error_detail (snd r) = error_detail ast
  end.
Proof.
  unfold inst_operand_round.
  destruct (get_word line) as [[word |] line1].
  - pose proof (classify_operand_detail operand_cnt word ast) as Hc.
    destruct (classify_operand operand_cnt word ast) as [a | a].
    + cbn [fst snd]. auto.
    + repeat break_match; cbn [fst snd]; tree_cbn; auto; split; auto; discriminate.
  - cbn [fst snd]. split; [reflexivity |]. tree_cbn. break_match; discriminate.
Qed.

Lemma inst_operand_loop_checked rounds operand_cnt line ast flag line' a :
  error_detail ast = "" ->
  inst_operand_loop rounds operand_cnt line ast = (flag, line', a) -> checked flag a.
Proof.
  revert operand_cnt line ast.
  induction rounds as [| rounds IH]; intros cnt l0 ast0 He; cbn [inst_operand_loop].
  - intros H; inversion H; subst. close_checked.
  - pose proof (inst_operand_round_detail cnt l0 ast0) as Hr.
    destruct (inst_operand_round cnt l0 ast0) as [[[f l] a0] | [l1 a1]];
      cbn [fst snd] in Hr.
    + intros H; inversion H; subst. left. exact Hr.
    + apply IH. congruence.
Qed.

Lemma check_constant_def_operand_checked line ast flag line' a :
  error_detail ast = "" ->
  check_constant_def_operand line ast = (flag, line', a) -> checked flag a.
Proof.
  intros He. unfold check_constant_def_operand.
  repeat break_match; intros H; inversion H; subst; clear H; close_checked.
Qed.

(** [check_line_type] on a zeroed tree: the type is [error] exactly when a
    diagnostic is left. *)
Lemma check_line_type_detail line t line' a :
  check_line_type line zero_ast = (t, line', a) ->
  (t = error /\ error_detail a <> "") \/ (t <> error /\ error_detail a = "").
Proof.
  unfold check_line_type, line_type_at_end, line_type_of_word.
  repeat break_match; intros H; inversion H; subst; clear H; tree_cbn;
    first [ left; split; [reflexivity | discriminate]
          | right; split; [discriminate | reflexivity] ].
Qed.

Lemma check_operand_detail line ast flag line' a :
  ast_type ast = error /\ error_detail ast <> ""
  \/ ast_type ast <> error /\ error_detail ast = "" ->
  check_operand line ast = (flag, line', a) ->
  flag = line_type_code error /\ error_detail a <> ""
  \/ flag <> line_type_code error /\ error_detail a = "" /\ ast_type ast <> error.
Proof.
  intros Hin. unfold check_operand.
  destruct (Ascii.eqb (first_char (skip_spaces line)) ",").
  { intros H; inversion H; subst. left. split; [reflexivity | discriminate]. }
  assert (forall r : Z * string * LINE_AST,
             error_detail ast = "" -> checked (fst (fst r)) (snd r) ->
             (let '(syntax_flag, line, ast) := r in
              if syntax_flag =? line_type_code error then (line_type_code error, line, ast)
              else
                let line := skip_spaces line in
                if negb (Ascii.eqb (first_char line) NUL) then
                  (line_type_code error, line,
                   with_error_detail ast "unexpected characters after operands")
                else (syntax_flag, line, ast)) = (flag, line', a) ->
             flag = line_type_code error /\ error_detail a <> ""
             \/ flag <> line_type_code error /\ error_detail a = "") as Hafter.
  { intros [[f l] a0] He Hc. cbn [fst snd] in Hc.
    destruct Hc as [[-> Hd] | [-> Hd]].
    - cbn. intros H; inversion H; subst. left. auto.
    - change (NO_ERRORS =? line_type_code error) with false. cbv iota zeta.
      destruct (negb _); intros H; inversion H; subst.
      + left. split; [reflexivity | discriminate].
      + right. split; [discriminate | assumption]. }
  destruct Hin as [[Ht Hd] | [Ht Hd]].
  - rewrite Ht. intros H; inversion H; subst. left. split; [reflexivity | assumption].
  - destruct (ast_type ast) eqn:Et; try contradiction.
    + intros H; inversion H; subst. right. repeat split; auto; discriminate.
    + intros H; inversion H; subst. right. repeat split; auto; discriminate.
    + destruct (check_dir_operand _ ast) as [[f l] a0] eqn:E.
      apply check_dir_operand_checked in E; [| assumption].
      intros H. apply (Hafter (f, l, a0) Hd E) in H. destruct H as [H | [H1 H2]]; auto.
    + destruct (check_inst_operand _ ast) as [[f l] a0] eqn:E.
      apply inst_operand_loop_checked in E; [| assumption].
      intros H. apply (Hafter (f, l, a0) Hd E) in H. destruct H as [H | [H1 H2]]; auto.
    + destruct (check_constant_def_operand _ ast) as [[f l] a0] eqn:E.
      apply check_constant_def_operand_checked in E; [| assumption].
      intros H. apply (Hafter (f, l, a0) Hd E) in H. destruct H as [H | [H1 H2]]; auto.
Qed.

End Diagnostics.

(** A parsed line is an error with a diagnostic, or no error and without
    one. *)
Lemma parsed_line_cases (line : string) :
  ast_type (create_ast_from_text line) = error
  /\ error_detail (create_ast_from_text line) <> ""
  \/ ast_type (create_ast_from_text line) <> error
     /\ error_detail (create_ast_from_text line) = "".
Proof.
  unfold create_ast_from_text.
  destruct (check_line_type line zero_ast) as [[t l1] a1] eqn:E1.
  pose proof (check_line_type_detail _ _ _ _ E1) as H1.
  destruct (String.eqb_spec (error_detail (with_type a1 t)) memory_allocation_failed)
    as [Em | Em].
  - cbn [error_detail with_type ast_type] in *.
    destruct H1 as [[-> Hd] | [_ Hd]]; [left; auto |].
    rewrite Hd in Em. discriminate.
  - destruct (check_operand l1 (with_type a1 t)) as [[flag l2] a2] eqn:E2.
    pose proof (check_operand_kept _ _ _ _ _ E2) as [Hk _].
    apply check_operand_detail in E2; [| cbn [ast_type error_detail with_type]; tauto].
    cbn [ast_type with_type] in *.
    destruct E2 as [[-> Hd] | [Hf [Hd Ht]]].
    + left. cbn. auto.
    + destruct (Z.eqb_spec flag (line_type_code error)); [contradiction |].
      right. rewrite Hk. auto.
Qed.

(** X8. [create_ast_from_text] gives a line the type [error] exactly when it
    leaves a diagnostic in [error_detail]. *)
Theorem error_lines_carry_a_diagnostic (line : string) :
  ast_type (create_ast_from_text line) = error
  <-> error_detail (create_ast_from_text line) <> "".
Proof.
  destruct (parsed_line_cases line) as [[Ht Hd] | [Ht Hd]].
  - tauto.
  - split; [contradiction |]. intros C. now contradiction C.
Qed.

(** ** Comments and blank lines *)

Section CommentsAndBlanks.

(** A type other than [error] is the one that [check_line_type] found. *)
Lemma create_ast_from_text_type line t :
  ast_type (create_ast_from_text line) = t -> t <> error ->
  fst (fst (check_line_type line zero_ast)) = t.
Proof.
  unfold create_ast_from_text.
  destruct (check_line_type line zero_ast) as [[t1 l1] a1]. cbn [fst].
  destruct (String.eqb _ memory_allocation_failed); [cbn; congruence |].
  destruct (check_operand l1 (with_type a1 t1)) as [[flag l2] a2] eqn:E2.
  apply check_operand_kept in E2. destruct E2 as [Hk _].
  cbn [ast_type with_type] in Hk.
  destruct (flag =? line_type_code error); cbn [ast_type with_type]; congruence.
Qed.

Lemma line_type_of_word_not_blank word_cnt word ast :
  fst (line_type_of_word word_cnt word ast) <> empty
  /\ fst (line_type_of_word word_cnt word ast) <> note.
Proof. unfold line_type_of_word. repeat break_match; cbn [fst]; split; discriminate. Qed.

Lemma check_line_type_note line :
  fst (fst (check_line_type line zero_ast)) = note <-> first_char line = ";"%char.
Proof.
  unfold check_line_type, line_type_at_end.
  destruct (Ascii.eqb_spec (first_char line) ";") as [E | E]; [cbn; tauto |].
  split; [| contradiction]. intros H. exfalso. revert H.
  repeat break_match; cbn [fst]; try discriminate;
    match goal with
    | E : line_type_of_word ?n ?w ?a = _ |- _ =>
        pose proof (line_type_of_word_not_blank n w a) as [_ C]; rewrite E in C;
        cbn [fst] in C; intros H; now apply C
    end.
Qed.

Lemma check_line_type_empty line :
  fst (fst (check_line_type line zero_ast)) = empty
  <-> first_char line <> ";"%char /\ fst (get_word line) = None.
Proof.
  unfold check_line_type, line_type_at_end.
  destruct (Ascii.eqb_spec (first_char line) ";") as [E | E].
  { cbn. split; [discriminate | tauto]. }
  destruct (get_word line) as [[word1 |] line1]; cbn [fst Z.eqb].
  2:{ tauto. }
  split; [| intros [_ C]; discriminate]. intros H. exfalso. revert H.
  repeat break_match; cbn [fst]; try discriminate;
    match goal with
    | E : line_type_of_word ?n ?w ?a = _ |- _ =>
        pose proof (line_type_of_word_not_blank n w a) as [C _]; rewrite E in C;
        cbn [fst] in C; intros H; now apply C
    end.
Qed.

Lemma skip_spaces_first line :
  isspace (first_char line) = false -> skip_spaces line = line.
Proof.
  destruct line as [| c r]; [reflexivity |]. cbn [skip_spaces].
  change (first_char (String c r)) with c. now intros ->.
Qed.

End CommentsAndBlanks.

(** X9. A line is a comment exactly when its very first character is a
    semicolon, and it is empty exactly when it is no comment and holds only
    white space and commas. *)
Theorem comments_and_blank_lines (line : string) :
  (ast_type (create_ast_from_text line) = note <-> first_char line = ";"%char)
  /\ (ast_type (create_ast_from_text line) = empty
      <-> first_char line <> ";"%char /\ string_forall is_sep line = true).
Proof.
  pose proof (check_line_type_note line) as Hn.
  pose proof (check_line_type_empty line) as He.
  split; (split; [intros H |]).
  - apply Hn. apply create_ast_from_text_type; [exact H | discriminate].
  - intros Hc. unfold create_ast_from_text, check_line_type.
    rewrite Hc. change (Ascii.eqb ";" ";") with true. cbv iota beta.
    cbn [with_type zero_ast error_detail String.eqb memory_allocation_failed].
    unfold check_operand. rewrite skip_spaces_first by (now rewrite Hc).
    rewrite Hc. reflexivity.
  - apply create_ast_from_text_type in H; [| discriminate].
    apply He in H. destruct H as [H1 H2]. split; [exact H1 |].
    destruct (string_forall is_sep line) eqn:Es; [reflexivity |].
    destruct (get_word_of_word line Es) as [word [rest E]]. rewrite E in H2. discriminate.
  - intros [Hc Hs].
    unfold create_ast_from_text, check_line_type, line_type_at_end.
    destruct (Ascii.eqb_spec (first_char line) ";"); [contradiction |].
    rewrite (get_word_of_separators line Hs). reflexivity.
Qed.

(** ** The operands of the parsed lines *)

Section Ranges.

Lemma is_valid_num_range word :
  is_valid_num word = NON_VALID_NUM
  \/ MIN_12_BIT_VALUE <= is_valid_num word <= MAX_12_BIT_VALUE.
Proof.
  unfold is_valid_num. destruct (strlen word >? 5); [now left |].
  destruct (strtol word) as [n e]. destruct (negb _); [now left |].
  destruct (Z.geb_spec n MIN_12_BIT_VALUE); cbn [andb]; [| now left].
  destruct (Z.leb_spec n MAX_12_BIT_VALUE); [right; lia | now left].
Qed.

Lemma is_valid_num_valid word :
  (is_valid_num word =? NON_VALID_NUM) = false ->
  MIN_12_BIT_VALUE <= is_valid_num word <= MAX_12_BIT_VALUE.
Proof.
  intros H. destruct (is_valid_num_range word) as [E | E]; [| exact E].
  rewrite E in H. discriminate.
Qed.

Lemma is_register_range word :
  (is_register word =? -1) = false -> 0 <= is_register word <= 9.
Proof.
  intros H. unfold is_register in *.
  destruct (index_of_spec word registers 0) as [[E _] | [E _]].
  - rewrite E in H. discriminate.
  - change (Z.of_nat (List.length registers)) with 10 in E. lia.
Qed.

Lemma is_label_with_index_range word o :
  operand_in_range o ->
  MIN_12_BIT_VALUE <= op_num (snd (is_label_with_index word o)) <= MAX_12_BIT_VALUE
  /\ op_type (snd (is_label_with_index word o)) = op_type o.
Proof.
  intros [Hr _]. unfold is_label_with_index.
  repeat break_match; cbn [snd op_num op_type with_op_label with_op_num
                             with_op_constant_name]; split; auto.
  apply is_valid_num_valid.
  match goal with H : negb _ = true |- _ => apply negb_true_iff in H; exact H end.
Qed.

Lemma classify_operand_range operand_cnt word ast ast' :
  classify_operand operand_cnt word ast = inr ast' ->
  operand_in_range (operand0 (u_instruction ast)) ->
  operand_in_range (operand1 (u_instruction ast)) ->
  operand_in_range (operand0 (u_instruction ast'))
  /\ operand_in_range (operand1 (u_instruction ast')).
Proof.
  intros H H0 H1.
  assert (operand_in_range (operand_at (u_instruction ast) operand_cnt)) as Hs
      by (unfold operand_at; destruct (operand_cnt =? SOURCE_OPERAND); assumption).
  pose proof (is_label_with_index_range word _ Hs) as [L1 L2].
  revert H. unfold classify_operand.
  assert (forall o, operand_in_range o ->
                    operand_in_range (operand0 (u_instruction (with_operand ast operand_cnt o)))
                    /\ operand_in_range (operand1 (u_instruction (with_operand ast operand_cnt o))))
    as Hstore.
  { intros o Ho. unfold with_operand, set_operand_at.
    destruct (operand_cnt =? SOURCE_OPERAND); cbn; auto. }
  destruct Hs as [Hs1 Hs2].
  destruct (is_label_with_index word (operand_at (u_instruction ast) operand_cnt))
    as [res slot'] eqn:Ei.
  cbn [snd] in L1, L2.
  repeat break_match; intros H; inversion H; subst; clear H;
    match goal with
    | |- context [with_operand (with_operand ?a ?i ?o1) ?i ?o2] =>
        replace (with_operand (with_operand a i o1) i o2) with (with_operand a i o2)
          by (unfold with_operand, set_operand_at; destruct (i =? SOURCE_OPERAND); reflexivity)
    | _ => idtac
    end;
    apply Hstore; unfold operand_in_range;
    cbn [op_num op_type with_op_num with_op_type with_op_label with_op_constant_name];
    (split; [| try discriminate]); auto.
  - apply is_valid_num_valid.
    match goal with H : negb _ = true |- _ => apply negb_true_iff in H; exact H end.
  - pose proof (is_register_range word) as R.
    match goal with H : negb (is_register word =? -1) = true |- _ =>
      apply negb_true_iff in H; specialize (R H) end.
    unfold MIN_12_BIT_VALUE, MAX_12_BIT_VALUE. lia.
  - intros _. apply is_register_range.
    match goal with H : negb _ = true |- _ => apply negb_true_iff in H; exact H end.
Qed.

Lemma inst_operand_loop_range rounds operand_cnt line ast flag line' a :
  inst_operand_loop rounds operand_cnt line ast = (flag, line', a) ->
  flag <> line_type_code error ->
  operand_in_range (operand0 (u_instruction ast)) ->
  operand_in_range (operand1 (u_instruction ast)) ->
  operand_in_range (operand0 (u_instruction a))
  /\ operand_in_range (operand1 (u_instruction a)).
Proof.
  revert operand_cnt line ast.
  induction rounds as [| rounds IH]; intros cnt l0 ast0; cbn [inst_operand_loop].
  - intros H; inversion H; subst. auto.
  - destruct (inst_operand_round cnt l0 ast0) as [r | [l1 a1]] eqn:E.
    + apply inst_operand_round_refused in E. destruct E as [E _].
      intros -> C. cbn [fst] in E. contradiction.
    + intros H Hf H0 H1. apply (IH _ _ _ H Hf).
      * revert E. unfold inst_operand_round.
        destruct (get_word l0) as [[word |] l2]; [| discriminate].
        destruct (classify_operand cnt word ast0) as [a2 | a2] eqn:Ec; [discriminate |].
        destruct (classify_operand_range _ _ _ _ Ec H0 H1) as [R0 R1].
        repeat break_match; intros H'; inversion H'; subst; assumption.
      * revert E. unfold inst_operand_round.
        destruct (get_word l0) as [[word |] l2]; [| discriminate].
        destruct (classify_operand cnt word ast0) as [a2 | a2] eqn:Ec; [discriminate |].
        destruct (classify_operand_range _ _ _ _ Ec H0 H1) as [R0 R1].
        repeat break_match; intros H'; inversion H'; subst; assumption.
Qed.

Lemma zero_operand_in_range : operand_in_range zero_operand.
Proof. split; [cbv; split; discriminate | discriminate]. Qed.

Lemma data_operands_loop_range fuel line comma_cnt op_cnt ast flag line' a :
  data_operands_loop fuel line comma_cnt op_cnt ast = (flag, line', a) ->
  Forall data_operand_ok (dir_data (u_directive ast)) ->
  Forall data_operand_ok (dir_data (u_directive a)).
Proof.
  revert line comma_cnt op_cnt ast.
  induction fuel as [| fuel IH]; intros line comma_cnt op_cnt ast;
    cbn [data_operands_loop].
  - repeat break_match; intros H; inversion H; subst; clear H; tree_cbn; auto.
  - repeat break_match; intros H;
      try (inversion H; subst; clear H; tree_cbn; now auto);
      intros Hall; (apply IH in H; [exact H |]); tree_cbn;
      try assumption;
      (apply Forall_app; split; [assumption |]); (constructor; [| constructor]);
      unfold data_operand_ok; cbn [data_type data_num data_constant_name].
    + apply is_valid_num_valid.
      match goal with H : negb _ = true |- _ => apply negb_true_iff in H; exact H end.
    + match goal with H : (_ =? NO_ERRORS) = true |- _ => apply Z.eqb_eq in H; exact H end.
Qed.

Lemma check_dir_operand_range line ast flag line' a :
  check_dir_operand line ast = (flag, line', a) ->
  dir_data (u_directive ast) = [] ->
  Forall data_operand_ok (dir_data (u_directive a)).
Proof.
  unfold check_dir_operand.
  repeat break_match; intros H;
    try (inversion H; subst; clear H; tree_cbn; intros ->; constructor).
  intros Hd. apply data_operands_loop_range in H; [exact H |]. rewrite Hd. constructor.
Qed.

End Ranges.

(** X10. On a line parsed as an instruction the operands are those of the
    operation (none, the destination alone, or both); the number of every
    operand fits twelve bits and the number of a register is between 0 and 9.
    *)
Theorem parsed_instruction_operands (line : string) :
  ast_type (create_ast_from_text line) = inst ->
  well_shaped (u_instruction (create_ast_from_text line))
  /\ operand_in_range (operand0 (u_instruction (create_ast_from_text line)))
  /\ operand_in_range (operand1 (u_instruction (create_ast_from_text line))).
Proof.
  intros Ht. split; [now apply parsed_instruction_shape |].
  destruct (create_ast_from_text_parsed line inst Ht (or_introl eq_refl))
    as [l1 [a1 [flag [l2 [E1 [E2 Ef]]]]]].
  destruct (check_line_type_zero _ _ _ _ E1) as [Hi _].
  destruct (Hi eq_refl) as [_ [opcode [_ Hu]]].
  destruct (check_operand_inst l1 (with_type a1 inst) flag l2 _ eq_refl E2 Ef)
    as [l0 [l3 E3]].
  apply inst_operand_loop_range in E3; auto;
    cbn [u_instruction with_type]; rewrite Hu; apply zero_operand_in_range.
Qed.

Lemma parsed_instruction_operands_witness :
  well_shaped (u_instruction (create_ast_from_text "mov #-5, r2"))
  /\ operand_in_range (operand0 (u_instruction (create_ast_from_text "mov #-5, r2")))
  /\ operand_in_range (operand1 (u_instruction (create_ast_from_text "mov #-5, r2"))).
Proof. apply (parsed_instruction_operands "mov #-5, r2"). vm_compute. reflexivity. Defined.

(** X11. On a line parsed as a directive, the words of which have fewer than
    [MAX_LABEL_LEN] characters each and so fit the arrays of the operands, the
    counter of operands is the number of operands stored, every number of
    [.data] fits twelve bits and every name of [.data] has the syntax of a
    label. *)
Theorem parsed_data_operands (line : string) :
  ast_type (create_ast_from_text line) = dir ->
  words_fit line = true ->
  let d := u_directive (create_ast_from_text line) in
  operand_counter d = Z.of_nat (List.length (dir_data d))
  /\ Forall data_operand_ok (dir_data d).
Proof.
  intros Ht Hfit. cbv zeta. split; [now apply parsed_data_count |].
  destruct (create_ast_from_text_parsed line dir Ht (or_intror (or_introl eq_refl)))
    as [l1 [a1 [flag [l2 [E1 [E2 Ef]]]]]].
  destruct (check_line_type_zero _ _ _ _ E1) as [_ [Hd _]].
  destruct (Hd eq_refl) as [_ [_ Hdata]].
  destruct (check_operand_dir l1 (with_type a1 dir) flag l2 _ eq_refl E2 Ef)
    as [l0 [l3 E3]].
  now apply check_dir_operand_range in E3.
Qed.

Lemma parsed_data_operands_witness :
  let d := u_directive (create_ast_from_text "ARR: .data 7, -3, SZ") in
  operand_counter d = Z.of_nat (List.length (dir_data d))
  /\ Forall data_operand_ok (dir_data d).
Proof.
  apply (parsed_data_operands "ARR: .data 7, -3, SZ"); vm_compute; reflexivity.
Defined.

(** ** The addressing methods of the parsed instructions *)

Section Addressing.

Lemma is_label_with_index_type word o :
  op_type (snd (is_label_with_index word o)) = op_type o.
Proof.
  unfold is_label_with_index.
  repeat break_match; reflexivity.
Qed.

(** The operand that a round stores, by the round. *)
Lemma classify_operand_addressing operand_cnt word ast ast' :
  classify_operand operand_cnt word ast = inr ast' ->
  let ty := inst_type (u_instruction ast) in
  let o := operand_at (u_instruction ast') operand_cnt in
  (operand_cnt = DESTINATION_OPERAND -> is_immediate o = true -> ty = cmp \/ ty = prn)
  /\ (operand_cnt = SOURCE_OPERAND -> ty = lea -> is_direct o = true).
Proof.
  cbv zeta. unfold classify_operand.
  pose proof (is_label_with_index_type word (operand_at (u_instruction ast) operand_cnt))
    as Hty.
  destruct (is_label_with_index word (operand_at (u_instruction ast) operand_cnt))
    as [res slot'].
  cbn [snd] in Hty.
  assert (forall a o, operand_at (u_instruction (with_operand a operand_cnt o)) operand_cnt = o)
    as Hat.
  { intros a o. unfold with_operand, set_operand_at, operand_at.
    destruct (operand_cnt =? SOURCE_OPERAND) eqn:E; cbn; rewrite ?E; reflexivity. }
  destruct (Z.eqb_spec (inst_type (u_instruction ast)) cmp) as [Ecmp | Ecmp];
    destruct (Z.eqb_spec (inst_type (u_instruction ast)) prn) as [Eprn | Eprn];
    destruct (Z.eqb_spec (inst_type (u_instruction ast)) lea) as [Elea | Elea];
    destruct (Z.eqb_spec operand_cnt DESTINATION_OPERAND) as [Edst | Edst];
    destruct (Z.eqb_spec operand_cnt SOURCE_OPERAND) as [Esrc | Esrc];
    cbn [andb orb negb];
    repeat break_match; intros H; inversion H; subst; clear H; rewrite Hat;
    unfold is_immediate, is_direct;
    cbn [op_type with_op_type with_op_num with_op_label with_op_constant_name];
    (split; [intros Hd Hi | intros Hs Hl]);
    try discriminate; try reflexivity; try contradiction; try congruence; auto.
Qed.

Lemma inst_operand_round_addressing operand_cnt line ast line' ast' :
  inst_operand_round operand_cnt line ast = inr (line', ast') ->
  let ty := inst_type (u_instruction ast) in
  let o := operand_at (u_instruction ast') operand_cnt in
  (operand_cnt = DESTINATION_OPERAND -> is_immediate o = true -> ty = cmp \/ ty = prn)
  /\ (operand_cnt = SOURCE_OPERAND -> ty = lea -> is_direct o = true).
Proof.
  unfold inst_operand_round.
  destruct (get_word line) as [[word |] line1]; [| discriminate].
  destruct (classify_operand operand_cnt word ast) as [a | a] eqn:E; [discriminate |].
  apply classify_operand_addressing in E.
  repeat break_match; intros H; inversion H; subst; exact E.
Qed.

Lemma check_inst_operand_addressing line ast flag line' a opcode :
  u_instruction ast = mkInstruction opcode zero_operand zero_operand ->
  check_inst_operand line ast = (flag, line', a) ->
  flag <> line_type_code error ->
  addressing_ok (u_instruction a).
Proof.
  intros Hu. unfold check_inst_operand, addressing_ok. rewrite Hu. cbn [inst_type].
  destruct (opcode >=? rts) eqn:Erts.
  - cbn. intros H; inversion H; subst. rewrite Hu. cbn. intros _.
    split; [discriminate |]. intros ->. discriminate.
  - destruct (one_operand_op opcode) eqn:Eone.
    + change (Z.to_nat (MAX_INST_OPERANDS - DESTINATION_OPERAND)) with 1%nat.
      cbn [inst_operand_loop].
      destruct (inst_operand_round DESTINATION_OPERAND line ast) as [r | [l1 a1]] eqn:E.
      * apply inst_operand_round_refused in E. destruct E as [E1 _].
        intros -> C. cbn [fst] in E1. contradiction.
      * pose proof (inst_operand_round_stored _ _ _ _ _ E) as [_ [_ [E3 _]]].
        apply inst_operand_round_addressing in E. cbv zeta in E.
        destruct E as [A1 _]. rewrite Hu in A1, E3. cbn [inst_type] in A1, E3.
        intros H. assert (a = a1) as -> by congruence. intros _. rewrite E3.
        split; [apply A1; reflexivity |]. intros ->. discriminate.
    + change (Z.to_nat (MAX_INST_OPERANDS - SOURCE_OPERAND)) with 2%nat.
      cbn [inst_operand_loop].
      destruct (inst_operand_round SOURCE_OPERAND line ast) as [r | [l1 a1]] eqn:E.
      * apply inst_operand_round_refused in E. destruct E as [E1 _].
        intros -> C. cbn [fst] in E1. contradiction.
      * pose proof (inst_operand_round_stored _ _ _ _ _ E) as [_ [_ [E3 _]]].
        apply inst_operand_round_addressing in E. cbv zeta in E.
        destruct E as [_ A0]. rewrite Hu in A0, E3. cbn [inst_type] in A0, E3.
        change (SOURCE_OPERAND + 1) with DESTINATION_OPERAND.
        destruct (inst_operand_round DESTINATION_OPERAND l1 a1) as [r | [l2 a2]] eqn:E'.
        -- apply inst_operand_round_refused in E'. destruct E' as [F1 _].
           intros -> C. cbn [fst] in F1. contradiction.
        -- pose proof (inst_operand_round_stored _ _ _ _ _ E') as [_ [_ [F3 [_ F5]]]].
           apply inst_operand_round_addressing in E'. cbv zeta in E'.
           destruct E' as [A1 _]. rewrite E3 in A1, F3.
           intros H. assert (a = a2) as -> by congruence. intros _. rewrite F3.
           split; [apply A1; reflexivity |].
           intros Hl. change (operand0 (u_instruction a2)) with
             (operand_at (u_instruction a2) (other_operand DESTINATION_OPERAND)).
           rewrite F5. now apply A0.
Qed.

End Addressing.

(** X12. On a line parsed as an instruction, an immediate destination (a
    number or a constant after [#]) is found for [cmp] and [prn] only, and the
    source of [lea] is a label, with or without an index. *)
Theorem parsed_instruction_addressing (line : string) :
  ast_type (create_ast_from_text line) = inst ->
  addressing_ok (u_instruction (create_ast_from_text line)).
Proof.
  intros Ht.
  destruct (create_ast_from_text_parsed line inst Ht (or_introl eq_refl))
    as [l1 [a1 [flag [l2 [E1 [E2 Ef]]]]]].
  destruct (check_line_type_zero _ _ _ _ E1) as [Hi _].
  destruct (Hi eq_refl) as [_ [opcode [_ Hu]]].
  destruct (check_operand_inst l1 (with_type a1 inst) flag l2 _ eq_refl E2 Ef)
    as [l0 [l3 E3]].
  exact (check_inst_operand_addressing l0 (with_type a1 inst) flag l3 _ opcode Hu E3 Ef).
Qed.

Lemma parsed_instruction_addressing_witness :
  addressing_ok (u_instruction (create_ast_from_text "lea ARR[2], r1")).
Proof. apply (parsed_instruction_addressing "lea ARR[2], r1"). vm_compute. reflexivity. Defined.

(** ** The hash tables *)

Section HashTables.

Lemma hash_range name0 : 0 <= hash name0 < HASH_TABLE_SIZE.
Proof. unfold hash. apply Z.mod_pos_bound. reflexivity. Qed.

Lemma nth_set_nth {A : Type} (l : list A) (p q : nat) (x d : A) :
  (p < List.length l)%nat ->
  nth q (set_nth p x l) d = if Nat.eqb q p then x else nth q l d.
Proof.
  intros Hp. destruct (Nat.eqb_spec q p) as [-> | Hq].
  - now apply nth_set_nth_same.
  - now apply nth_set_nth_other.
Qed.

Lemma length_set_nth {A : Type} (l : list A) (p : nat) (x : A) :
  List.length (set_nth p x l) = List.length l.
Proof.
  revert p. induction l as [| y r IH]; intros [| p]; cbn; auto.
Qed.

Lemma chain_at_push t i j p :
  0 <= i -> 0 <= j -> (Z.to_nat i < List.length t)%nat ->
  chain_at (chain_push t i p) j = if j =? i then p :: chain_at t i else chain_at t j.
Proof.
  intros Hi Hj Hlen. unfold chain_push, chain_at.
  rewrite nth_set_nth by assumption.
  destruct (Z.eqb_spec j i) as [-> | Hne].
  - now rewrite Nat.eqb_refl.
  - destruct (Nat.eqb_spec (Z.to_nat j) (Z.to_nat i)); [lia | reflexivity].
Qed.

Lemma Forall_set_nth {A : Type} (P : A -> Prop) (l : list A) (p : nat) (x : A) :
  Forall P l -> P x -> Forall P (set_nth p x l).
Proof.
  intros Hl Hx. revert p. induction Hl as [| y r Hy Hr IH]; intros [| p]; cbn;
    constructor; auto.
Qed.

Lemma chain_at_ok n t i : table_ok n t -> Forall (fun p => (p < n)%nat) (chain_at t i).
Proof.
  intros [_ H]. unfold chain_at.
  destruct (Nat.lt_ge_cases (Z.to_nat i) (List.length t)) as [Hi | Hi].
  - rewrite Forall_forall in H. apply H. now apply nth_In.
  - rewrite nth_overflow by assumption. constructor.
Qed.

Lemma table_ok_push n t i :
  table_ok n t -> table_ok (S n) (chain_push t i n).
Proof.
  intros Hok. pose proof (chain_at_ok n t i Hok) as Hc. destruct Hok as [Hlen Hall].
  split; [unfold chain_push; now rewrite length_set_nth |].
  unfold chain_push. apply Forall_set_nth.
  - eapply Forall_impl; [| exact Hall]. intros c Hc'.
    eapply Forall_impl; [| exact Hc']. intros; cbn beta in *; lia.
  - constructor; [lia |]. eapply Forall_impl; [| exact Hc]. intros; cbn beta in *; lia.
Qed.

Lemma table_ok_empty : table_ok 0 empty_chains.
Proof.
  split; [reflexivity |]. unfold empty_chains. apply Forall_forall.
  intros c Hc. apply repeat_spec in Hc. subst. constructor.
Qed.

Variable tu : TRANSLATION_UNIT.
Variable symbol_name : string.
Variable symbol_type0 : symbol_type.
Variable address0 value0 : Z.

Lemma insert_symbol_at_old p :
  (p < List.length (symbol_heap tu))%nat ->
  symbol_at (insert_symbol tu symbol_name symbol_type0 address0 value0) p = symbol_at tu p.
Proof.
  intros Hp. unfold symbol_at, insert_symbol. cbn [symbol_heap with_symbols].
  now rewrite app_nth1.
Qed.

Lemma insert_symbol_at_new :
  symbol_at (insert_symbol tu symbol_name symbol_type0 address0 value0)
            (List.length (symbol_heap tu))
  = mkSymbol symbol_name symbol_type0 address0 value0.
Proof.
  unfold symbol_at, insert_symbol. cbn [symbol_heap with_symbols].
  rewrite app_nth2, Nat.sub_diag by lia. reflexivity.
Qed.

Lemma symbol_chain_lookup_old name0 chain :
  Forall (fun p => (p < List.length (symbol_heap tu))%nat) chain ->
  symbol_chain_lookup name0 (insert_symbol tu symbol_name symbol_type0 address0 value0)
                      chain
  = symbol_chain_lookup name0 tu chain.
Proof.
  induction 1 as [| p r Hp Hr IH]; cbn [symbol_chain_lookup]; [reflexivity |].
  rewrite insert_symbol_at_old, IH by assumption. reflexivity.
Qed.

End HashTables.

(** X13. In a table of [HASH_TABLE_SIZE] chains over allocated nodes,
    [symbol_lookup] finds a symbol right after [insert_symbol], also when the
    name was there before, if the name has fewer than [MAX_LABEL_LEN]
    characters and so fits the array of the node; the other names and the
    older nodes are as they were. *)
Theorem insert_symbol_then_lookup (tu : TRANSLATION_UNIT) (symbol_name : string)
        (symbol_type0 : symbol_type) (address0 value0 : Z) :
  symbols_ok tu ->
  fits_label symbol_name = true ->
  let tu' := insert_symbol tu symbol_name symbol_type0 address0 value0 in
  let new_symbol := List.length (symbol_heap tu) in
  symbols_ok tu'
  /\ symbol_lookup symbol_name tu' = Some new_symbol
  /\ symbol_at tu' new_symbol = mkSymbol symbol_name symbol_type0 address0 value0
  /\ (forall other, other <> symbol_name ->
                    symbol_lookup other tu' = symbol_lookup other tu)
  /\ (forall p, (p < new_symbol)%nat -> symbol_at tu' p = symbol_at tu p).
Proof.
  intros Hok Hfit. cbv zeta.
  pose proof (hash_range symbol_name) as Hh.
  assert (Z.to_nat (hash symbol_name) < List.length (symbol_table tu))%nat as Hslot.
  { destruct Hok as [-> _]. unfold HASH_TABLE_SIZE in *. lia. }
  split; [| split; [| split; [| split]]].
  - unfold symbols_ok, insert_symbol. cbn [symbol_heap symbol_table with_symbols].
    rewrite length_app, Nat.add_1_r. now apply table_ok_push.
  - unfold symbol_lookup. unfold insert_symbol at 2. cbn [symbol_table with_symbols].
    rewrite chain_at_push by lia. rewrite Z.eqb_refl. cbn [symbol_chain_lookup].
    rewrite insert_symbol_at_new. cbn [name]. now rewrite String.eqb_refl.
  - apply insert_symbol_at_new.
  - intros other Hne. unfold symbol_lookup. unfold insert_symbol at 2.
    cbn [symbol_table with_symbols].
    pose proof (hash_range other) as Ho.
    rewrite chain_at_push by lia.
    destruct (Z.eqb_spec (hash other) (hash symbol_name)) as [E | E].
    + cbn [symbol_chain_lookup]. rewrite insert_symbol_at_new. cbn [name].
      destruct (String.eqb_spec other symbol_name); [contradiction |].
      rewrite E. apply symbol_chain_lookup_old. now apply chain_at_ok.
    + apply symbol_chain_lookup_old. now apply chain_at_ok.
  - apply insert_symbol_at_old.
Qed.

Lemma insert_symbol_then_lookup_witness :
  let tu' := insert_symbol zero_unit "K" const_sym 1 5 in
  let new_symbol := List.length (symbol_heap zero_unit) in
  symbols_ok tu'
  /\ symbol_lookup "K" tu' = Some new_symbol
  /\ symbol_at tu' new_symbol = mkSymbol "K" const_sym 1 5
  /\ (forall other, other <> "K" -> symbol_lookup other tu' = symbol_lookup other zero_unit)
  /\ (forall p, (p < new_symbol)%nat -> symbol_at tu' p = symbol_at zero_unit p).
Proof.
  apply (insert_symbol_then_lookup zero_unit "K" const_sym 1 5).
  - split; [reflexivity | vm_compute; repeat constructor].
  - reflexivity.
Defined.

(** ** The table of macros *)

Section MacroTable.

Variable t : MACRO_TABLE.

Lemma insert_macro_at_old name0 p :
  (p < List.length (macro_heap t))%nat ->
  macro_at (snd (insert_macro name0 t)) p = macro_at t p.
Proof.
  intros Hp. unfold macro_at, insert_macro. cbn [snd macro_heap].
  now rewrite app_nth1.
Qed.

Lemma insert_macro_at_new name0 :
  macro_at (snd (insert_macro name0 t)) (List.length (macro_heap t)) = mkMacro name0 [].
Proof.
  unfold macro_at, insert_macro. cbn [snd macro_heap].
  rewrite app_nth2, Nat.sub_diag by lia. reflexivity.
Qed.

Lemma macro_chain_lookup_old name0 other chain :
  Forall (fun p => (p < List.length (macro_heap t))%nat) chain ->
  macro_chain_lookup other (snd (insert_macro name0 t)) chain
  = macro_chain_lookup other t chain.
Proof.
  induction 1 as [| p r Hp Hr IH]; cbn [macro_chain_lookup]; [reflexivity |].
  rewrite insert_macro_at_old, IH by assumption. reflexivity.
Qed.

Lemma text_insert_name p line q :
  macro_name (macro_at (text_insert p line t) q) = macro_name (macro_at t q).
Proof.
  unfold macro_at, text_insert. cbn [macro_heap].
  destruct (Nat.lt_ge_cases p (List.length (macro_heap t))) as [Hp | Hp].
  - rewrite nth_set_nth by assumption. destruct (Nat.eqb_spec q p) as [-> | _]; reflexivity.
  - now rewrite set_nth_beyond.
Qed.

Lemma macro_chain_lookup_text_insert p line other chain :
  macro_chain_lookup other (text_insert p line t) chain = macro_chain_lookup other t chain.
Proof.
  induction chain as [| q r IH]; cbn [macro_chain_lookup]; [reflexivity |].
  now rewrite text_insert_name, IH.
Qed.

End MacroTable.

Lemma insert_macro_ok (t : MACRO_TABLE) (macro_name0 : string) :
  macros_ok t -> macros_ok (snd (insert_macro macro_name0 t)).
Proof.
  intros Hok. unfold macros_ok, insert_macro. cbn [snd macro_heap macro_chains].
  rewrite length_app, Nat.add_1_r. now apply table_ok_push.
Qed.

Lemma insert_macro_lookup_new (t : MACRO_TABLE) (macro_name0 : string) :
  macros_ok t ->
  macro_lookup macro_name0 (snd (insert_macro macro_name0 t))
  = Some (List.length (macro_heap t)).
Proof.
  intros Hok. pose proof (hash_range macro_name0) as Hh.
  assert (Z.to_nat (hash macro_name0) < List.length (macro_chains t))%nat as Hslot.
  { destruct Hok as [-> _]. unfold HASH_TABLE_SIZE in *. lia. }
  unfold macro_lookup. unfold insert_macro at 2. cbn [snd macro_chains].
  rewrite chain_at_push by lia. rewrite Z.eqb_refl. cbn [macro_chain_lookup].
  rewrite insert_macro_at_new. cbn [macro_name]. now rewrite String.eqb_refl.
Qed.

Lemma insert_macro_lookup_other (t : MACRO_TABLE) (macro_name0 other : string) :
  macros_ok t -> other <> macro_name0 ->
  macro_lookup other (snd (insert_macro macro_name0 t)) = macro_lookup other t.
Proof.
  intros Hok Hne. pose proof (hash_range macro_name0) as Hh.
  assert (Z.to_nat (hash macro_name0) < List.length (macro_chains t))%nat as Hslot.
  { destruct Hok as [-> _]. unfold HASH_TABLE_SIZE in *. lia. }
  unfold macro_lookup. unfold insert_macro at 2. cbn [snd macro_chains].
  pose proof (hash_range other) as Ho.
  rewrite chain_at_push by lia.
  destruct (Z.eqb_spec (hash other) (hash macro_name0)) as [E | E].
  - cbn [macro_chain_lookup]. rewrite insert_macro_at_new. cbn [macro_name].
    destruct (String.eqb_spec other macro_name0); [contradiction |].
    rewrite E. apply macro_chain_lookup_old. now apply chain_at_ok.
  - apply macro_chain_lookup_old. now apply chain_at_ok.
Qed.

Lemma text_insert_content (t : MACRO_TABLE) (p : nat) (line : string) :
  (p < List.length (macro_heap t))%nat ->
  content (macro_at (text_insert p line t) p) = (content (macro_at t p) ++ [line])%list.
Proof.
  intros Hp. unfold macro_at at 1, text_insert. cbn [macro_heap].
  rewrite nth_set_nth_same by assumption. reflexivity.
Qed.

Lemma text_insert_lookup (t : MACRO_TABLE) (p : nat) (line name0 : string) :
  macro_lookup name0 (text_insert p line t) = macro_lookup name0 t.
Proof.
  unfold macro_lookup.
  change (macro_chains (text_insert p line t)) with (macro_chains t).
  apply macro_chain_lookup_text_insert.
Qed.

(** X14. In a table of [HASH_TABLE_SIZE] chains over allocated nodes,
    [macro_lookup] finds a macro right after [insert_macro], with an empty
    body; the other names and the older macros are as they were. *)
Theorem insert_macro_then_lookup (t : MACRO_TABLE) (macro_name0 : string) :
  macros_ok t ->
  let new_macro := fst (insert_macro macro_name0 t) in
  let t' := snd (insert_macro macro_name0 t) in
  macros_ok t'
  /\ macro_lookup macro_name0 t' = Some new_macro
  /\ macro_at t' new_macro = mkMacro macro_name0 []
  /\ (forall other, other <> macro_name0 -> macro_lookup other t' = macro_lookup other t)
  /\ (forall p, (p < new_macro)%nat -> macro_at t' p = macro_at t p).
Proof.
  intros Hok. cbv zeta.
  change (fst (insert_macro macro_name0 t)) with (List.length (macro_heap t)).
  split; [now apply insert_macro_ok |].
  split; [now apply insert_macro_lookup_new |].
  split; [apply insert_macro_at_new |].
  split; [intros other Hne; now apply insert_macro_lookup_other |].
  intros p Hp. now apply insert_macro_at_old.
Qed.

Lemma insert_macro_then_lookup_witness :
  let new_macro := fst (insert_macro "M" empty_macro_table) in
  let t' := snd (insert_macro "M" empty_macro_table) in
  macros_ok t'
  /\ macro_lookup "M" t' = Some new_macro
  /\ macro_at t' new_macro = mkMacro "M" []
  /\ (forall other, other <> "M" ->
                    macro_lookup other t' = macro_lookup other empty_macro_table)
  /\ (forall p, (p < new_macro)%nat -> macro_at t' p = macro_at empty_macro_table p).
Proof.
  apply (insert_macro_then_lookup empty_macro_table "M").
  split; [reflexivity | vm_compute; repeat constructor].
Defined.

(** X15. [text_insert] puts the line at the end of the body of the macro and
    changes nothing else: the other macros, the names and what [macro_lookup]
    finds are as they were. *)
Theorem text_insert_appends (t : MACRO_TABLE) (p : nat) (line : string) :
  (p < List.length (macro_heap t))%nat ->
  let t' := text_insert p line t in
  content (macro_at t' p) = (content (macro_at t p) ++ [line])%list
  /\ (forall q, q <> p -> macro_at t' q = macro_at t q)
  /\ (forall q, macro_name (macro_at t' q) = macro_name (macro_at t q))
  /\ (forall name0, macro_lookup name0 t' = macro_lookup name0 t)
  /\ (macros_ok t -> macros_ok t').
Proof.
  intros Hp. cbv zeta.
  split; [now apply text_insert_content |].
  split.
  { intros q Hq. unfold macro_at at 1, text_insert. cbn [macro_heap].
    now rewrite nth_set_nth_other. }
  split; [intros q; apply text_insert_name |].
  split; [intros name0; apply text_insert_lookup |].
  unfold macros_ok, text_insert. cbn [macro_heap macro_chains].
  now rewrite length_set_nth.
Qed.

Lemma text_insert_appends_witness :
  let t := pre_table recording_M in
  let t' := text_insert 0 (" hlt" ++ nl) t in
  content (macro_at t' 0) = (content (macro_at t 0) ++ [(" hlt" ++ nl)%string])%list
  /\ (forall q, q <> 0%nat -> macro_at t' q = macro_at t q)
  /\ (forall q, macro_name (macro_at t' q) = macro_name (macro_at t q))
  /\ (forall name0, macro_lookup name0 t' = macro_lookup name0 t)
  /\ (macros_ok t -> macros_ok t').
Proof.
  apply (text_insert_appends (pre_table recording_M) 0 (" hlt" ++ nl)).
  vm_compute. lia.
Defined.

(** ** Sources without a macro *)

Section MacroFree.

Lemma macro_lookup_empty name0 : macro_lookup name0 empty_macro_table = None.
Proof.
  unfold macro_lookup, empty_macro_table, chain_at, empty_chains. cbn [macro_chains].
  pose proof (hash_range name0) as H.
  rewrite nth_repeat. reflexivity.
Qed.

Variable file_name : string.
Variable line_num : Z.

Lemma line_identifier_loop_plain words word_cnt name0 mcr_ptr t :
  existsb macro_word words = false ->
  (forall word, In word words -> macro_lookup word t = None) ->
  let r := line_identifier_loop words word_cnt false false name0 mcr_ptr t
                                file_name line_num in
  id_type r = any_other_line \/ id_type r = note_sentence.
Proof.
  revert word_cnt name0.
  induction words as [| word rest IH]; intros word_cnt name0 Hw Ht;
    cbn [line_identifier_loop].
  - left. reflexivity.
  - cbn [existsb] in Hw. apply orb_false_iff in Hw. destruct Hw as [Hw Hrest].
    unfold macro_word in Hw. apply orb_false_iff in Hw. destruct Hw as [Hm He].
    cbv zeta. rewrite Hm, He, (Ht word (or_introl eq_refl)). cbn [andb].
    destruct (_ && _); [right; reflexivity |].
    apply IH; [exact Hrest | intros w Hin; apply Ht; now right].
Qed.

End MacroFree.

Section ReadLines.

Lemma fgets_chars_append k file :
  fst (fgets_chars k file) ++ snd (fgets_chars k file) = file.
Proof.
  revert file. induction k as [| k IH]; intros [| c r]; cbn [fgets_chars];
    try reflexivity.
  destruct (Ascii.eqb c newline); [reflexivity |].
  specialize (IH r). destruct (fgets_chars k r) as [l rest]. cbn [fst snd] in *.
  cbn [String.append]. now rewrite IH.
Qed.

Lemma c_str_no_NUL s : strchr s NUL = false -> c_str s = s.
Proof.
  induction s as [| c r IH]; cbn [strchr c_str]; [reflexivity |].
  intros H. apply orb_false_iff in H. destruct H as [H1 H2].
  rewrite H1, (IH H2). reflexivity.
Qed.

(** What [fgets] returns on a file without NUL: a piece that the file starts
    with, and what is left of the file after it. *)
Lemma fgets_splits n file l rest c :
  strchr file NUL = false ->
  fgets n file = Some (l, rest) ->
  file = l ++ rest /\ strchr file c = strchr l c || strchr rest c.
Proof.
  intros Hnul. unfold fgets. destruct file as [| d r]; [discriminate |].
  pose proof (fgets_chars_append (Z.to_nat (n - 1)) (String d r)) as Ha.
  destruct (fgets_chars (Z.to_nat (n - 1)) (String d r)) as [l0 rest0].
  cbn [fst snd] in Ha. intros H; inversion H; subst; clear H.
  rewrite <- Ha in Hnul. rewrite strchr_append in Hnul.
  apply orb_false_iff in Hnul. destruct Hnul as [Hl _].
  rewrite (c_str_no_NUL _ Hl). split; [now rewrite Ha |].
  rewrite <- Ha at 1. apply strchr_append.
Qed.

End ReadLines.

Lemma pre_assembly_loop_copies as_file_name fuel file text line_num :
  (String.length file <= fuel)%nat ->
  strchr file NUL = false -> strchr file EOF_char = false ->
  forallb (fun line => negb (existsb macro_word (all_words line)))
          (fgets_all fuel MAX_LINE_LEN file) = true ->
  exists line_num',
    pre_assembly_loop as_file_name (fgets_all fuel MAX_LINE_LEN file)
                      (mkPre text None 0 line_num empty_macro_table [])
    = inr (mkPre (text ++ file) None 0 line_num' empty_macro_table []).
Proof.
  revert file text line_num.
  induction fuel as [| fuel IH]; intros file text line_num Hfuel Hnul Heof Hfree.
  - destruct file; [| cbn in Hfuel; lia]. cbn. rewrite append_empty_r. eauto.
  - cbn [fgets_all] in *.
    destruct (fgets MAX_LINE_LEN file) as [[l rest] |] eqn:E.
    + assert (String.length rest < String.length file)%nat as Hlen
        by (apply (fgets_consumes MAX_LINE_LEN file l rest); [unfold MAX_LINE_LEN; lia | exact E]).
      destruct (fgets_splits _ _ _ _ NUL Hnul E) as [Hfile Hn].
      destruct (fgets_splits _ _ _ _ EOF_char Hnul E) as [_ He].
      rewrite Hnul in Hn. rewrite Heof in He.
      symmetry in Hn, He. apply orb_false_iff in Hn, He.
      cbn [forallb] in Hfree. apply andb_true_iff in Hfree.
      destruct Hfree as [Hl Hfree]. apply negb_true_iff in Hl.
      cbn [pre_assembly_loop]. unfold pre_assembly_line.
      rewrite (proj1 He), andb_false_r.
      cbn [pre_mcr_ptr pre_table pre_line_num pre_printed am_text mcr_def_flag].
      pose proof (line_identifier_loop_plain as_file_name line_num (all_words l) 0 ""
                    None empty_macro_table Hl
                    (fun w _ => macro_lookup_empty w)) as Ht.
      pose proof (line_identifier_loop_other as_file_name line_num (all_words l) 0
                    false false "" None empty_macro_table) as Ho.
      cbv zeta in Ht, Ho. specialize (Ho Ht). destruct Ho as [Hp [Htab Hpr]].
      fold (line_identifier l None empty_macro_table as_file_name line_num)
        in Ht, Hp, Htab, Hpr.
      destruct (IH rest (text ++ l) (line_num + 1) ltac:(lia) (proj2 Hn) (proj2 He)
                   Hfree) as [k Hk].
      exists k. rewrite Hfile, <- append_assoc, <- Hk.
      destruct Ht as [Ht | Ht]; rewrite Ht, Hp, Htab, Hpr; reflexivity.
    + unfold fgets in E. destruct file; [| destruct (fgets_chars _ _); discriminate].
      cbn. rewrite append_empty_r. eauto.
Qed.

(** X16. A source without NUL and 0xFF bytes is copied to the [.am] file as
    it is when none of the pieces that [fgets] reads from it (a line, or the
    next 81 characters of a longer line) has the word [mcr] or [endmcr]:
    [pre_assembly], from an empty table, returns the name of the [.am] file,
    prints nothing and leaves the table empty. *)
Theorem macro_free_source_is_copied (file_name as_file : string) :
  strchr as_file NUL = false ->
  strchr as_file EOF_char = false ->
  macro_free as_file = true ->
  pre_assembly file_name as_file empty_macro_table
  = mkPreResult (Some (file_name ++ ".am")) (Some as_file) empty_macro_table [].
Proof.
  intros Hnul Heof Hfree. unfold pre_assembly.
  destruct (pre_assembly_loop_copies (file_name ++ ".as") (String.length as_file) as_file
              "" 1 (Nat.le_refl _) Hnul Heof Hfree) as [k Hk].
  unfold read_lines. rewrite Hk. reflexivity.
Qed.

Lemma macro_free_source_is_copied_witness :
  pre_assembly "foo" external_reference empty_macro_table
  = mkPreResult (Some ("foo" ++ ".am")) (Some external_reference) empty_macro_table [].
Proof.
  apply (macro_free_source_is_copied "foo" external_reference); reflexivity.
Defined.

(** ** The diagnostics of the pre-processor *)

Section PreDiagnostics.

Variable file_name : string.
Variable line_num : Z.

Lemma printf_not_nil log msg : printf log msg <> [].
Proof. unfold printf. destruct log; discriminate. Qed.

(** [line_identifier] prints exactly when it returns [error].  While the
    words of a definition are read, the name kept is not that of a macro of
    the table. *)
Lemma line_identifier_loop_printed words word_cnt mcr_definition end_mcr name0 mcr_ptr t :
  0 <= word_cnt ->
  (mcr_definition = true ->
   1 <= word_cnt /\ (2 <= word_cnt -> macro_lookup name0 t = None)) ->
  let r := line_identifier_loop words word_cnt mcr_definition end_mcr name0 mcr_ptr t
                                file_name line_num in
  (id_type r = pa_error /\ id_printed r <> [])
  \/ (id_type r <> pa_error /\ id_printed r = []).
Proof.
  revert word_cnt mcr_definition end_mcr name0.
  induction words as [| word rest IH]; intros word_cnt mcr_definition end_mcr name0 Hpos Hinv;
    cbn [line_identifier_loop].
  - destruct mcr_definition.
    + destruct (Hinv eq_refl) as [H1 H2].
      destruct (Z.eqb_spec word_cnt 1) as [E | E].
      * left. cbn. split; [reflexivity | discriminate].
      * rewrite H2 by lia. unfold insert_macro. right. cbn. split; [discriminate | reflexivity].
    + destruct end_mcr; right; cbn; split; try discriminate; reflexivity.
  - cbv zeta.
    destruct ((word_cnt + 1 =? 1) && Ascii.eqb (first_char word) ";").
    { right. cbn. split; [discriminate | reflexivity]. }
    destruct (String.eqb word "mcr").
    { destruct (Z.gtb_spec (word_cnt + 1) 1) as [G | G].
      - left. cbn. split; [reflexivity | discriminate].
      - apply IH; [lia |]. intros _. split; [lia |]. intros C. lia. }
    destruct mcr_definition.
    { destruct (Hinv eq_refl) as [H1 H2].
      destruct (Z.eqb_spec (word_cnt + 1) 2) as [E | E]; cbn [andb].
      - destruct (macro_lookup word t) eqn:El.
        + left. cbn. split; [reflexivity | discriminate].
        + destruct (_ || _).
          * left. cbn. split; [reflexivity | discriminate].
          * destruct (Z.gtb_spec (word_cnt + 1) 2) as [G | G]; [lia |].
            apply IH; [lia |]. intros _. split; [lia | intros _; exact El].
      - destruct (Z.gtb_spec (word_cnt + 1) 2) as [G | G]; [| lia].
        left. cbn. split; [reflexivity | discriminate]. }
    destruct (String.eqb word "endmcr").
    { apply IH; [lia | discriminate]. }
    destruct (macro_lookup word t).
    { right. cbn. split; [discriminate | reflexivity]. }
    destruct (end_mcr && _).
    { left. cbn. split; [reflexivity | discriminate]. }
    apply IH; [lia | discriminate].
Qed.

End PreDiagnostics.

Lemma pre_assembly_line_printed as_file_name line st :
  pre_printed st = [] ->
  match pre_assembly_line as_file_name line st with
  | inl r => am_file_name r = None /\ am_file r = None /\ result_printed r <> []
  | inr st' => pre_printed st' = []
  end.
Proof.
  intros Hp. unfold pre_assembly_line.
  destruct (negb (strchr line newline) && strchr line EOF_char).
  { cbn. repeat split. apply printf_not_nil. }
  pose proof (line_identifier_loop_printed as_file_name (pre_line_num st)
                (all_words line) 0 false false "" (pre_mcr_ptr st) (pre_table st)
                (Z.le_refl 0) ltac:(discriminate)) as H.
  cbv zeta in H.
  fold (line_identifier line (pre_mcr_ptr st) (pre_table st) as_file_name
                        (pre_line_num st)) in H.
  rewrite Hp. cbn [List.app].
  destruct H as [[Ht Hn] | [Ht Hn]].
  - rewrite Ht. cbn. auto.
  - rewrite Hn.
    destruct (id_type (line_identifier _ _ _ _ _)); try contradiction;
      repeat break_match; reflexivity.
Qed.

Lemma pre_assembly_loop_printed as_file_name lines st :
  pre_printed st = [] ->
  match pre_assembly_loop as_file_name lines st with
  | inl r => am_file_name r = None /\ am_file r = None /\ result_printed r <> []
  | inr st' => pre_printed st' = []
  end.
Proof.
  revert st. induction lines as [| line rest IH]; intros st Hp; cbn [pre_assembly_loop].
  - exact Hp.
  - pose proof (pre_assembly_line_printed as_file_name line st Hp) as H.
    destruct (pre_assembly_line as_file_name line st) as [r | st']; [exact H |].
    now apply IH.
Qed.

Lemma pre_assembly_printed (file_name as_file : string) (t : MACRO_TABLE) :
  let r := pre_assembly file_name as_file t in
  (am_file_name r = None /\ am_file r = None /\ result_printed r <> [])
  \/ (am_file_name r = Some (file_name ++ ".am")
      /\ (exists am, am_file r = Some am) /\ result_printed r = []).
Proof.
  cbv zeta. unfold pre_assembly.
  pose proof (pre_assembly_loop_printed (file_name ++ ".as")
                (read_lines MAX_LINE_LEN as_file) (mkPre "" None 0 1 t []) eq_refl) as H.
  destruct (pre_assembly_loop _ _ _) as [r | st]; [left; exact H |].
  destruct (mcr_def_flag st =? 1).
  - left. cbn. repeat split. apply printf_not_nil.
  - right. cbn. repeat split; eauto.
Qed.

(** X17. [pre_assembly] returns NULL exactly when it has printed a diagnostic;
    the [.am] file is removed exactly when it returns NULL, and a name that it
    returns is that of the [.am] file. *)
Theorem pre_assembly_fails_with_a_diagnostic (file_name as_file : string)
        (t : MACRO_TABLE) :
  let r := pre_assembly file_name as_file t in
  (am_file_name r = None <-> result_printed r <> [])
  /\ (am_file r = None <-> am_file_name r = None)
  /\ (forall am_name, am_file_name r = Some am_name -> am_name = file_name ++ ".am").
Proof.
  cbv zeta.
  destruct (pre_assembly_printed file_name as_file t) as [[P1 [P2 P3]] | [P1 [[am P2] P3]]];
    rewrite P1, P2.
  - split; [tauto |]. split; [tauto |]. discriminate.
  - rewrite P3. split; [| split].
    + split; [discriminate | intros C; now contradiction C].
    + split; discriminate.
    + intros am_name H. now inversion H.
Qed.

(** ** The definition of a macro and its call *)

Section Words.

Lemma get_word_word word rest :
  word <> "" -> string_forall not_sep word = true ->
  (forall c r, rest = String c r -> is_sep c = true) ->
  get_word (word ++ rest) = (Some word, rest).
Proof.
  intros Hne Hw Hrest. unfold get_word.
  destruct word as [| c w]; [contradiction |].
  cbn [string_forall] in Hw. apply andb_true_iff in Hw. destruct Hw as [Hc Hw].
  unfold not_sep in Hc. apply negb_true_iff in Hc.
  cbn [String.append skip_seps]. rewrite Hc. cbn [take_word]. rewrite Hc.
  assert (take_word (w ++ rest) = (w, rest)) as ->; [| reflexivity].
  clear Hc Hne. induction w as [| d w IH]; cbn [String.append].
  - destruct rest as [| e r]; [reflexivity |]. cbn [take_word].
    now rewrite (Hrest e r eq_refl).
  - cbn [string_forall] in Hw. apply andb_true_iff in Hw. destruct Hw as [Hd Hw].
    unfold not_sep in Hd. apply negb_true_iff in Hd.
    cbn [take_word]. rewrite Hd, (IH Hw). reflexivity.
Qed.

Lemma get_word_skip c line : is_sep c = true -> get_word (String c line) = get_word line.
Proof. intros H. unfold get_word. cbn [skip_seps]. now rewrite H. Qed.

Lemma all_words_one word :
  word <> "" -> string_forall not_sep word = true -> all_words (word ++ nl) = [word].
Proof.
  intros Hne Hw. unfold all_words.
  rewrite (words_from_fuel _ _ (S (S (String.length (word ++ nl))))) by lia.
  cbn [words_from].
  rewrite get_word_word
    by first [assumption | intros c r H; inversion H; reflexivity].
  reflexivity.
Qed.

Lemma all_words_mcr word :
  word <> "" -> string_forall not_sep word = true ->
  all_words ("mcr " ++ word ++ nl) = ["mcr"; word].
Proof.
  intros Hne Hw. unfold all_words.
  rewrite (words_from_fuel _ _ (S (S (S (String.length ("mcr " ++ word ++ nl)))))) by lia.
  cbn [words_from].
  change ("mcr " ++ word ++ nl) with ("mcr" ++ String " " (word ++ nl)).
  rewrite get_word_word
    by first [discriminate | reflexivity | intros c r H; inversion H; reflexivity].
  rewrite get_word_skip by reflexivity.
  rewrite get_word_word
    by first [assumption | intros c r H; inversion H; reflexivity].
  reflexivity.
Qed.

End Words.

Section MacroDefinition.

Variable file_name : string.

Lemma line_identifier_loop_later words word_cnt mcr_definition end_mcr name0 mcr_ptr t
      line_num :
  1 <= word_cnt ->
  id_type (line_identifier_loop words word_cnt mcr_definition end_mcr name0 mcr_ptr t
                                file_name line_num) <> note_sentence.
Proof.
  revert word_cnt mcr_definition end_mcr name0.
  induction words as [| word rest IH]; intros word_cnt mcr_definition end_mcr name0 Hc;
    cbn [line_identifier_loop].
  - repeat break_match; cbn; discriminate.
  - cbv zeta.
    destruct (Z.eqb_spec (word_cnt + 1) 1) as [C | _]; [lia |]. cbn [andb].
    repeat break_match; cbn [id_type]; try discriminate; apply IH; lia.
Qed.

Lemma line_identifier_ordinary line mcr_ptr t line_num :
  is_comment line = false ->
  existsb macro_word (all_words line) = false ->
  (forall word, In word (all_words line) -> macro_lookup word t = None) ->
  line_identifier line mcr_ptr t file_name line_num
  = mkIdentified any_other_line mcr_ptr t [].
Proof.
  intros Hc Hw Ht. unfold line_identifier.
  pose proof (line_identifier_loop_plain file_name line_num (all_words line) 0 "" mcr_ptr t
                Hw Ht) as Hp.
  pose proof (line_identifier_loop_other file_name line_num (all_words line) 0 false false
                "" mcr_ptr t) as Ho.
  cbv zeta in Hp, Ho. specialize (Ho Hp). destruct Ho as [H1 [H2 H3]].
  assert (id_type (line_identifier_loop (all_words line) 0 false false "" mcr_ptr t
                                        file_name line_num) = any_other_line) as H0.
  { destruct Hp as [Hp | Hp]; [exact Hp | exfalso].
    revert Hp. unfold is_comment in Hc.
    destruct (all_words line) as [| word rest]; [discriminate |].
    cbn [line_identifier_loop]. cbv zeta. rewrite Hc, andb_false_r.
    cbn [existsb] in Hw. apply orb_false_iff in Hw. destruct Hw as [Hw _].
    unfold macro_word in Hw. apply orb_false_iff in Hw. destruct Hw as [Hm He].
    rewrite Hm, He, (Ht word (or_introl eq_refl)). cbn [andb].
    apply line_identifier_loop_later. lia. }
  destruct (line_identifier_loop _ _ _ _ _ _ _ _ _) as [ty p tab pr].
  cbn [id_type id_mcr_ptr id_table id_printed] in *. congruence.
Qed.

Lemma line_identifier_definition name0 mcr_ptr t line_num :
  macro_name_ok name0 t = true ->
  line_identifier ("mcr " ++ name0 ++ nl) mcr_ptr t file_name line_num
  = mkIdentified macro_definition (Some (List.length (macro_heap t)))
                 (snd (insert_macro name0 t)) [].
Proof.
  unfold macro_name_ok. intros H.
  repeat (apply andb_true_iff in H; destruct H as [H ?]).
  repeat match goal with
         | H : negb _ = true |- _ => apply negb_true_iff in H
         | H : (_ =? _) = true |- _ => apply Z.eqb_eq in H
         end.
  assert (name0 <> "") as Hne by (intros ->; discriminate).
  unfold macro_word in *.
  match goal with H : _ || _ = false |- _ => apply orb_false_iff in H; destruct H as [Hm He] end.
  unfold line_identifier. rewrite all_words_mcr by assumption.
  cbn [line_identifier_loop]. cbv zeta.
  change (0 + 1) with 1. change (1 + 1) with 2.
  change ((1 =? 1) && Ascii.eqb (first_char "mcr") ";") with false.
  change (String.eqb "mcr" "mcr") with true. change (1 >? 1) with false.
  change (2 =? 1) with false. change (2 =? 2) with true. change (2 >? 2) with false.
  cbv iota. cbn [andb]. rewrite Hm.
  destruct (macro_lookup name0 t) eqn:El; [discriminate |].
  match goal with H : is_directive name0 = -1 |- _ => rewrite H end.
  match goal with H : is_operation name0 = -1 |- _ => rewrite H end.
  reflexivity.
Qed.

Lemma line_identifier_end mcr_ptr t line_num :
  line_identifier ("endmcr" ++ nl) mcr_ptr t file_name line_num
  = mkIdentified end_macro_definition None t [].
Proof. reflexivity. Qed.

Lemma line_identifier_call name0 called mcr_ptr t line_num :
  name0 <> "" -> string_forall not_sep name0 = true ->
  Ascii.eqb (first_char name0) ";" = false -> macro_word name0 = false ->
  macro_lookup name0 t = Some called ->
  line_identifier (name0 ++ nl) mcr_ptr t file_name line_num
  = mkIdentified macro_call (Some called) t [].
Proof.
  intros Hne Hw Hc Hm Hl. unfold line_identifier. rewrite all_words_one by assumption.
  cbn [line_identifier_loop]. cbv zeta. rewrite Hc, andb_false_r.
  unfold macro_word in Hm. apply orb_false_iff in Hm. destruct Hm as [Hm He].
  rewrite Hm, He, Hl. reflexivity.
Qed.

End MacroDefinition.

Section MacroExpansion.

Variable as_file_name : string.

Lemma strchr_newline_end s : strchr (s ++ nl) newline = true.
Proof. rewrite strchr_append. cbn. apply orb_true_r. Qed.

Lemma concat_app_lines (l1 l2 : list string) :
  String.concat "" (l1 ++ l2) = String.concat "" l1 ++ String.concat "" l2.
Proof.
  induction l1 as [| x r IH]; cbn [List.app]; [reflexivity |].
  destruct r as [| y r'].
  - cbn [List.app String.concat]. destruct l2 as [| z l2']; cbn [String.concat].
    + now rewrite append_empty_r.
    + reflexivity.
  - cbn [List.app String.concat] in *. rewrite IH. cbn [String.append].
    now rewrite !append_assoc.
Qed.

(** The lines of a body are appended to the macro that is being recorded;
    nothing is written and the names of the macros stay as they are. *)
Lemma pre_assembly_loop_body name0 t lines st p :
  pre_mcr_ptr st = Some p ->
  (p < List.length (macro_heap (pre_table st)))%nat ->
  (forall word, word <> name0 -> macro_lookup word (pre_table st) = macro_lookup word t) ->
  forallb (body_line_ok name0 t) lines = true ->
  exists st',
    pre_assembly_loop as_file_name lines st = inr st'
    /\ am_text st' = am_text st
    /\ pre_mcr_ptr st' = Some p
    /\ mcr_def_flag st' = mcr_def_flag st
    /\ pre_printed st' = pre_printed st
    /\ (forall word, macro_lookup word (pre_table st') = macro_lookup word (pre_table st))
    /\ content (macro_at (pre_table st') p)
       = (content (macro_at (pre_table st) p) ++ lines)%list.
Proof.
  revert st. induction lines as [| line rest IH]; intros st Hp Hlen Hlook Hok;
    cbn [pre_assembly_loop].
  - exists st. rewrite app_nil_r. repeat split; auto.
  - cbn [forallb] in Hok. apply andb_true_iff in Hok. destruct Hok as [Hline Hrest].
    unfold body_line_ok in Hline.
    apply andb_true_iff in Hline. destruct Hline as [Hline Hwords].
    apply andb_true_iff in Hline. destruct Hline as [Hlong Hcomment].
    apply negb_true_iff in Hlong, Hcomment.
    rewrite forallb_forall in Hwords.
    assert (existsb macro_word (all_words line) = false) as Hm.
    { apply not_true_is_false. intros C. apply existsb_exists in C.
      destruct C as [w [Hin Hw]]. specialize (Hwords w Hin).
      rewrite Hw in Hwords. discriminate. }
    assert (forall word, In word (all_words line) ->
                         macro_lookup word (pre_table st) = None) as Hnone.
    { intros w Hin. specialize (Hwords w Hin).
      apply andb_true_iff in Hwords. destruct Hwords as [Hw Hl].
      apply andb_true_iff in Hw. destruct Hw as [_ Hn].
      apply negb_true_iff in Hn, Hl.
      rewrite Hlook by (intros ->; now rewrite String.eqb_refl in Hn).
      destruct (macro_lookup w t); [discriminate | reflexivity]. }
    unfold pre_assembly_line. rewrite Hlong.
    rewrite (line_identifier_ordinary as_file_name line (pre_mcr_ptr st) (pre_table st)
               (pre_line_num st) Hcomment Hm Hnone).
    cbn [id_type id_mcr_ptr id_table id_printed]. rewrite Hp, app_nil_r.
    pose proof (text_insert_content (pre_table st) p line Hlen) as T1.
    pose proof (text_insert_lookup (pre_table st) p line) as T4.
    destruct (IH (mkPre (am_text st) (Some p) (mcr_def_flag st) (pre_line_num st + 1)
                        (text_insert p line (pre_table st)) (pre_printed st)))
      as [st' [E [I1 [I2 [I3 [I4 [I5 I6]]]]]]];
      cbn [pre_mcr_ptr pre_table am_text mcr_def_flag pre_printed] in *.
    + reflexivity.
    + unfold text_insert. cbn [macro_heap]. now rewrite length_set_nth.
    + intros w Hw. rewrite T4. now apply Hlook.
    + exact Hrest.
    + exists st'. rewrite E. repeat split; auto.
      * intros w. now rewrite I5, T4.
      * rewrite I6, T1, <- app_assoc. reflexivity.
Qed.

End MacroExpansion.

(** X18. The loop of [pre_assembly] on the definition of a macro followed by
    its call: the lines [mcr NAME], a body of ordinary lines, [endmcr] and
    [NAME] write the body to the [.am] file, once and as it is, print nothing
    and leave no definition open. *)
Theorem macro_definition_then_call (as_file_name name0 : string) (body : list string)
        (st : PRE_STATE) :
  macros_ok (pre_table st) ->
  macro_name_ok name0 (pre_table st) = true ->
  forallb (body_line_ok name0 (pre_table st)) body = true ->
  exists st',
    pre_assembly_loop as_file_name
      (("mcr " ++ name0 ++ nl) :: body ++ ["endmcr" ++ nl; name0 ++ nl]) st = inr st'
    /\ am_text st' = am_text st ++ String.concat "" body
    /\ pre_mcr_ptr st' = None
    /\ mcr_def_flag st' = 0
    /\ pre_printed st' = pre_printed st
    /\ (exists defined,
           macro_lookup name0 (pre_table st') = Some defined
           /\ content (macro_at (pre_table st') defined) = body).
Proof.
  intros Hok Hname Hbody.
  pose proof Hname as Hn. unfold macro_name_ok in Hn.
  repeat (apply andb_true_iff in Hn; destruct Hn as [Hn ?]).
  repeat match goal with
         | H : negb _ = true |- _ => apply negb_true_iff in H
         end.
  assert (name0 <> "") as Hne by (intros ->; discriminate).
  pose proof (insert_macro_lookup_new (pre_table st) name0 Hok) as M2.
  pose proof (insert_macro_at_new (pre_table st) name0) as M3.
  pose proof (fun other => insert_macro_lookup_other (pre_table st) name0 other Hok) as M4.
  set (p := List.length (macro_heap (pre_table st))) in *.
  set (t1 := snd (insert_macro name0 (pre_table st))) in *.
  cbn [pre_assembly_loop]. unfold pre_assembly_line at 1.
  rewrite (strchr_append "mcr " (name0 ++ nl)), strchr_newline_end, orb_true_r.
  cbn [negb andb].
  rewrite (line_identifier_definition as_file_name name0 (pre_mcr_ptr st) (pre_table st)
             (pre_line_num st) Hname).
  cbn [id_type id_mcr_ptr id_table id_printed]. rewrite app_nil_r.
  fold p. fold t1.
  destruct (pre_assembly_loop_body as_file_name name0 (pre_table st) body
              (mkPre (am_text st) (Some p) 1 (pre_line_num st + 1) t1 (pre_printed st)) p)
    as [st1 [E1 [B1 [B2 [B3 [B4 [B5 B6]]]]]]];
    cbn [pre_mcr_ptr pre_table am_text mcr_def_flag pre_printed] in *.
  - reflexivity.
  - unfold t1, insert_macro. cbn [snd macro_heap]. rewrite length_app. cbn. lia.
  - intros w Hw. now apply M4.
  - exact Hbody.
  - assert (forall (l1 l2 : list string) s s',
               pre_assembly_loop as_file_name l1 s = inr s' ->
               pre_assembly_loop as_file_name (l1 ++ l2) s
               = pre_assembly_loop as_file_name l2 s') as Happ.
    { induction l1 as [| x r IHl]; intros l2 s s' Hs;
        cbn [pre_assembly_loop List.app] in *.
      - now inversion Hs.
      - destruct (pre_assembly_line as_file_name x s); [discriminate | now apply IHl]. }
    rewrite (Happ _ _ _ _ E1). cbn [pre_assembly_loop].
    unfold pre_assembly_line at 1. rewrite strchr_newline_end. cbn [negb andb].
    rewrite line_identifier_end. cbn [id_type id_mcr_ptr id_table id_printed].
    unfold pre_assembly_line at 1. rewrite strchr_newline_end. cbn [negb andb].
    cbn [pre_mcr_ptr pre_table pre_line_num am_text mcr_def_flag pre_printed].
    rewrite (line_identifier_call as_file_name name0 p None (pre_table st1)
               (pre_line_num st1 + 1) Hne)
      by (try assumption; now rewrite B5).
    cbn [id_type id_mcr_ptr id_table id_printed].
    eexists. split; [reflexivity |].
    cbn [pre_mcr_ptr pre_table am_text mcr_def_flag pre_printed].
    rewrite !app_nil_r, B1, B4, B6, M3. cbn [content List.app].
    repeat split. exists p. split; [now rewrite B5 | now rewrite B6, M3].
Qed.

Lemma macro_definition_then_call_witness :
  exists st',
    pre_assembly_loop "foo.as"
      (("mcr " ++ "M" ++ nl) :: [" hlt" ++ nl; " rts" ++ nl] ++ ["endmcr" ++ nl; "M" ++ nl])
      (mkPre "" None 0 1 empty_macro_table []) = inr st'
    /\ am_text st'
       = am_text (mkPre "" None 0 1 empty_macro_table [])
         ++ String.concat "" [" hlt" ++ nl; " rts" ++ nl]
    /\ pre_mcr_ptr st' = None
    /\ mcr_def_flag st' = 0
    /\ pre_printed st' = pre_printed (mkPre "" None 0 1 empty_macro_table [])
    /\ (exists defined,
           macro_lookup "M" (pre_table st') = Some defined
           /\ content (macro_at (pre_table st') defined) = [" hlt" ++ nl; " rts" ++ nl]).
Proof.
  apply (macro_definition_then_call "foo.as" "M" [" hlt" ++ nl; " rts" ++ nl]
           (mkPre "" None 0 1 empty_macro_table [])).
  - split; [reflexivity | vm_compute; repeat constructor].
  - vm_compute. reflexivity.
  - vm_compute. reflexivity.
Defined.

(** ** The lines met while a macro is recorded *)

Section RecordingSteps.

Variable as_file_name : string.








End RecordingSteps.



(** ** When the first pass returns *)

(** X19. Once the lines are read without a failed allocation, [first_pass]
    returns exactly when no symbol of the table is still an entry without
    definition. *)
Theorem first_pass_returns_without_pending (am_file_name : string) (tu : TRANSLATION_UNIT)
        (am_file : string) (macro_table : MACRO_TABLE) (st : FIRST_STATE) :
  first_pass_lines am_file_name macro_table (read_lines MAX_LINE_LEN am_file)
                   (mkFirst 100 0 NO_ERRORS 1 tu []) = inr st ->
  (exists fuel r, first_pass fuel tu am_file am_file_name macro_table = Some r)
  <-> (forall chain p, In chain (symbol_table (fp_unit st)) -> In p chain ->
                       ~ pending (fp_unit st) p).
Proof.
  intros E. split.
  - intros [fuel [r Hr]] chain p Hc Hp Hpending.
    rewrite (pending_entry_diverges am_file_name fuel tu am_file macro_table st chain p
               E Hc Hp Hpending) in Hr.
    discriminate.
  - intros Hno. eexists. now apply (first_pass_returns am_file_name tu am_file macro_table st).
Qed.

Lemma first_pass_returns_without_pending_witness :
  (exists fuel r,
      first_pass fuel zero_unit constant_and_data "foo.am" empty_macro_table = Some r)
  <-> (forall chain p,
          In chain (symbol_table (fp_unit constant_and_data_read)) -> In p chain ->
          ~ pending (fp_unit constant_and_data_read) p).
Proof.
  apply (first_pass_returns_without_pending "foo.am" zero_unit constant_and_data
           empty_macro_table constant_and_data_read).
  vm_compute. reflexivity.
Defined.

(** ** The diagnostics of the first pass *)

Ltac first_cbn :=
  cbn [fp_ic fp_dc fp_err_flag fp_line_num fp_unit fp_printed fp_error_continue
       fp_with_unit fp_next_line fp_return fp_final].

Section FirstPassDiagnostics.

Variable am_file_name : string.
Variable macro_table : MACRO_TABLE.

Lemma fp_error_continue_flag st msg : fp_flag_ok (fp_error_continue st msg).
Proof. right. first_cbn. split; [reflexivity | apply printf_not_nil]. Qed.

Lemma fp_define_label_flag line_ast st :
  fp_flag_ok st ->
  match fp_define_label am_file_name macro_table line_ast st with
  | inl st' => fp_flag_ok st'
  | inr st' => fp_flag_ok st'
  end.
Proof.
  intros H. unfold fp_define_label.
  repeat break_match; try apply fp_error_continue_flag; exact H.
Qed.

Lemma fp_advance_flag line_ast st :
  fp_flag_ok st ->
  match fp_advance am_file_name macro_table line_ast st with
  | inl st' => fp_flag_ok st'
  | inr st' => fp_flag_ok st'
  end.
Proof.
  intros H. unfold fp_advance.
  repeat break_match; try apply fp_error_continue_flag; exact H.
Qed.

Lemma first_pass_line_flag line st :
  fp_flag_ok st ->
  match first_pass_line am_file_name macro_table line st with
  | inl r => fp_return r = MEMORY_ALLOCATION_ERROR /\ fp_printed (fp_final r) <> []
  | inr st' => fp_flag_ok st'
  end.
Proof.
  intros H. unfold first_pass_line.
  destruct (ast_type (create_ast_from_text line)).
  - break_match; first_cbn.
    + split; [reflexivity | apply printf_not_nil].
    + right. first_cbn. split; [reflexivity | apply printf_not_nil].
  - exact H.
  - exact H.
  - pose proof (fp_define_label_flag (create_ast_from_text line) st H) as H1.
    destruct (fp_define_label _ _ _ st) as [s | s]; [exact H1 |].
    pose proof (fp_advance_flag (create_ast_from_text line) s H1) as H2.
    destruct (fp_advance _ _ _ s) as [s' | s']; exact H2.
  - pose proof (fp_define_label_flag (create_ast_from_text line) st H) as H1.
    destruct (fp_define_label _ _ _ st) as [s | s]; [exact H1 |].
    pose proof (fp_advance_flag (create_ast_from_text line) s H1) as H2.
    destruct (fp_advance _ _ _ s) as [s' | s']; exact H2.
  - repeat break_match; try apply fp_error_continue_flag; exact H.
Qed.

Lemma first_pass_lines_flag lines st :
  fp_flag_ok st ->
  match first_pass_lines am_file_name macro_table lines st with
  | inl r => fp_return r = MEMORY_ALLOCATION_ERROR /\ fp_printed (fp_final r) <> []
  | inr st' => fp_flag_ok st'
  end.
Proof.
  revert st. induction lines as [| line rest IH]; intros st H; cbn [first_pass_lines].
  - exact H.
  - pose proof (first_pass_line_flag line st H) as H1.
    destruct (first_pass_line _ _ line st) as [r | s]; [exact H1 | now apply IH].
Qed.

Lemma fp_chain_loop_flag fuel chain st st' :
  fp_chain_loop fuel am_file_name chain st = Some st' -> fp_flag_ok st -> fp_flag_ok st'.
Proof.
  revert chain st. induction fuel as [| fuel IH]; intros [| p next] st H;
    cbn [fp_chain_loop] in H; try discriminate; try (inversion H; subst; now auto).
  destruct (type (symbol_at (fp_unit st) p)) eqn:Et; intros Hok; apply IH in H;
    try exact H; try exact Hok.
  right. first_cbn. split; [reflexivity | apply printf_not_nil].
Qed.

Lemma fp_table_loop_flag fuel slots st st' :
  fp_table_loop fuel am_file_name slots st = Some st' -> fp_flag_ok st -> fp_flag_ok st'.
Proof.
  revert st. induction slots as [| chain rest IH]; intros st H Hok;
    cbn [fp_table_loop] in H.
  - inversion H; subst. exact Hok.
  - destruct (fp_chain_loop fuel am_file_name chain st) as [s |] eqn:E; [| discriminate].
    apply (IH _ H). now apply (fp_chain_loop_flag _ _ _ _ E).
Qed.

End FirstPassDiagnostics.

Lemma first_pass_printed (fuel : nat) (curr_program : TRANSLATION_UNIT)
      (am_file am_file_name : string) (macro_table : MACRO_TABLE) (r : FIRST_RESULT) :
  first_pass fuel curr_program am_file am_file_name macro_table = Some r ->
  (fp_return r = NO_ERRORS /\ fp_printed (fp_final r) = [])
  \/ ((fp_return r = SYNTAX_OR_LOGIC_ERROR \/ fp_return r = MEMORY_ALLOCATION_ERROR)
      /\ fp_printed (fp_final r) <> []).
Proof.
  unfold first_pass.
  pose proof (first_pass_lines_flag am_file_name macro_table
                (read_lines MAX_LINE_LEN am_file)
                (mkFirst 100 0 NO_ERRORS 1 curr_program [])
                (or_introl (conj eq_refl eq_refl))) as Hl.
  destruct (first_pass_lines _ _ _ _) as [r0 | st].
  - intros H; inversion H; subst. right. destruct Hl. auto.
  - destruct (fp_table_loop fuel am_file_name _ st) as [st' |] eqn:E; [| discriminate].
    intros H; inversion H; subst; clear H. cbn [fp_return fp_final].
    destruct (fp_table_loop_flag _ _ _ _ _ E Hl) as [[H1 H2] | [H1 H2]]; rewrite H1.
    + left. auto.
    + right. auto.
Qed.

(** X20. [first_pass] returns [NO_ERRORS] exactly when it printed nothing, and
    it returns no other value than [NO_ERRORS], [SYNTAX_OR_LOGIC_ERROR] and
    [MEMORY_ALLOCATION_ERROR]. *)
Theorem first_pass_is_silent_when_it_succeeds (fuel : nat) (curr_program : TRANSLATION_UNIT)
        (am_file am_file_name : string) (macro_table : MACRO_TABLE) (r : FIRST_RESULT) :
  first_pass fuel curr_program am_file am_file_name macro_table = Some r ->
  (fp_return r = NO_ERRORS <-> fp_printed (fp_final r) = [])
  /\ (fp_return r = NO_ERRORS \/ fp_return r = SYNTAX_OR_LOGIC_ERROR
      \/ fp_return r = MEMORY_ALLOCATION_ERROR).
Proof.
  intros H.
  destruct (first_pass_printed _ _ _ _ _ _ H) as [[R P] | [R P]].
  - rewrite R, P. split; [tauto | now left].
  - split; [| tauto]. split.
    + intros C. rewrite C in R. destruct R; discriminate.
    + intros C. contradiction.
Qed.

Lemma first_pass_is_silent_when_it_succeeds_witness :
  (fp_return constant_and_data_pass = NO_ERRORS
   <-> fp_printed (fp_final constant_and_data_pass) = [])
  /\ (fp_return constant_and_data_pass = NO_ERRORS
      \/ fp_return constant_and_data_pass = SYNTAX_OR_LOGIC_ERROR
      \/ fp_return constant_and_data_pass = MEMORY_ALLOCATION_ERROR).
Proof.
  apply (first_pass_is_silent_when_it_succeeds 5 zero_unit constant_and_data "foo.am"
           empty_macro_table constant_and_data_pass).
  vm_compute. reflexivity.
Defined.

(** ** What the first pass leaves alone *)

(** X21. [first_pass] leaves the two images, the counters [ic] and [dc] of the
    translation unit and the externals as they are. *)
Theorem first_pass_leaves_the_images (fuel : nat) (curr_program : TRANSLATION_UNIT)
        (am_file am_file_name : string) (macro_table : MACRO_TABLE) (r : FIRST_RESULT) :
  first_pass fuel curr_program am_file am_file_name macro_table = Some r ->
  let tu' := fp_unit (fp_final r) in
  instruction_array tu' = instruction_array curr_program
  /\ data_array tu' = data_array curr_program
  /\ ic tu' = ic curr_program /\ dc tu' = dc curr_program
  /\ ext_list tu' = ext_list curr_program
  /\ external_counter tu' = external_counter curr_program.
Proof.
  intros H. apply first_pass_images in H. cbv zeta.
  unfold images_part in H. inversion H. repeat split; assumption.
Qed.

Lemma first_pass_leaves_the_images_witness :
  let tu' := fp_unit (fp_final constant_and_data_pass) in
  instruction_array tu' = instruction_array zero_unit
  /\ data_array tu' = data_array zero_unit
  /\ ic tu' = ic zero_unit /\ dc tu' = dc zero_unit
  /\ ext_list tu' = ext_list zero_unit
  /\ external_counter tu' = external_counter zero_unit.
Proof.
  apply (first_pass_leaves_the_images 5 zero_unit constant_and_data "foo.am"
           empty_macro_table constant_and_data_pass).
  vm_compute. reflexivity.
Defined.

(** ** The list of entries *)

Section Entries.

Variable am_file_name : string.
Variable macro_table : MACRO_TABLE.

Lemma fp_define_label_entries line_ast st :
  match fp_define_label am_file_name macro_table line_ast st with
  | inl st' => entries_part (fp_unit st') = entries_part (fp_unit st)
  | inr st' => entries_part (fp_unit st') = entries_part (fp_unit st)
  end.
Proof. unfold fp_define_label. repeat break_match; reflexivity. Qed.

Lemma fp_advance_entries line_ast st :
  match fp_advance am_file_name macro_table line_ast st with
  | inl st' => entries_part (fp_unit st') = entries_part (fp_unit st)
  | inr st' => entries_part (fp_unit st') = entries_part (fp_unit st)
  end.
Proof. unfold fp_advance. repeat break_match; reflexivity. Qed.

Lemma first_pass_line_entries line st :
  match first_pass_line am_file_name macro_table line st with
  | inl r => entries_part (fp_unit (fp_final r)) = entries_part (fp_unit st)
  | inr st' => entries_part (fp_unit st') = entries_part (fp_unit st)
  end.
Proof.
  unfold first_pass_line.
  assert (match fp_define_label am_file_name macro_table (create_ast_from_text line) st with
          | inl st' => entries_part (fp_unit st') = entries_part (fp_unit st)
          | inr st1 =>
              match fp_advance am_file_name macro_table (create_ast_from_text line) st1 with
              | inl st' => entries_part (fp_unit st') = entries_part (fp_unit st)
              | inr st2 => entries_part (fp_unit (fp_next_line st2)) = entries_part (fp_unit st)
              end
          end) as Hlabel.
  { pose proof (fp_define_label_entries (create_ast_from_text line) st) as H1.
    destruct (fp_define_label _ _ _ st) as [s | s]; [exact H1 |].
    pose proof (fp_advance_entries (create_ast_from_text line) s) as H2.
    destruct (fp_advance _ _ _ s) as [s' | s']; first_cbn; congruence. }
  destruct (ast_type (create_ast_from_text line)); try reflexivity.
  - break_match; reflexivity.
  - destruct (fp_define_label _ _ _ st) as [s | s]; [exact Hlabel |].
    destruct (fp_advance _ _ _ s); exact Hlabel.
  - destruct (fp_define_label _ _ _ st) as [s | s]; [exact Hlabel |].
    destruct (fp_advance _ _ _ s); exact Hlabel.
  - repeat break_match; reflexivity.
Qed.

Lemma first_pass_lines_entries lines st :
  match first_pass_lines am_file_name macro_table lines st with
  | inl r => entries_part (fp_unit (fp_final r)) = entries_part (fp_unit st)
  | inr st' => entries_part (fp_unit st') = entries_part (fp_unit st)
  end.
Proof.
  revert st. induction lines as [| line rest IH]; intros st; cbn [first_pass_lines].
  - reflexivity.
  - pose proof (first_pass_line_entries line st) as H.
    destruct (first_pass_line _ _ line st) as [r | s]; [exact H |].
    specialize (IH s).
    destruct (first_pass_lines _ _ rest s); now rewrite IH.
Qed.

Lemma is_entry_close p st q :
  is_entry (symbol_at (fp_unit (fp_close_symbol p st)) q)
  = is_entry (symbol_at (fp_unit st) q).
Proof. unfold is_entry. now rewrite fp_close_symbol_type. Qed.

Lemma fp_close_symbol_table p st :
  symbol_table (fp_unit (fp_close_symbol p st)) = symbol_table (fp_unit st).
Proof. unfold fp_close_symbol. repeat break_match; reflexivity. Qed.

(** The body of the closing loop puts the symbol in the list when it is an
    entry, and keeps what the list holds. *)
Lemma fp_close_symbol_entries p st :
  entries_ok (fp_unit st) ->
  entries_ok (fp_unit (fp_close_symbol p st))
  /\ (is_entry (symbol_at (fp_unit st) p) = true ->
      In p (entries_list (fp_unit (fp_close_symbol p st))))
  /\ incl (entries_list (fp_unit st)) (entries_list (fp_unit (fp_close_symbol p st))).
Proof.
  intros [Hc Hall].
  assert (Forall (fun q => is_entry (symbol_at (fp_unit (fp_close_symbol p st)) q) = true)
                 (entries_list (fp_unit st))) as Hkept.
  { eapply Forall_impl; [| exact Hall]. intros q Hq. cbn beta. now rewrite is_entry_close. }
  pose proof (is_entry_close p st p) as Hp.
  revert Hkept Hp. unfold entries_ok, fp_close_symbol, is_entry.
  destruct (type (symbol_at (fp_unit st) p)) eqn:Et; first_cbn;
    cbn [entries_list entries_counter with_entries store_symbol with_symbols];
    intros Hkept Hp;
    repeat split; auto; try discriminate; try apply incl_refl;
    try (rewrite Hc; cbn [List.length]; lia);
    try (intros _; now left);
    try (apply incl_tl, incl_refl);
    constructor; auto.
Qed.

Lemma fp_chain_loop_entries fuel chain st st' :
  fp_chain_loop fuel am_file_name chain st = Some st' ->
  entries_ok (fp_unit st) ->
  entries_ok (fp_unit st')
  /\ symbol_table (fp_unit st') = symbol_table (fp_unit st)
  /\ (forall q, is_entry (symbol_at (fp_unit st') q) = is_entry (symbol_at (fp_unit st) q))
  /\ (forall p, In p chain -> is_entry (symbol_at (fp_unit st) p) = true ->
                In p (entries_list (fp_unit st')))
  /\ incl (entries_list (fp_unit st)) (entries_list (fp_unit st')).
Proof.
  assert (forall s, entries_ok (fp_unit s) ->
                    entries_ok (fp_unit s)
                    /\ symbol_table (fp_unit s) = symbol_table (fp_unit s)
                    /\ (forall q, is_entry (symbol_at (fp_unit s) q)
                                  = is_entry (symbol_at (fp_unit s) q))
                    /\ (forall p, In p [] -> is_entry (symbol_at (fp_unit s) p) = true ->
                                  In p (entries_list (fp_unit s)))
                    /\ incl (entries_list (fp_unit s)) (entries_list (fp_unit s))) as Hnil.
  { intros s Hs. repeat split; try (now apply Hs); [intros ? [] | apply incl_refl]. }
  revert chain st. induction fuel as [| fuel IH]; intros chain st H Hok;
    destruct chain as [| p next]; cbn [fp_chain_loop] in H.
  - inversion H; subst. now apply Hnil.
  - discriminate H.
  - inversion H; subst. now apply Hnil.
  - clear Hnil.
    destruct (type (symbol_at (fp_unit st) p)) eqn:Et;
      try (rewrite fp_chain_loop_pending in H by exact Et; discriminate);
      destruct (fp_close_symbol_entries p st Hok) as [C1 [C2 C3]];
      destruct (IH _ _ H C1) as [I1 [I2 [I3 [I4 I5]]]];
      (split; [exact I1 |]);
      (split; [now rewrite I2, fp_close_symbol_table |]);
      (split; [intros q; now rewrite I3, is_entry_close |]);
      (split; [| eapply incl_tran; eassumption]);
      (intros q [<- | Hq] Hq';
       [apply I5, C2, Hq' | apply I4; [exact Hq | now rewrite is_entry_close]]).
Qed.

Lemma fp_table_loop_entries fuel slots st st' :
  fp_table_loop fuel am_file_name slots st = Some st' ->
  entries_ok (fp_unit st) ->
  entries_ok (fp_unit st')
  /\ symbol_table (fp_unit st') = symbol_table (fp_unit st)
  /\ (forall q, is_entry (symbol_at (fp_unit st') q) = is_entry (symbol_at (fp_unit st) q))
  /\ (forall chain p, In chain slots -> In p chain ->
                      is_entry (symbol_at (fp_unit st) p) = true ->
                      In p (entries_list (fp_unit st')))
  /\ incl (entries_list (fp_unit st)) (entries_list (fp_unit st')).
Proof.
  revert st. induction slots as [| c rest IH]; intros st H Hok; cbn [fp_table_loop] in H.
  - inversion H; subst. repeat split; auto using incl_refl; try (now apply Hok).
    intros ? ? [].
  - destruct (fp_chain_loop fuel am_file_name c st) as [s |] eqn:E; [| discriminate].
    destruct (fp_chain_loop_entries _ _ _ _ E Hok) as [C1 [C2 [C3 [C4 C5]]]].
    destruct (IH _ H C1) as [I1 [I2 [I3 [I4 I5]]]].
    split; [exact I1 |]. split; [congruence |].
    split; [intros q; now rewrite I3, C3 |].
    split; [| eapply incl_tran; eassumption].
    intros chain p [<- | Hc] Hp He.
    + apply I5. now apply C4.
    + apply (I4 chain p Hc Hp). now rewrite C3.
Qed.

End Entries.

(** X22. From a translation unit without entries, [first_pass] leaves a list
    of entries that holds entry symbols only, with a counter that is its
    length; unless an allocation failed, every entry symbol of the table is in
    the list. *)
Theorem first_pass_lists_the_entries (fuel : nat) (curr_program : TRANSLATION_UNIT)
        (am_file am_file_name : string) (macro_table : MACRO_TABLE) (r : FIRST_RESULT) :
  entries_list curr_program = [] ->
  entries_counter curr_program = 0 ->
  first_pass fuel curr_program am_file am_file_name macro_table = Some r ->
  let tu := fp_unit (fp_final r) in
  entries_ok tu
  /\ (fp_return r <> MEMORY_ALLOCATION_ERROR ->
      forall chain p, In chain (symbol_table tu) -> In p chain ->
                      is_entry (symbol_at tu p) = true -> In p (entries_list tu)).
Proof.
  intros Hl Hc. unfold first_pass.
  pose proof (first_pass_lines_entries am_file_name macro_table
                (read_lines MAX_LINE_LEN am_file)
                (mkFirst 100 0 NO_ERRORS 1 curr_program [])) as He.
  pose proof (first_pass_lines_flag am_file_name macro_table
                (read_lines MAX_LINE_LEN am_file)
                (mkFirst 100 0 NO_ERRORS 1 curr_program [])
                (or_introl (conj eq_refl eq_refl))) as Hf.
  assert (forall tu, entries_part tu = entries_part curr_program -> entries_ok tu) as Hempty.
  { intros tu E. unfold entries_part in E. inversion E as [[E1 E2]].
    split; [rewrite E2, E1, Hc, Hl; reflexivity | rewrite E1, Hl; constructor]. }
  destruct (first_pass_lines _ _ _ _) as [r0 | st].
  - intros H; inversion H; subst. cbv zeta. split; [now apply Hempty |].
    destruct Hf as [Hf _]. intros C. contradiction.
  - destruct (fp_table_loop fuel am_file_name _ st) as [st' |] eqn:E; [| discriminate].
    intros H; inversion H; subst; clear H. cbv zeta. cbn [fp_final].
    destruct (fp_table_loop_entries _ _ _ _ _ E (Hempty _ He)) as [I1 [I2 [I3 [I4 _]]]].
    split; [exact I1 |]. intros _ chain p Hch Hp Hent.
    rewrite I2 in Hch. apply (I4 chain p Hch Hp). now rewrite <- I3.
Qed.

Lemma first_pass_lists_the_entries_witness :
  let tu := fp_unit (fp_final constant_and_data_pass) in
  entries_ok tu
  /\ (fp_return constant_and_data_pass <> MEMORY_ALLOCATION_ERROR ->
      forall chain p, In chain (symbol_table tu) -> In p chain ->
                      is_entry (symbol_at tu p) = true -> In p (entries_list tu)).
Proof.
  apply (first_pass_lists_the_entries 5 zero_unit constant_and_data "foo.am"
           empty_macro_table constant_and_data_pass).
  - reflexivity.
  - reflexivity.
  - vm_compute. reflexivity.
Defined.

(** ** The diagnostics of the second pass *)

Section SecondPassDiagnostics.

Variable am_file_name : string.

Lemma sp_error_flag st detail : sp_flag_ok (sp_error am_file_name st detail).
Proof. right. cbn [sp_error sp_err_flag sp_printed]. split; [reflexivity | apply printf_not_nil]. Qed.

Lemma sp_with_unit_flag st tu : sp_flag_ok st -> sp_flag_ok (sp_with_unit st tu).
Proof. exact (fun H => H). Qed.

Lemma sp_operand_flag ins i st :
  sp_flag_ok st -> sp_flag_ok (sp_operand am_file_name ins i st).
Proof.
  intros H. unfold sp_operand.
  repeat break_match; try apply sp_error_flag; exact H.
Qed.

Lemma sp_instruction_flag ins st :
  sp_flag_ok st -> sp_flag_ok (sp_instruction am_file_name ins st).
Proof.
  intros H. unfold sp_instruction. break_match; [exact H |].
  now apply sp_operand_flag, sp_operand_flag.
Qed.

Lemma sp_data_flag items st :
  sp_flag_ok st -> sp_flag_ok (sp_data am_file_name items st).
Proof.
  revert st. induction items as [| item r IH]; intros st H; cbn [sp_data]; [exact H |].
  apply IH. repeat break_match; try apply sp_error_flag; exact H.
Qed.

Lemma second_pass_ast_flag line_ast st :
  sp_flag_ok st -> sp_flag_ok (second_pass_ast am_file_name line_ast st).
Proof.
  intros H. unfold second_pass_ast.
  repeat break_match; try exact H;
    change (sp_flag_ok (sp_next_line ?s)) with (sp_flag_ok s).
  - now apply sp_data_flag.
  - now apply sp_instruction_flag.
Qed.

Lemma second_pass_lines_flag lines st :
  sp_flag_ok st ->
  match second_pass_lines am_file_name lines st with
  | inl st' => sp_flag_ok st'
  | inr st' => sp_flag_ok st'
  end.
Proof.
  revert st. induction lines as [| line rest IH]; intros st H; cbn [second_pass_lines].
  - exact H.
  - unfold second_pass_line.
    destruct (String.eqb _ memory_allocation_failed); [exact H |].
    now apply IH, second_pass_ast_flag.
Qed.

End SecondPassDiagnostics.

(** X23. [second_pass] returns [NO_ERRORS] only if it printed nothing and
    [SYNTAX_OR_LOGIC_ERROR] only if it printed a diagnostic; it returns no
    other value than these two and [MEMORY_ALLOCATION_ERROR]. *)
Theorem second_pass_is_silent_when_it_succeeds (curr_program : TRANSLATION_UNIT)
        (am_file_name am_file : string) :
  let r := second_pass curr_program am_file_name am_file in
  (fst r = NO_ERRORS -> sp_printed (snd r) = [])
  /\ (fst r = SYNTAX_OR_LOGIC_ERROR -> sp_printed (snd r) <> [])
  /\ (fst r = NO_ERRORS \/ fst r = SYNTAX_OR_LOGIC_ERROR
      \/ fst r = MEMORY_ALLOCATION_ERROR).
Proof.
  cbv zeta. unfold second_pass.
  pose proof (second_pass_lines_flag am_file_name (read_lines MAX_LINE_LEN am_file)
                (mkSecond curr_program NO_ERRORS 1 [])
                (or_introl (conj eq_refl eq_refl))) as H.
  destruct (second_pass_lines _ _ _) as [st | st]; cbn [fst snd].
  - repeat split; try discriminate. auto.
  - destruct H as [[H1 H2] | [H1 H2]]; rewrite H1; cbn [Z.eqb]; repeat split;
      try discriminate; auto.
Qed.

(** ** The cells that the second pass writes *)

Section ImagesFilled.

Variable am_file_name : string.

Lemma filled_between_refl tu : filled_between tu tu.
Proof. split; [apply counters_le_refl | split; reflexivity]. Qed.

Lemma filled_between_trans tu1 tu2 tu3 :
  filled_between tu1 tu2 -> filled_between tu2 tu3 -> filled_between tu1 tu3.
Proof.
  intros [[A1 A2] [A3 A4]] [[B1 B2] [B3 B4]].
  split; [split; lia |]. split; intros i Hi.
  - rewrite B3 by lia. apply A3. lia.
  - rewrite B4 by lia. apply A4. lia.
Qed.

Lemma writing_instruction_refl tu : writing_instruction tu tu.
Proof. repeat split. Qed.

Lemma writing_instruction_or tu tu' v :
  writing_instruction tu tu' -> writing_instruction tu (or_instruction tu' v).
Proof.
  intros [H1 [H2 [H3 H4]]]. unfold or_instruction, or_into, update.
  repeat split; unit_cbn; auto. intros i Hi. rewrite H1.
  destruct (Z.eqb_spec i (ic tu)); [contradiction | auto].
Qed.

Lemma writing_instruction_externals tu tu' l c :
  writing_instruction tu tu' -> writing_instruction tu (with_externals tu' l c).
Proof. exact (fun H => H). Qed.

Lemma writing_instruction_next tu tu' :
  writing_instruction tu tu' -> filled_between tu (next_ic tu').
Proof.
  intros [H1 [H2 [H3 H4]]]. split; [split; unit_cbn; lia |].
  split; unit_cbn; intros i Hi; [apply H4; lia | now rewrite H3].
Qed.

Lemma or_data_next tu v : filled_between tu (next_dc (or_data tu v)).
Proof.
  split; [split; unit_cbn; lia |]. split; unit_cbn; intros i Hi; [reflexivity |].
  unfold or_into, update. destruct (Z.eqb_spec i (dc tu)); [lia | reflexivity].
Qed.

Lemma or_instruction_next tu v : filled_between tu (next_ic (or_instruction tu v)).
Proof. apply writing_instruction_next, writing_instruction_or, writing_instruction_refl. Qed.

Lemma sp_first_word_filled ins tu : filled_between tu (sp_first_word ins tu).
Proof.
  unfold sp_first_word.
  apply writing_instruction_next.
  do 3 apply writing_instruction_or. apply writing_instruction_refl.
Qed.

Lemma sp_symbol_word_filled p tu : filled_between tu (sp_symbol_word p tu).
Proof.
  unfold sp_symbol_word. apply writing_instruction_next.
  break_match;
    repeat first [ apply writing_instruction_externals | apply writing_instruction_or ];
    apply writing_instruction_refl.
Qed.

Lemma sp_operand_filled ins i st :
  filled_between (sp_unit st) (sp_unit (sp_operand am_file_name ins i st)).
Proof.
  unfold sp_operand.
  repeat break_match; unit_cbn;
    first [ apply filled_between_refl
          | apply or_instruction_next
          | apply sp_symbol_word_filled
          | match goal with
            | |- filled_between _ (next_ic (or_instruction (sp_symbol_word ?p ?t) _)) =>
                apply filled_between_trans with (sp_symbol_word p t);
                [apply sp_symbol_word_filled | apply or_instruction_next]
            end ].
Qed.

Lemma sp_instruction_filled ins st :
  filled_between (sp_unit st) (sp_unit (sp_instruction am_file_name ins st)).
Proof.
  unfold sp_instruction. break_match.
  - unit_cbn. eapply filled_between_trans; [apply (sp_first_word_filled ins) |].
    apply writing_instruction_next.
    do 2 apply writing_instruction_or. apply writing_instruction_refl.
  - eapply filled_between_trans; [| apply sp_operand_filled].
    eapply filled_between_trans; [| apply sp_operand_filled].
    apply sp_first_word_filled.
Qed.

Lemma sp_string_filled chars tu : filled_between tu (sp_string chars tu).
Proof.
  revert tu. induction chars as [| c r IH]; intros tu; cbn [sp_string].
  - apply filled_between_refl.
  - eapply filled_between_trans; [apply or_data_next | apply IH].
Qed.

Lemma sp_data_filled items st :
  filled_between (sp_unit st) (sp_unit (sp_data am_file_name items st)).
Proof.
  revert st. induction items as [| item r IH]; intros st; cbn [sp_data].
  - apply filled_between_refl.
  - eapply filled_between_trans; [| apply IH].
    repeat break_match; unit_cbn;
      first [apply filled_between_refl | apply or_data_next].
Qed.

Lemma second_pass_ast_filled line_ast st :
  filled_between (sp_unit st) (sp_unit (second_pass_ast am_file_name line_ast st)).
Proof.
  unfold second_pass_ast.
  repeat break_match; unit_cbn;
    try apply filled_between_refl; try apply sp_instruction_filled;
    try apply sp_data_filled.
  match goal with
  | |- filled_between ?t (next_dc (sp_string ?c ?t)) =>
      apply filled_between_trans with (sp_string c t); [apply sp_string_filled |]
  end.
  split; [split; unit_cbn; lia |]. split; unit_cbn; reflexivity.
Qed.

Lemma second_pass_lines_filled lines st :
  match second_pass_lines am_file_name lines st with
  | inl st' => filled_between (sp_unit st) (sp_unit st')
  | inr st' => filled_between (sp_unit st) (sp_unit st')
  end.
Proof.
  revert st. induction lines as [| line rest IH]; intros st; cbn [second_pass_lines].
  - apply filled_between_refl.
  - unfold second_pass_line.
    destruct (String.eqb _ memory_allocation_failed); [apply filled_between_refl |].
    specialize (IH (second_pass_ast am_file_name (create_ast_from_text line) st)).
    destruct (second_pass_lines _ rest _);
      (eapply filled_between_trans; [apply second_pass_ast_filled | exact IH]).
Qed.

End ImagesFilled.

(** X24. [second_pass] only moves [ic] and [dc] forward, and it leaves alone
    every cell of the two images below the counter it started from or from the
    counter it ends with on. *)
Theorem second_pass_fills_the_images_forward (curr_program : TRANSLATION_UNIT)
        (am_file_name am_file : string) :
  let tu' := sp_unit (snd (second_pass curr_program am_file_name am_file)) in
  ic curr_program <= ic tu' /\ dc curr_program <= dc tu'
  /\ (forall i, i < ic curr_program \/ ic tu' <= i ->
                instruction_array tu' i = instruction_array curr_program i)
  /\ (forall i, i < dc curr_program \/ dc tu' <= i ->
                data_array tu' i = data_array curr_program i).
Proof.
  cbv zeta. unfold second_pass.
  pose proof (second_pass_lines_filled am_file_name (read_lines MAX_LINE_LEN am_file)
                (mkSecond curr_program NO_ERRORS 1 [])) as H.
  destruct (second_pass_lines _ _ _) as [st | st]; cbn [snd];
    destruct H as [[H1 H2] [H3 H4]]; auto.
Qed.

(** ** The list of externals *)

Section Externals.

Lemma ext_prepend_search l symbol_name symbol_address other :
  ext_search (ext_prepend l symbol_name symbol_address) other = ext_search l other.
Proof.
  induction l as [| e r IH]; cbn [ext_prepend ext_search]; [reflexivity |].
  destruct (String.eqb (ext_name e) symbol_name); cbn [ext_search ext_name];
    [reflexivity | now rewrite IH].
Qed.

Lemma ext_prepend_addresses l symbol_name symbol_address other :
  ext_search l symbol_name = true ->
  ext_addresses (ext_prepend l symbol_name symbol_address) other
  = if String.eqb other symbol_name then symbol_address :: ext_addresses l other
    else ext_addresses l other.
Proof.
  induction l as [| e r IH]; cbn [ext_prepend ext_search ext_addresses]; [discriminate |].
  destruct (String.eqb_spec (ext_name e) symbol_name) as [E | E]; cbn [orb].
  - intros _. cbn [ext_addresses ext_name ext_address]. rewrite E.
    destruct (String.eqb_spec symbol_name other) as [<- | N].
    + now rewrite String.eqb_refl.
    + destruct (String.eqb_spec other symbol_name); [congruence | reflexivity].
  - intros H. cbn [ext_addresses]. rewrite (IH H).
    destruct (String.eqb_spec (ext_name e) other) as [<- | N]; [| reflexivity].
    destruct (String.eqb_spec (ext_name e) symbol_name); [contradiction | reflexivity].
Qed.

Lemma ext_prepend_names l symbol_name symbol_address :
  map ext_name (ext_prepend l symbol_name symbol_address) = map ext_name l.
Proof.
  induction l as [| e r IH]; cbn [ext_prepend map]; [reflexivity |].
  destruct (String.eqb (ext_name e) symbol_name); cbn [map ext_name];
    [reflexivity | now rewrite IH].
Qed.

Lemma ext_search_names l symbol_name :
  ext_search l symbol_name = true <-> In symbol_name (map ext_name l).
Proof.
  induction l as [| e r IH]; cbn [ext_search map In]; [split; [discriminate | tauto] |].
  destruct (String.eqb_spec (ext_name e) symbol_name) as [E | E]; cbn [orb].
  - tauto.
  - rewrite IH. tauto.
Qed.


End Externals.

(** X25. After [add_ext_address] of a name that has fewer than
    [MAX_LABEL_LEN] characters and so fits the array of the node, [ext_search]
    finds the name, the address is the first of the addresses kept for it, the
    other names are as they were, and no name is in the list twice if none
    was. *)
Theorem add_ext_address_records (ext_list0 : list EXT_SYMBOL) (symbol_name : string)
        (symbol_address : Z) :
  fits_label symbol_name = true ->
  let l := add_ext_address ext_list0 symbol_name symbol_address in
  ext_search l symbol_name = true
  /\ ext_addresses l symbol_name = symbol_address :: ext_addresses ext_list0 symbol_name
  /\ (forall other, other <> symbol_name ->
                    ext_search l other = ext_search ext_list0 other
                    /\ ext_addresses l other = ext_addresses ext_list0 other)
  /\ (NoDup (map ext_name ext_list0) -> NoDup (map ext_name l)).
Proof.
  intros Hfit. cbv zeta. unfold add_ext_address.
  destruct (ext_search ext_list0 symbol_name) eqn:Es.
  - split; [now rewrite ext_prepend_search |].
    split; [rewrite ext_prepend_addresses by assumption; now rewrite String.eqb_refl |].
    split; [| now rewrite ext_prepend_names].
    intros other Hne. split; [apply ext_prepend_search |].
    rewrite ext_prepend_addresses by assumption.
    destruct (String.eqb_spec other symbol_name); [contradiction | reflexivity].
  - cbn [ext_search ext_addresses ext_name ext_address map]. rewrite String.eqb_refl.
    split; [reflexivity |]. split.
    { f_equal. clear -Es. induction ext_list0 as [| e r IH]; [reflexivity |].
      cbn [ext_search ext_addresses] in *. apply orb_false_iff in Es.
      destruct Es as [E1 E2]. rewrite E1. symmetry. rewrite <- (IH E2). reflexivity. }
    split.
    + intros other Hne.
      destruct (String.eqb_spec symbol_name other); [congruence |]. auto.
    + intros Hnd. constructor; [| exact Hnd].
      intros C. apply ext_search_names in C. congruence.
Qed.

Lemma add_ext_address_records_witness :
  let l := add_ext_address [mkExt "EXT" [101]] "EXT" 104 in
  ext_search l "EXT" = true
  /\ ext_addresses l "EXT" = 104 :: ext_addresses [mkExt "EXT" [101]] "EXT"
  /\ (forall other, other <> "EXT" ->
                    ext_search l other = ext_search [mkExt "EXT" [101]] other
                    /\ ext_addresses l other = ext_addresses [mkExt "EXT" [101]] other)
  /\ (NoDup (map ext_name [mkExt "EXT" [101]]) -> NoDup (map ext_name l)).
Proof. apply (add_ext_address_records [mkExt "EXT" [101]] "EXT" 104). reflexivity. Defined.

(** ** The counter of externals *)

Section ExternalCounter.

Variable am_file_name : string.











End ExternalCounter.



(** ** The lines of the object file *)

Section ObjectFile.

Lemma base_four_char_symbol (z : Z) : base_four_symbol (base_four_char (z mod 4)) = true.
Proof.
  pose proof (digit_range z) as H.
  assert (z mod 4 = 0 \/ z mod 4 = 1 \/ z mod 4 = 2 \/ z mod 4 = 3)
    as [-> | [-> | [-> | ->]]] by lia; reflexivity.
Qed.

Lemma group_of_sum (w k j : Z) :
  0 <= j <= 12 -> (w + k * 2 ^ 14) / 2 ^ j mod 4 = w / 2 ^ j mod 4.
Proof.
  intros Hj.
  replace (k * 2 ^ 14) with (k * 2 ^ (14 - j) * 2 ^ j)
    by (rewrite <- Z.mul_assoc, <- Z.pow_add_r by lia; do 2 f_equal; lia).
  rewrite Z.div_add by (apply Z.pow_nonzero; lia).
  replace (k * 2 ^ (14 - j)) with (k * 2 ^ (12 - j) * 4)
    by (rewrite <- Z.mul_assoc; f_equal; change 4 with (2 ^ 2);
        rewrite <- Z.pow_add_r by lia; f_equal; lia).
  apply Z.mod_add. lia.
Qed.

Lemma nth_map_seq {A : Type} (g : nat -> A) (start len k : nat) (d : A) :
  (k < len)%nat -> nth k (map g (seq start len)) d = g (start + k)%nat.
Proof.
  revert start k. induction len as [| len IH]; intros start [| k] H; cbn [seq map nth];
    try lia.
  - now rewrite Nat.add_0_r.
  - rewrite IH by lia. f_equal. lia.
Qed.

Lemma nth_map_upto {A : Type} (f : Z -> A) (n k : Z) (d : A) :
  0 <= k < n -> nth (Z.to_nat k) (map f (upto n)) d = f k.
Proof.
  intros Hk. unfold upto. rewrite map_map, nth_map_seq by lia.
  f_equal. lia.
Qed.

End ObjectFile.

(** X27. The object file shows a word as seven characters among [*], [#], [%]
    and [!], and it shows its low fourteen bits only: two words that differ by
    a multiple of 2^14 are printed alike. *)
Theorem encode_word_prints_fourteen_bits (w : Z) :
  String.length (encode_word w) = 7%nat
  /\ string_forall base_four_symbol (encode_word w) = true
  /\ forall k, encode_word (w + k * 2 ^ 14) = encode_word w.
Proof.
  split; [reflexivity |]. unfold encode_word.
  rewrite !land_3_mod, !shiftr_div by lia. split.
  - cbn [string_forall].
    change (w mod 4) with (w mod 4).
    rewrite !base_four_char_symbol. reflexivity.
  - intros k. rewrite !land_3_mod, !shiftr_div by lia.
    rewrite !group_of_sum by lia.
    replace ((w + k * 2 ^ 14) mod 4) with (w mod 4); [reflexivity |].
    pose proof (group_of_sum w k 0 ltac:(lia)) as H.
    rewrite !Z.pow_0_r, !Z.div_1_r in H. now rewrite H.
Qed.

(** X28. With counters that are not negative, the object file is the header
    and then one line for each word, the instruction words first and the data
    words after them, at the consecutive addresses from 100 on;
    [create_object_file] leaves [ic] raised by 100. *)
Theorem object_file_layout (curr_program : TRANSLATION_UNIT) :
  0 <= ic curr_program -> 0 <= dc curr_program ->
  let ob := fst (create_object_file curr_program) in
  Z.of_nat (List.length ob) = 1 + ic curr_program + dc curr_program
  /\ nth 0 ob "" = "  " ++ fmt_d (ic curr_program) ++ " " ++ fmt_d (dc curr_program) ++ nl
  /\ (forall k, 0 <= k < ic curr_program + dc curr_program ->
                nth (S (Z.to_nat k)) ob ""
                = "0" ++ fmt_d (100 + k) ++ " " ++ encode_word (image_word curr_program k)
                      ++ nl)
  /\ ic (snd (create_object_file curr_program)) = ic curr_program + 100.
Proof.
  intros Hic Hdc. cbv zeta. unfold create_object_file. cbn [fst snd].
  split; [| split; [| split]].
  - cbn [List.length]. rewrite length_app.
    unfold ob_instruction_lines, ob_data_lines. rewrite !length_map.
    pose proof (length_upto (ic curr_program) Hic).
    pose proof (length_upto (dc curr_program) Hdc). lia.
  - reflexivity.
  - intros k Hk. cbn [nth]. unfold image_word.
    assert (List.length (ob_instruction_lines curr_program) = Z.to_nat (ic curr_program))
      as Hlen.
    { unfold ob_instruction_lines. rewrite length_map.
      pose proof (length_upto (ic curr_program) Hic). lia. }
    destruct (Z.ltb_spec k (ic curr_program)) as [Hlt | Hge].
    + rewrite app_nth1 by lia. unfold ob_instruction_lines.
      rewrite nth_map_upto by lia. unfold ob_word_line.
      now rewrite (Z.add_comm k 100).
    + rewrite app_nth2 by lia. rewrite Hlen. unfold ob_data_lines.
      replace (Z.to_nat k - Z.to_nat (ic curr_program))%nat
        with (Z.to_nat (k - ic curr_program)) by lia.
      rewrite nth_map_upto by lia. unfold ob_word_line.
      now replace (k - ic curr_program + (ic curr_program + 100)) with (100 + k) by lia.
  - reflexivity.
Qed.

Lemma object_file_layout_witness :
  let ob := fst (create_object_file three_words) in
  Z.of_nat (List.length ob) = 1 + ic three_words + dc three_words
  /\ nth 0 ob "" = "  " ++ fmt_d (ic three_words) ++ " " ++ fmt_d (dc three_words) ++ nl
  /\ (forall k, 0 <= k < ic three_words + dc three_words ->
                nth (S (Z.to_nat k)) ob ""
                = "0" ++ fmt_d (100 + k) ++ " " ++ encode_word (image_word three_words k)
                      ++ nl)
  /\ ic (snd (create_object_file three_words)) = ic three_words + 100.
Proof. apply (object_file_layout three_words); vm_compute; discriminate. Defined.

(** ** The files that the driver leaves *)

Section Driver.

Variable am_file_name : string.

Lemma first_pass_lines_allocated macro_table lines st st' :
  first_pass_lines am_file_name macro_table lines st = inr st' ->
  Forall (fun line =>
            String.eqb (error_detail (create_ast_from_text line)) memory_allocation_failed
            = false) lines.
Proof.
  revert st. induction lines as [| line rest IH]; intros st H; cbn [first_pass_lines] in H.
  - constructor.
  - destruct (first_pass_line am_file_name macro_table line st) as [r | s] eqn:E;
      [discriminate |].
    constructor; [| now apply (IH s)].
    destruct (String.eqb_spec (error_detail (create_ast_from_text line))
                memory_allocation_failed) as [Em | Em]; [| reflexivity].
    exfalso. revert E. unfold first_pass_line.
    assert (ast_type (create_ast_from_text line) = error) as ->.
    { destruct (parsed_line_cases line) as [[Ht _] | [_ Hd]]; [exact Ht |].
      rewrite Hd in Em. discriminate. }
    rewrite Em. cbn. discriminate.
Qed.

Lemma second_pass_lines_allocated lines st :
  Forall (fun line =>
            String.eqb (error_detail (create_ast_from_text line)) memory_allocation_failed
            = false) lines ->
  exists st', second_pass_lines am_file_name lines st = inr st'.
Proof.
  intros H. revert st. induction H as [| line rest Hl Hr IH]; intros st;
    cbn [second_pass_lines].
  - eauto.
  - unfold second_pass_line. rewrite Hl. apply IH.
Qed.

End Driver.

(** X29. For one file of the command line, [main] writes the object file
    exactly when nothing was printed: either no diagnostic and an object file,
    or a diagnostic and neither object, entries nor externals file. *)
Theorem main_writes_the_object_file_when_silent (fuel : nat) (file_name as_file : string)
        (out : OUTPUT) :
  main_file fuel file_name as_file = Some out ->
  (out_printed out = [] /\ exists ob, out_ob out = Some ob)
  \/ (out_printed out <> []
      /\ out_ob out = None /\ out_ent out = None /\ out_ext out = None).
Proof.
  unfold main_file. cbv zeta.
  pose proof (pre_assembly_printed file_name as_file empty_macro_table)
    as Hpre.
  cbv zeta in Hpre.
  destruct Hpre as [[P1 [P2 P3]] | [P1 [[am P2] P3]]]; rewrite P1; [| rewrite P2].
  { intros H; inversion H; subst. right. cbn. auto. }
  rewrite P3. cbn [List.app].
  destruct (first_pass fuel zero_unit am _ _) as [r1 |] eqn:E1; [| discriminate].
  pose proof (first_pass_printed _ _ _ _ _ _ E1) as H1.
  destruct H1 as [[R1 Q1] | [R1 Q1]].
  2:{ destruct (Z.eqb_spec (fp_return r1) NO_ERRORS) as [C | _].
      - exfalso. rewrite C in R1. destruct R1; discriminate.
      - intros H; inversion H; subst. right. cbn. auto. }
  rewrite R1, Q1. cbn [Z.eqb List.app].
  change (NO_ERRORS =? NO_ERRORS) with true. cbv iota.
  assert (exists st2, second_pass_lines (file_name ++ ".am") (read_lines MAX_LINE_LEN am)
                        (mkSecond (fp_unit (fp_final r1)) NO_ERRORS 1 []) = inr st2)
    as [st2 Hst2].
  { apply second_pass_lines_allocated.
    revert E1. unfold first_pass.
    destruct (first_pass_lines _ _ _ _) as [r0 | st] eqn:El.
    - intros H; inversion H; subst.
      match type of El with
      | first_pass_lines ?n ?mt ?ls ?s = _ =>
          pose proof (first_pass_lines_flag n mt ls s (or_introl (conj eq_refl eq_refl)))
            as Hf
      end.
      rewrite El in Hf. destruct Hf as [Hf _]. rewrite Hf in R1. discriminate.
    - intros _. now apply first_pass_lines_allocated in El. }
  pose proof (second_pass_lines_flag (file_name ++ ".am") (read_lines MAX_LINE_LEN am)
                (mkSecond (fp_unit (fp_final r1)) NO_ERRORS 1 [])
                (or_introl (conj eq_refl eq_refl))) as Hf.
  rewrite Hst2 in Hf. unfold second_pass. rewrite Hst2.
  destruct Hf as [[F P] | [F P]]; rewrite F.
  - change (NO_ERRORS =? NO_ERRORS) with true. cbv iota.
    cbn [create_object_file]. intros H; inversion H; subst; clear H.
    left. cbn [out_printed out_ob]. split; [rewrite P; reflexivity | eauto].
  - change (SYNTAX_OR_LOGIC_ERROR =? NO_ERRORS) with false. cbv iota.
    intros H; inversion H; subst; clear H.
    right. cbn [out_printed out_ob out_ent out_ext]. auto.
Qed.

Lemma main_writes_the_object_file_when_silent_witness :
  (out_printed constant_and_data_output = []
   /\ exists ob, out_ob constant_and_data_output = Some ob)
  \/ (out_printed constant_and_data_output <> []
      /\ out_ob constant_and_data_output = None
      /\ out_ent constant_and_data_output = None
      /\ out_ext constant_and_data_output = None).
Proof.
  apply (main_writes_the_object_file_when_silent 5 "foo" constant_and_data
           constant_and_data_output).
  vm_compute. reflexivity.
Defined.
